(** * Privexi: a shallow embedding of the key envelope, the vault storage
      engine and the session controller

    The Python sources embedded here are
      - privexi/usb_key_manager.py  (create_usb_key, load_usb_key),
      - privexi/encryption.py       (VaultCrypto, secure_delete),
      - privexi/vault_manager.py    (VaultManager),
      - privexi/security_log.py     (log_event, log_warning, log_failure),
      - privexi/ui/main_window.py   (MainWindow: unlock, lockout, timers).

    Python code that performs I/O, prints, draws random bytes or reads the
    clock is written in a state-and-exception monad over an explicit
    [World]; library primitives whose bodies are not part of the repository
    (PBKDF2, AES-GCM, Fernet, SHA-256, json, the home directory, the time
    stamp of a log record) are the fields of an interface [Platform]. *)

From Stdlib Require Import ZArith Strings.Byte Ascii String Sorted Permutation Lia.
From stdpp Require Import gmap strings list fin_maps pretty.

Open Scope string_scope.
Open Scope list_scope.

(** ** Bytes, slices and big-endian integers *)

Abbreviation bytes := (list Byte.byte).

#[global] Instance byte_eq_decision : EqDecision Byte.byte := Byte.byte_eq_dec.

(** Python's [data[a:b]] for [0 <= a <= b]: never raises, clips at the end. *)
Definition slice {A} (a b : nat) (l : list A) : list A := take (b - a) (drop a l).

(** [n.to_bytes(2, "big")]: raises OverflowError from 65536 on. *)
Definition to_bytes2 (n : nat) : option bytes :=
  match Byte.of_N (N.of_nat n / 256), Byte.of_N (N.of_nat n mod 256) with
  | Some hi, Some lo => Some [hi; lo]
  | _, _ => None
  end.

(** [int.from_bytes(b, "big")] on a byte string of any length. *)
Definition from_bytes_big (b : bytes) : nat :=
  N.to_nat (fold_left (fun acc x => acc * 256 + Byte.to_N x)%N b 0%N).

(** [payload.startswith(prefix)] *)
Fixpoint startswith (prefix data : bytes) : bool :=
  match prefix, data with
  | [], _ => true
  | p :: ps, d :: ds => if decide (p = d) then startswith ps ds else false
  | _ :: _, [] => false
  end.

(** A [str] is kept as the bytes of its UTF-8 encoding: the secrets, names
    and paths of the sources are handed on encoded, and the operations the
    sources apply to a [str] are written on that encoding.  [s.encode()]
    is then the string itself. *)
Definition encode (s : string) : bytes := list_byte_of_string s.

(** ** Strings: [str.strip], [str.upper], [str.rfind], base64 *)

(** The white space that [str.strip()] removes, each character by the
    bytes of its UTF-8 encoding: U+0009 to U+000D, U+001C to U+0020,
    U+0085, U+00A0, U+1680, U+2000 to U+200A, U+2028, U+2029, U+202F,
    U+205F and U+3000. *)
Definition whitespace : list string :=
  map (fun codes => string_of_list_ascii (map ascii_of_nat codes))
    [[9]; [10]; [11]; [12]; [13]; [28]; [29]; [30]; [31]; [32];
     [194; 133]; [194; 160]; [225; 154; 128];
     [226; 128; 128]; [226; 128; 129]; [226; 128; 130]; [226; 128; 131];
     [226; 128; 132]; [226; 128; 133]; [226; 128; 134]; [226; 128; 135];
     [226; 128; 136]; [226; 128; 137]; [226; 128; 138];
     [226; 128; 168]; [226; 128; 169]; [226; 128; 175];
     [226; 129; 159]; [227; 128; 128]].

(** [s] without the prefix [p], when it starts with [p]. *)
Fixpoint drop_prefix (p s : string) : option string :=
  match p, s with
  | EmptyString, _ => Some s
  | String a p', String b s' => if decide (a = b) then drop_prefix p' s' else None
  | String _ _, EmptyString => None
  end.

(** [s] without its first character, when that is one of [chars]. *)
Fixpoint drop_one (chars : list string) (s : string) : option string :=
  match chars with
  | [] => None
  | p :: rest =>
      match drop_prefix p s with
      | Some r => Some r
      | None => drop_one rest s
      end
  end.

(** [s] without its leading characters of [chars]; every round takes a
    byte at least, so the length of [s] is fuel enough. *)
Fixpoint drop_leading (fuel : nat) (chars : list string) (s : string) : string :=
  match fuel with
  | O => s
  | S fuel' =>
      match drop_one chars s with
      | Some r => drop_leading fuel' chars r
      | None => s
      end
  end.

Definition string_rev (s : string) : string :=
  string_of_list_ascii (rev (list_ascii_of_string s)).

Definition lstrip (s : string) : string := drop_leading (String.length s) whitespace s.

(** A character of [whitespace] ends [s] exactly when its bytes, read
    backwards, start [s] read backwards: the lead byte of an encoding is
    never a byte within one. *)
Definition rstrip (s : string) : string :=
  string_rev (drop_leading (String.length s) (map string_rev whitespace) (string_rev s)).

Definition strip (s : string) : string := rstrip (lstrip s).

(** [str.upper()] on the letters a to z; the sources apply it to base64
    text only. *)
Definition upper_ascii (c : ascii) : ascii :=
  let n := nat_of_ascii c in
  if ((97 <=? n) && (n <=? 122))%nat then ascii_of_nat (n - 32) else c.

Fixpoint upper (s : string) : string :=
  match s with
  | String c r => String (upper_ascii c) (upper r)
  | EmptyString => EmptyString
  end.

Fixpoint str_take (n : nat) (s : string) : string :=
  match n, s with
  | S n', String c r => String c (str_take n' r)
  | _, _ => EmptyString
  end.

Fixpoint str_drop (n : nat) (s : string) : string :=
  match n, s with
  | S n', String _ r => str_drop n' r
  | _, _ => s
  end.

(** Index of the last occurrence of [c] in [s], as [str.rfind]; [None] is
    Python's -1. *)
Fixpoint rfind (c : ascii) (s : string) : option nat :=
  match s with
  | EmptyString => None
  | String d r =>
      match rfind c r with
      | Some i => Some (S i)
      | None => if decide (c = d) then Some 0 else None
      end
  end.

Definition b64url_alphabet : string :=
  "ABCDEFGHIJKLMNOPQRSTUVWXYZabcdefghijklmnopqrstuvwxyz0123456789-_".

Definition b64_char (n : N) : ascii :=
  match String.get (N.to_nat n) b64url_alphabet with
  | Some c => c
  | None => "A"%char
  end.

(** URL-safe base64 without the padding, as [secrets.token_urlsafe] returns
    it ([base64.urlsafe_b64encode(tok).rstrip(b'=')]). *)
Fixpoint b64url (b : bytes) : string :=
  match b with
  | x :: y :: z :: r =>
      let n := (Byte.to_N x * 65536 + Byte.to_N y * 256 + Byte.to_N z)%N in
      String (b64_char (n / 262144)) (String (b64_char (n / 4096 mod 64))
        (String (b64_char (n / 64 mod 64)) (String (b64_char (n mod 64)) (b64url r))))
  | [x; y] =>
      let n := (Byte.to_N x * 1024 + Byte.to_N y * 4)%N in
      String (b64_char (n / 4096)) (String (b64_char (n / 64 mod 64))
        (String (b64_char (n mod 64)) EmptyString))
  | [x] =>
      let n := (Byte.to_N x * 16)%N in
      String (b64_char (n / 64)) (String (b64_char (n mod 64)) EmptyString)
  | [] => EmptyString
  end.

(** ** Paths

    A path is the string pathlib prints for it; [a / b] joins with a slash
    unless [b] is absolute.  Normalisation of dots and doubled slashes is
    not modelled. *)

Definition is_absolute (p : string) : bool :=
  match p with
  | String "/"%char _ => true
  | _ => false
  end.

Definition path_join (d n : string) : string :=
  if is_absolute n then n else (d ++ "/" ++ n)%string.

(** [Path.name]: the final component. *)
Definition path_name (p : string) : string :=
  match rfind "/"%char p with
  | Some i => str_drop (S i) p
  | None => p
  end.

(** [Path.suffix]: from the last dot of the name, unless that dot leads or
    ends the name. *)
Definition path_suffix (p : string) : string :=
  let name := path_name p in
  match rfind "."%char name with
  | Some i =>
      if ((0 <? i) && (S i <? String.length name))%nat then str_drop i name else ""
  | None => ""
  end.

(** [Path.stem]: the name without its suffix. *)
Definition path_stem (p : string) : string :=
  let name := path_name p in
  match rfind "."%char name with
  | Some i =>
      if ((0 <? i) && (S i <? String.length name))%nat then str_take i name else name
  | None => name
  end.

(** ** Exceptions and the state-and-exception monad *)

Inductive exn : Type :=
  | OSError
  | OverflowError
  | ValueError
  | InvalidTag
  | InvalidToken
  | AttributeError
  | JSONDecodeError.

#[global] Instance exn_eq_decision : EqDecision exn.
Proof. solve_decision. Defined.

Inductive result (A : Type) : Type :=
  | Ok (a : A)
  | Raise (e : exn).
Arguments Ok {A} a.
Arguments Raise {A} e.

(** A computation over a state [St]: the state survives an exception, as
    the fields of a Python object and the file system do. *)
Definition M (St A : Type) : Type := St -> result A * St.

Definition m_ret {St A} (a : A) : M St A := fun s => (Ok a, s).

Definition m_bind {St A B} (f : A -> M St B) (m : M St A) : M St B :=
  fun s =>
    match m s with
    | (Ok a, s') => f a s'
    | (Raise e, s') => (Raise e, s')
    end.

#[global] Instance M_ret St : MRet (M St) := @m_ret St.
#[global] Instance M_bind St : MBind (M St) := @m_bind St.

Definition raise {St A} (e : exn) : M St A := fun s => (Raise e, s).

(** [try: body  except Exception as e: handler(e)] *)
Definition try_except {St A} (body : M St A) (handler : exn -> M St A) : M St A :=
  fun s =>
    match body s with
    | (Ok a, s') => (Ok a, s')
    | (Raise e, s') => handler e s'
    end.

Definition get_state {St} : M St St := fun s => (Ok s, s).
Definition modify_state {St} (f : St -> St) : M St unit := fun s => (Ok tt, f s).

(** Runs a computation over a component [T] of the state [St]. *)
Definition zoom {St T A} (get : St -> T) (set : T -> St -> St) (m : M T A) : M St A :=
  fun s => let '(r, t') := m (get s) in (r, set t' s).

(** [for x in l: body(x)] *)
Fixpoint for_each {St A} (l : list A) (body : A -> M St unit) : M St unit :=
  match l with
  | [] => mret tt
  | x :: r => body x ;; for_each r body
  end.

(** [for _ in range(n): body] *)
Fixpoint repeat_n {St} (n : nat) (body : M St unit) : M St unit :=
  match n with
  | O => mret tt
  | S n' => body ;; repeat_n n' body
  end.

(** ** The world: files, I/O faults, standard output, entropy and clock *)

Inductive open_mode : Type := ModeWB | ModeRPlusB.

(** The calls of Python's file API that the sources make, and the one the
    handler of the security log makes.  [IoWrite] carries the position of
    the handle at the time of the write; [IoAppend] is a write to a file
    opened in append mode, which makes the file when it is missing. *)
Inductive io_call : Type :=
  | IoStat (p : string)
  | IoOpen (p : string) (mode : open_mode)
  | IoSeek (p : string) (pos : nat)
  | IoWrite (p : string) (pos : nat) (data : bytes)
  | IoFlush (p : string)
  | IoFsync (p : string)
  | IoClose (p : string)
  | IoUnlink (p : string)
  | IoReadBytes (p : string)
  | IoAppend (p : string) (data : bytes).

(** The lines the sources print, by the [print] call that emits them. *)
Inductive line : Type :=
  | DbgCreatingKey (usb_path : string)
  | DbgKeyFileWritten (key_file : string)
  | DbgCreateError (e : exn)
  | DbgUsbPath (usb_path : string)
  | DbgLookingForKeyFile (key_file : string)
  | DbgKeyFileNotFound
  | DbgVersionMismatch
  | DbgPayloadVersionMismatch
  | DbgVaultUnlocked
  | DbgLoadError (e : exn)
  | VaultIndexDecryptWarning
  | VaultIndexLoadError (e : exn)
  | VaultAddError (e : exn)
  | VaultEntryNotFound (vault_id : string)
  | VaultFileMissing (vault_file : string)
  | VaultDecryptionFailed
  | VaultIntegrityCheckFailed
  | VaultExtractError (e : exn)
  | SecureDeleteWarning (e : exn).

Record World : Type := mkWorld {
  w_files : gmap string bytes;      (* path -> content *)
  w_faults : list bool;             (* whether the next I/O calls fail *)
  w_trace : list (io_call * bool);  (* I/O calls made, oldest first, with success *)
  w_stdout : list line;             (* printed lines, oldest first *)
  w_entropy : nat -> Byte.byte;     (* the bytes the system CSPRNG will give *)
  w_drawn : nat;                    (* how many of them were drawn *)
  w_clock : nat -> Z;               (* what the readings of time.time() will be *)
  w_reads : nat                     (* how many readings were taken *)
}.

Definition with_files (fs : gmap string bytes) (w : World) : World :=
  mkWorld fs (w_faults w) (w_trace w) (w_stdout w) (w_entropy w) (w_drawn w)
          (w_clock w) (w_reads w).

(** What a call does to the files when it succeeds; [None] when the call
    fails on these files (no such file). *)
Definition apply_call (c : io_call) (fs : gmap string bytes) : option (gmap string bytes) :=
  match c with
  | IoOpen p ModeWB => Some (<[p := []]> fs)
  | IoStat p | IoOpen p ModeRPlusB | IoReadBytes p =>
      match fs !! p with Some _ => Some fs | None => None end
  | IoWrite p pos data =>
      match fs !! p with
      | Some c =>
          Some (<[p := take pos c ++ replicate (pos - length c) x00 ++ data
                        ++ drop (pos + length data) c]> fs)
      | None => None
      end
  | IoUnlink p =>
      match fs !! p with Some _ => Some (delete p fs) | None => None end
  | IoAppend p data => Some (<[p := default [] (fs !! p) ++ data]> fs)
  | IoSeek _ _ | IoFlush _ | IoFsync _ | IoClose _ => Some fs
  end.

(** One I/O call: it fails with OSError when the fault schedule says so or
    when the files do not allow it, and is recorded either way. *)
Definition io (c : io_call) : M World unit := fun w =>
  let fault := default false (head (w_faults w)) in
  match (if fault then None else apply_call c (w_files w)) with
  | Some fs' =>
      (Ok tt, mkWorld fs' (tail (w_faults w)) (w_trace w ++ [(c, true)]) (w_stdout w)
                      (w_entropy w) (w_drawn w) (w_clock w) (w_reads w))
  | None =>
      (Raise OSError,
       mkWorld (w_files w) (tail (w_faults w)) (w_trace w ++ [(c, false)]) (w_stdout w)
               (w_entropy w) (w_drawn w) (w_clock w) (w_reads w))
  end.

Definition print (l : line) : M World unit := fun w =>
  (Ok tt, mkWorld (w_files w) (w_faults w) (w_trace w) (w_stdout w ++ [l])
                  (w_entropy w) (w_drawn w) (w_clock w) (w_reads w)).

(** [secrets.token_bytes(n)] / [os.urandom(n)] *)
Definition token_bytes (n : nat) : M World bytes := fun w =>
  (Ok (map (w_entropy w) (seq (w_drawn w) n)),
   mkWorld (w_files w) (w_faults w) (w_trace w) (w_stdout w)
           (w_entropy w) (w_drawn w + n) (w_clock w) (w_reads w)).

(** [time.time()]; a reading is kept as an integer that orders as the float
    does. *)
Definition time_time : M World Z := fun w =>
  (Ok (w_clock w (w_reads w)),
   mkWorld (w_files w) (w_faults w) (w_trace w) (w_stdout w)
           (w_entropy w) (w_drawn w) (w_clock w) (S (w_reads w))).

(** [Path.exists()] *)
Definition path_exists (p : string) : M World bool := fun w =>
  (Ok (bool_decide (is_Some (w_files w !! p))), w).

Definition file_content (p : string) : M World bytes := fun w =>
  match w_files w !! p with
  | Some c => (Ok c, w)
  | None => (Raise OSError, w)
  end.

(** [Path.read_bytes()] *)
Definition read_bytes (p : string) : M World bytes :=
  io (IoReadBytes p) ;; file_content p.

(** The exit of [with open(...) as f]: the file is closed whether the body
    raised or not. *)
Definition closing {A} (p : string) (body : M World A) : M World A := fun w =>
  let '(r, w') := body w in
  match io (IoClose p) w' with
  | (Ok _, w'') => (r, w'')
  | (Raise e, w'') => (Raise e, w'')
  end.

(** [Path.write_bytes(data)]: [with self.open(mode='wb') as f: f.write(data)];
    opening in mode wb truncates the file. *)
Definition write_bytes (p : string) (data : bytes) : M World unit :=
  io (IoOpen p ModeWB) ;; closing p (io (IoWrite p 0 data)).

(** [Path.stat().st_size] *)
Definition stat_size (p : string) : M World nat :=
  io (IoStat p) ;; c ← file_content p; mret (length c).

(** [Path.unlink()] *)
Definition unlink (p : string) : M World unit := io (IoUnlink p).

Definition lift_result {St A} (r : result A) : M St A := fun s => (r, s).

(** ** The vault index

    [self._index] is a dict from vault_id to a dict of metadata; a dict
    keeps its keys in insertion order.  The fields read with [meta[...]]
    are mandatory, "sha256" is read with [meta.get("sha256", "")]. *)

Record Meta : Type := mkMeta {
  original_name : string;
  vault_file : string;
  added_at : Z;
  size_bytes : nat;
  sha256 : option string
}.

Definition Index : Type := list (string * Meta).

(** [d.get(k)] *)
Fixpoint dict_get {V} (k : string) (d : list (string * V)) : option V :=
  match d with
  | [] => None
  | (k', v) :: r => if decide (k = k') then Some v else dict_get k r
  end.

(** [d[k] = v]: an existing key keeps its place, a new key goes last. *)
Fixpoint dict_set {V} (k : string) (v : V) (d : list (string * V)) : list (string * V) :=
  match d with
  | [] => [(k, v)]
  | (k', v') :: r => if decide (k = k') then (k, v) :: r else (k', v') :: dict_set k v r
  end.

(** [del d[k]] for a key that is present. *)
Fixpoint dict_del {V} (k : string) (d : list (string * V)) : list (string * V) :=
  match d with
  | [] => []
  | (k', v') :: r => if decide (k = k') then r else (k', v') :: dict_del k r
  end.

(** ** Library primitives *)

Class Platform : Type := {
  (** [Path.home()] *)
  path_home : string;
  (** [PBKDF2HMAC(SHA256, length, salt, iterations).derive(password)] *)
  pbkdf2_hmac_sha256 : N -> nat -> bytes -> bytes -> bytes;
  (** [AESGCM(key).encrypt(nonce, data, aad)]; the constructor and the call
      raise ValueError on a key or nonce of the wrong size *)
  aesgcm_encrypt : bytes -> bytes -> bytes -> bytes -> result bytes;
  (** [AESGCM(key).decrypt(nonce, data, aad)]; raises InvalidTag *)
  aesgcm_decrypt : bytes -> bytes -> bytes -> bytes -> result bytes;
  (** [Fernet(key)._encrypt_from_parts(data, time, iv)] *)
  fernet_encrypt : bytes -> Z -> bytes -> bytes -> bytes;
  (** [Fernet(key).decrypt(token)]; raises InvalidToken *)
  fernet_decrypt : bytes -> bytes -> result bytes;
  (** [hashlib.sha256(data).hexdigest()] *)
  sha256_hex : bytes -> string;
  (** [json.dumps(index, indent=2).encode("utf-8")] *)
  json_dumps : Index -> bytes;
  (** [json.loads(text.decode("utf-8"))] *)
  json_loads : bytes -> result Index;
  (** [logging.Formatter.formatTime]: the "%(asctime)s" of a record made
      at the given reading of the clock *)
  asctime : Z -> string
}.

(** The law of an AEAD cipher that the key envelope relies on. *)
Definition aead_correct (L : Platform) : Prop :=
  forall key nonce data aad ct,
    aesgcm_encrypt key nonce data aad = Ok ct ->
    aesgcm_decrypt key nonce ct aad = Ok data.

(** ** privexi/usb_key_manager.py *)

Definition KEY_FILE_NAME : string := ".vault.key".
Definition VERSION : bytes := [x03].
Definition SALT_SIZE : nat := 32.
Definition AES_KEY_SIZE : nat := 32.
Definition NONCE_SIZE : nat := 12.
Definition PBKDF2_ITERATIONS : N := 480000.

Section KeyEnvelope.
Context {L : Platform}.

Definition derive_key (secret : string) (salt : bytes) : bytes :=
  pbkdf2_hmac_sha256 PBKDF2_ITERATIONS AES_KEY_SIZE salt (encode secret).

(** The body of the [try] of [create_usb_key].  The hidden attribute set
    on Windows has no counterpart in [World]. *)
Definition create_usb_key_body (usb_path password : string) : M World (option string) :=
  print (DbgCreatingKey usb_path) ;;
  salt_pw ← token_bytes SALT_SIZE;
  salt_recovery ← token_bytes SALT_SIZE;
  nonce ← token_bytes NONCE_SIZE;
  master_key ← token_bytes AES_KEY_SIZE;
  tok ← token_bytes 12;
  let recovery_code := upper (str_take 16 (b64url tok)) in
  let key_pw := derive_key password salt_pw in
  let key_recovery := derive_key recovery_code salt_recovery in
  let payload := VERSION ++ master_key in
  ct_pw ← lift_result (aesgcm_encrypt key_pw nonce payload salt_pw);
  ct_recovery ← lift_result (aesgcm_encrypt key_recovery nonce payload salt_recovery);
  len_ct_pw ← match to_bytes2 (length ct_pw) with
              | Some b => mret b
              | None => raise OverflowError
              end;
  let blob := VERSION ++ salt_pw ++ salt_recovery ++ nonce ++ len_ct_pw
                      ++ ct_pw ++ ct_recovery in
  let key_file := path_join usb_path KEY_FILE_NAME in
  write_bytes key_file blob ;;
  print (DbgKeyFileWritten key_file) ;;
  mret (Some recovery_code).

Definition create_usb_key (usb_path password : string) : M World (option string) :=
  try_except (create_usb_key_body usb_path password)
             (fun e => print (DbgCreateError e) ;; mret None).

(** The body of the [try] of [load_usb_key]. *)
Definition load_usb_key_body (key_file secret : string) (is_recovery : bool)
  : M World (option bytes) :=
  data ← read_bytes key_file;
  let version := slice 0 1 data in
  if decide (version ≠ VERSION) then
    print DbgVersionMismatch ;; mret None
  else
    let off := 1 in
    let salt_pw := slice off (off + SALT_SIZE) data in
    let off := off + SALT_SIZE in
    let salt_recovery := slice off (off + SALT_SIZE) data in
    let off := off + SALT_SIZE in
    let nonce := slice off (off + NONCE_SIZE) data in
    let off := off + NONCE_SIZE in
    let ct_len := from_bytes_big (slice off (off + 2) data) in
    let off := off + 2 in
    let ct_pw := slice off (off + ct_len) data in
    let ct_recovery := drop (off + ct_len) data in
    let salt := if is_recovery then salt_recovery else salt_pw in
    let ciphertext := if is_recovery then ct_recovery else ct_pw in
    let key := derive_key secret salt in
    payload ← lift_result (aesgcm_decrypt key nonce ciphertext salt);
    if negb (startswith VERSION payload) then
      print DbgPayloadVersionMismatch ;; mret None
    else
      let master_key := slice 1 (1 + AES_KEY_SIZE) payload in
      print DbgVaultUnlocked ;; mret (Some master_key).

Definition load_usb_key (usb_path secret : string) (is_recovery : bool)
  : M World (option bytes) :=
  let key_file := path_join usb_path KEY_FILE_NAME in
  print (DbgUsbPath usb_path) ;;
  print (DbgLookingForKeyFile key_file) ;;
  present ← path_exists key_file;
  if negb present then
    print DbgKeyFileNotFound ;; mret None
  else
    try_except (load_usb_key_body key_file secret is_recovery)
               (fun e => print (DbgLoadError e) ;; mret None).

End KeyEnvelope.

(** ** privexi/encryption.py *)

(** [VaultCrypto._fernet]: the Fernet object, identified with its 32-byte
    key, or [None] after [wipe]. *)
Record VaultCrypto : Type := mkVaultCrypto { _fernet : option bytes }.

Definition DEFAULT_PASSES : nat := 3.

Section Encryption.
Context {L : Platform}.

Definition VAULT_DIR : string := path_join path_home ".secure_vault".
Definition VAULT_INDEX : string := path_join VAULT_DIR ".vault_index".

Definition get_file_integrity_hash (data : bytes) : string := sha256_hex data.

(** [VaultCrypto(master_key)]: [Fernet] refuses a key that is not 32 bytes
    long once decoded. *)
Definition new_VaultCrypto (master_key : bytes) : result VaultCrypto :=
  if decide (length master_key = 32) then Ok (mkVaultCrypto (Some master_key))
  else Raise ValueError.

(** [Fernet.encrypt] reads the clock, then draws a 16-byte IV. *)
Definition encrypt_file (self : VaultCrypto) (plaintext : bytes) : M World bytes :=
  match _fernet self with
  | None => raise AttributeError
  | Some key =>
      now ← time_time;
      iv ← token_bytes 16;
      mret (fernet_encrypt key now iv plaintext)
  end.

Definition decrypt_file (self : VaultCrypto) (ciphertext : bytes) : option bytes :=
  match _fernet self with
  | None => None
  | Some key =>
      match fernet_decrypt key ciphertext with
      | Ok plaintext => Some plaintext
      | Raise _ => None
      end
  end.

Definition wipe (self : VaultCrypto) : VaultCrypto := mkVaultCrypto None.

End Encryption.

(** One pass of the loop of [secure_delete]. *)
Definition overwrite_pass (path : string) (size : nat) : M World unit :=
  io (IoSeek path 0) ;;
  data ← token_bytes size;
  io (IoWrite path 0 data) ;;
  io (IoFlush path) ;;
  io (IoFsync path).

Definition secure_delete (path : string) (passes : nat) : M World unit :=
  try_except
    (size ← stat_size path;
     io (IoOpen path ModeRPlusB) ;;
     closing path (repeat_n passes (overwrite_pass path size)) ;;
     unlink path)
    (fun e =>
       print (SecureDeleteWarning e) ;;
       try_except (unlink path) (fun _ => mret tt)).

(** ** privexi/vault_manager.py *)

Record VaultManager : Type := mkVaultManager {
  _crypto : VaultCrypto;
  _index : Index
}.

(** A [VaultManager] method runs over the object and the world. *)
Record VMState : Type := mkVMState {
  vm_self : VaultManager;
  vm_world : World
}.

Definition in_world {A} (m : M World A) : M VMState A :=
  zoom vm_world (fun w s => mkVMState (vm_self s) w) m.

Definition set_index (f : Index -> Index) : M VMState unit :=
  modify_state (fun s =>
    mkVMState (mkVaultManager (_crypto (vm_self s)) (f (_index (vm_self s)))) (vm_world s)).

(** The dicts that [list_files] returns. *)
Record Listing : Type := mkListing {
  l_vault_id : string;
  l_original_name : string;
  l_added_at : Z;
  l_size_bytes : nat;
  l_sha256 : string
}.

(** [results.sort(key=lambda x: x["added_at"], reverse=True)]: Python's sort
    is stable, also when reversed. *)
Fixpoint insert_desc (x : Listing) (l : list Listing) : list Listing :=
  match l with
  | [] => [x]
  | y :: r => if (l_added_at x <? l_added_at y)%Z then y :: insert_desc x r else x :: l
  end.

Definition sort_added_at_desc (l : list Listing) : list Listing :=
  foldr insert_desc [] l.

(** The [while out_path.exists()] loop of [extract_file]; [fuel] bounds the
    number of renamings. *)
Fixpoint avoid_collision (fuel : nat) (fs : gmap string bytes)
    (destination_dir stem suffix out_path : string) (counter : nat) : string :=
  match fs !! out_path, fuel with
  | Some _, S fuel' =>
      avoid_collision fuel' fs destination_dir stem suffix
        (path_join destination_dir (stem ++ "_" ++ pretty counter ++ suffix)%string)
        (S counter)
  | _, _ => out_path
  end.

Section Vault.
Context {L : Platform}.

(** The reading of the clock as [f"{time.time()}"] prints it. *)
Definition show_time (t : Z) : string := pretty t.

Definition _load_index (crypto : VaultCrypto) : M World Index :=
  present ← path_exists VAULT_INDEX;
  if negb present then mret []
  else
    try_except
      (ciphertext ← read_bytes VAULT_INDEX;
       match decrypt_file crypto ciphertext with
       | None => print VaultIndexDecryptWarning ;; mret []
       | Some plaintext => lift_result (json_loads plaintext)
       end)
      (fun e => print (VaultIndexLoadError e) ;; mret []).

(** [ensure_vault_dir]:
    [VAULT_DIR.mkdir(mode=0o700, parents=True, exist_ok=True)].  [World]
    holds files, not directories.  In the application the directory is
    there before any manager is built: importing security_log, which
    main_window does, has made it with the same call on the same path, or
    has failed and the application with it; with exist_ok the call on a
    directory that exists changes nothing and does not raise.  A
    [VaultManager] built where the directory is missing is not what is
    embedded here. *)
Definition ensure_vault_dir : M World unit := mret tt.

(** [VaultManager(crypto)] *)
Definition new_VaultManager (crypto : VaultCrypto) : M World VaultManager :=
  ensure_vault_dir ;;
  index ← _load_index crypto;
  mret (mkVaultManager crypto index).

Definition _save_index : M VMState unit :=
  s ← get_state;
  let plaintext := json_dumps (_index (vm_self s)) in
  ciphertext ← in_world (encrypt_file (_crypto (vm_self s)) plaintext);
  in_world (write_bytes VAULT_INDEX ciphertext).

Definition add_file_body (source_path : string) (secure_wipe_original : bool)
  : M VMState bool :=
  plaintext ← in_world (read_bytes source_path);
  let sha := get_file_integrity_hash plaintext in
  s ← get_state;
  ciphertext ← in_world (encrypt_file (_crypto (vm_self s)) plaintext);
  t_stem ← in_world time_time;
  let vault_stem :=
    sha256_hex (encode (path_name source_path ++ show_time t_stem)%string) in
  let vault_path := path_join VAULT_DIR (vault_stem ++ ".enc")%string in
  in_world (write_bytes vault_path ciphertext) ;;
  let vault_id := str_take 16 vault_stem in
  t_added ← in_world time_time;
  set_index (dict_set vault_id
    {| original_name := path_name source_path;
       vault_file := path_name vault_path;
       added_at := t_added;
       size_bytes := length plaintext;
       sha256 := Some sha |}) ;;
  _save_index ;;
  (if secure_wipe_original then in_world (secure_delete source_path DEFAULT_PASSES)
   else mret tt) ;;
  mret true.

Definition add_file (source_path : string) (secure_wipe_original : bool)
  : M VMState bool :=
  try_except (add_file_body source_path secure_wipe_original)
             (fun e => in_world (print (VaultAddError e)) ;; mret false).

Fixpoint list_files_loop (items : Index) (results : list Listing)
  : M VMState (list Listing) :=
  match items with
  | [] => mret results
  | (vault_id, meta) :: rest =>
      present ← in_world (path_exists (path_join VAULT_DIR (vault_file meta)));
      list_files_loop rest
        (if present : bool then
           results ++ [ {| l_vault_id := vault_id;
                           l_original_name := original_name meta;
                           l_added_at := added_at meta;
                           l_size_bytes := size_bytes meta;
                           l_sha256 := default "" (sha256 meta) |} ]
         else results)
  end.

Definition list_files : M VMState (list Listing) :=
  s ← get_state;
  results ← list_files_loop (_index (vm_self s)) [];
  mret (sort_added_at_desc results).

Definition choose_out_path (destination_dir name : string) : M World string :=
  fun w =>
    let out_path := path_join destination_dir name in
    (Ok (avoid_collision (S (size (w_files w))) (w_files w) destination_dir
           (path_stem out_path) (path_suffix out_path) out_path 1), w).

Definition extract_file_body (crypto : VaultCrypto) (meta : Meta)
    (vault_path destination_dir : string) : M World (option string) :=
  ciphertext ← read_bytes vault_path;
  match decrypt_file crypto ciphertext with
  | None => print VaultDecryptionFailed ;; mret None
  | Some plaintext =>
      let actual_hash := get_file_integrity_hash plaintext in
      let expected_hash := default "" (sha256 meta) in
      if negb (bool_decide (expected_hash = "")) && negb (bool_decide (actual_hash = expected_hash))
      then print VaultIntegrityCheckFailed ;; mret None
      else
        out_path ← choose_out_path destination_dir (original_name meta);
        write_bytes out_path plaintext ;;
        mret (Some out_path)
  end.

Definition extract_file (vault_id destination_dir : string) : M VMState (option string) :=
  s ← get_state;
  match dict_get vault_id (_index (vm_self s)) with
  | None => in_world (print (VaultEntryNotFound vault_id)) ;; mret None
  | Some meta =>
      let vault_path := path_join VAULT_DIR (vault_file meta) in
      present ← in_world (path_exists vault_path);
      if negb present then
        in_world (print (VaultFileMissing vault_path)) ;; mret None
      else
        in_world
          (try_except
             (extract_file_body (_crypto (vm_self s)) meta vault_path destination_dir)
             (fun e => print (VaultExtractError e) ;; mret None))
  end.

Definition delete_file (vault_id : string) : M VMState bool :=
  s ← get_state;
  match dict_get vault_id (_index (vm_self s)) with
  | None => mret false
  | Some meta =>
      let vault_path := path_join VAULT_DIR (vault_file meta) in
      present ← in_world (path_exists vault_path);
      (if present : bool then in_world (secure_delete vault_path DEFAULT_PASSES)
       else mret tt) ;;
      set_index (dict_del vault_id) ;;
      _save_index ;;
      mret true
  end.

Definition lock : M VMState unit :=
  modify_state (fun s =>
    mkVMState (mkVaultManager (wipe (_crypto (vm_self s))) []) (vm_world s)).

End Vault.

(** ** privexi/security_log.py *)

Inductive log_level : Type := INFO | WARNING | ERROR.

Definition levelname (level : log_level) : string :=
  match level with
  | INFO => "INFO"
  | WARNING => "WARNING"
  | ERROR => "ERROR"
  end.

Definition newline : string := String (ascii_of_nat 10) "".

Section SecurityLog.
Context {L : Platform}.

Definition LOG_PATH : string :=
  path_join (path_join path_home ".secure_vault") "security.log".

(** [f"{event}" + (f" | {details}" if details else "")] *)
Definition log_message (event details : string) : string :=
  if decide (details = "") then event else (event ++ " | " ++ details)%string.

(** A record as [Formatter("%(asctime)s [%(levelname)s] %(message)s")]
    formats it, with the terminator the handler adds. *)
Definition format_record (created : Z) (level : log_level) (message : string) : bytes :=
  encode (asctime created ++ " [" ++ levelname level ++ "] " ++ message ++ newline)%string.

(** [_logger.info], [_logger.warning], [_logger.error]: the record is
    stamped with a reading of the clock and goes to the [FileHandler] that
    [setup_logger] opened on [LOG_PATH] in append mode when the module was
    imported.  An error of the write is caught by the handler
    ([Handler.handleError]) and does not reach the caller. *)
Definition logger_log (level : log_level) (message : string) : M World unit :=
  created ← time_time;
  try_except (io (IoAppend LOG_PATH (format_record created level message)))
             (fun _ => mret tt).

Definition log_event (event details : string) : M World unit :=
  logger_log INFO (log_message event details).

Definition log_warning (event details : string) : M World unit :=
  logger_log WARNING (log_message event details).

Definition log_failure (event details : string) : M World unit :=
  logger_log ERROR (log_message event details).

End SecurityLog.

(** ** privexi/ui/main_window.py *)

Definition MAX_FAILED_ATTEMPTS : nat := 5.
Definition AUTO_LOCK_SECONDS : N := 300.
Definition LOCKOUT_SECONDS : N := 30.
Definition PAGE_LOGIN : nat := 0.
Definition PAGE_VAULT : nat := 1.

(** The texts given to [LoginScreen.show_error]. *)
Inductive ui_error : Type :=
  | ErrTooManyFailures (seconds : N)
  | ErrUsbNotConnected
  | ErrWrongSecret (remaining : Z)
  | ErrLockedFor (seconds : N).

(** The records given to [log_event], [log_warning] and [log_failure]. *)
Inductive log_entry : Type :=
  | LogUsbConnected (path : string)
  | LogUsbRemoved
  | LogAuthFailure (attempt : nat)
  | LogAuthLockout (seconds : N)
  | LogAuthLockoutExpired
  | LogAuthSuccess
  | LogVaultLocked
  | LogAutoLock.

(** Which [return] of [_on_unlock_requested] was reached.  The method
    itself returns nothing; the label is what its caller can see on the
    login screen and in the fields. *)
Inductive unlock_outcome : Type :=
  | RejectedLockedOut
  | RejectedNoUsb
  | WrongSecret
  | WrongSecretLockout
  | Unlocked.

Record MainWindow : Type := mkMainWindow {
  _usb_path : option string;
  _vault_manager : option VaultManager;
  _failed_attempts : nat;
  _locked_out : bool;
  current_index : nat;              (* self._stack.currentIndex() *)
  login_error : option ui_error;    (* the error label of the login screen *)
  login_usb_status : bool;
  vault_files : list Listing;       (* what populate_files last received *)
  loop_time : N;                    (* milliseconds on the event loop's clock *)
  lockout_timers : list N;          (* deadlines of the pending singleShot timers *)
  _auto_lock_timer : option N;      (* its deadline while it is active *)
  security_log : list log_entry;
  mw_world : World
}.

Definition set_usb_path v (s : MainWindow) : MainWindow :=
  mkMainWindow v (_vault_manager s) (_failed_attempts s) (_locked_out s) (current_index s)
    (login_error s) (login_usb_status s) (vault_files s) (loop_time s) (lockout_timers s)
    (_auto_lock_timer s) (security_log s) (mw_world s).
Definition set_vault_manager v (s : MainWindow) : MainWindow :=
  mkMainWindow (_usb_path s) v (_failed_attempts s) (_locked_out s) (current_index s)
    (login_error s) (login_usb_status s) (vault_files s) (loop_time s) (lockout_timers s)
    (_auto_lock_timer s) (security_log s) (mw_world s).
Definition set_failed_attempts v (s : MainWindow) : MainWindow :=
  mkMainWindow (_usb_path s) (_vault_manager s) v (_locked_out s) (current_index s)
    (login_error s) (login_usb_status s) (vault_files s) (loop_time s) (lockout_timers s)
    (_auto_lock_timer s) (security_log s) (mw_world s).
Definition set_locked_out v (s : MainWindow) : MainWindow :=
  mkMainWindow (_usb_path s) (_vault_manager s) (_failed_attempts s) v (current_index s)
    (login_error s) (login_usb_status s) (vault_files s) (loop_time s) (lockout_timers s)
    (_auto_lock_timer s) (security_log s) (mw_world s).
Definition set_current_index v (s : MainWindow) : MainWindow :=
  mkMainWindow (_usb_path s) (_vault_manager s) (_failed_attempts s) (_locked_out s) v
    (login_error s) (login_usb_status s) (vault_files s) (loop_time s) (lockout_timers s)
    (_auto_lock_timer s) (security_log s) (mw_world s).
Definition set_login_error v (s : MainWindow) : MainWindow :=
  mkMainWindow (_usb_path s) (_vault_manager s) (_failed_attempts s) (_locked_out s)
    (current_index s) v (login_usb_status s) (vault_files s) (loop_time s)
    (lockout_timers s) (_auto_lock_timer s) (security_log s) (mw_world s).
Definition set_login_usb_status v (s : MainWindow) : MainWindow :=
  mkMainWindow (_usb_path s) (_vault_manager s) (_failed_attempts s) (_locked_out s)
    (current_index s) (login_error s) v (vault_files s) (loop_time s)
    (lockout_timers s) (_auto_lock_timer s) (security_log s) (mw_world s).
Definition set_vault_files v (s : MainWindow) : MainWindow :=
  mkMainWindow (_usb_path s) (_vault_manager s) (_failed_attempts s) (_locked_out s)
    (current_index s) (login_error s) (login_usb_status s) v (loop_time s)
    (lockout_timers s) (_auto_lock_timer s) (security_log s) (mw_world s).
Definition set_loop_time v (s : MainWindow) : MainWindow :=
  mkMainWindow (_usb_path s) (_vault_manager s) (_failed_attempts s) (_locked_out s)
    (current_index s) (login_error s) (login_usb_status s) (vault_files s) v
    (lockout_timers s) (_auto_lock_timer s) (security_log s) (mw_world s).
Definition set_lockout_timers v (s : MainWindow) : MainWindow :=
  mkMainWindow (_usb_path s) (_vault_manager s) (_failed_attempts s) (_locked_out s)
    (current_index s) (login_error s) (login_usb_status s) (vault_files s) (loop_time s)
    v (_auto_lock_timer s) (security_log s) (mw_world s).
Definition set_auto_lock_timer v (s : MainWindow) : MainWindow :=
  mkMainWindow (_usb_path s) (_vault_manager s) (_failed_attempts s) (_locked_out s)
    (current_index s) (login_error s) (login_usb_status s) (vault_files s) (loop_time s)
    (lockout_timers s) v (security_log s) (mw_world s).
Definition set_security_log v (s : MainWindow) : MainWindow :=
  mkMainWindow (_usb_path s) (_vault_manager s) (_failed_attempts s) (_locked_out s)
    (current_index s) (login_error s) (login_usb_status s) (vault_files s) (loop_time s)
    (lockout_timers s) (_auto_lock_timer s) v (mw_world s).
Definition set_world v (s : MainWindow) : MainWindow :=
  mkMainWindow (_usb_path s) (_vault_manager s) (_failed_attempts s) (_locked_out s)
    (current_index s) (login_error s) (login_usb_status s) (vault_files s) (loop_time s)
    (lockout_timers s) (_auto_lock_timer s) (security_log s) v.

Definition in_mw_world {A} (m : M World A) : M MainWindow A :=
  zoom mw_world set_world m.

(** [if self._vault_manager: self._vault_manager.method(...)] *)
Definition with_vault_manager {A} (m : M VMState A) : M MainWindow (option A) := fun s =>
  match _vault_manager s with
  | None => (Ok None, s)
  | Some vm =>
      let '(r, vs) := m (mkVMState vm (mw_world s)) in
      (match r with Ok a => Ok (Some a) | Raise e => Raise e end,
       set_world (vm_world vs) (set_vault_manager (Some (vm_self vs)) s))
  end.

(** The call of security_log that each record stands for. *)
Definition log_call {L : Platform} (e : log_entry) : M World unit :=
  match e with
  | LogUsbConnected path => log_event "USB_CONNECTED" ("path=" ++ path)%string
  | LogUsbRemoved => log_warning "USB_REMOVED" "Auto-locking vault"
  | LogAuthFailure attempt => log_failure "AUTH_FAILURE" ("attempt=" ++ pretty attempt)%string
  | LogAuthLockout seconds =>
      log_failure "AUTH_LOCKOUT" ("duration=" ++ pretty seconds ++ "s")%string
  | LogAuthLockoutExpired => log_event "AUTH_LOCKOUT_EXPIRED" ""
  | LogAuthSuccess => log_event "AUTH_SUCCESS" ""
  | LogVaultLocked => log_event "VAULT_LOCKED" ""
  | LogAutoLock => log_event "AUTO_LOCK" ""
  end.

(** A call of [log_event], [log_warning] or [log_failure] in a handler: the
    record is kept in [security_log], in the order of the calls, and
    written to the log file. *)
Definition log {L : Platform} (e : log_entry) : M MainWindow unit :=
  modify_state (fun s => set_security_log (security_log s ++ [e]) s) ;;
  in_mw_world (log_call e).

(** The events the window reacts to: the signal of the login screen, the
    passing of time on the event loop (due timers fire when it is
    observed), the callbacks of the USB monitor and the lock button.  The
    requests of the vault screen to add, extract or delete a file go to
    the vault manager and leave the fields of authentication alone; they
    are not among the events. *)
Inductive event : Type :=
  | EvUnlockRequested (secret : string) (is_recovery : bool)
  | EvElapse (ms : N)
  | EvUsbConnected (path : string)
  | EvUsbDisconnected
  | EvLockRequested.

(** The fields as [__init__] leaves them: no USB key seen yet, no vault
    manager, the login page shown, no timer running. *)
Definition initial_window (w : World) : MainWindow :=
  {| _usb_path := None;
     _vault_manager := None;
     _failed_attempts := 0;
     _locked_out := false;
     current_index := PAGE_LOGIN;
     login_error := None;
     login_usb_status := false;
     vault_files := [];
     loop_time := 0;
     lockout_timers := [];
     _auto_lock_timer := None;
     security_log := [];
     mw_world := w |}.

Section Session.
Context {L : Platform}.

Definition _refresh_file_list : M MainWindow unit :=
  listing ← with_vault_manager list_files;
  match listing with
  | Some files => modify_state (set_vault_files files)
  | None => mret tt
  end.

Definition _switch_to_vault : M MainWindow unit :=
  _refresh_file_list ;;
  modify_state (set_current_index PAGE_VAULT) ;;
  modify_state (fun s => set_auto_lock_timer (Some (loop_time s + AUTO_LOCK_SECONDS * 1000)%N) s).

Definition _lock_vault : M MainWindow unit :=
  modify_state (set_auto_lock_timer None) ;;
  with_vault_manager lock ;;
  modify_state (set_vault_manager None) ;;
  log LogVaultLocked ;;
  modify_state (set_current_index PAGE_LOGIN) ;;
  modify_state (fun s => set_login_usb_status (bool_decide (is_Some (_usb_path s))) s).

Definition _auto_lock : M MainWindow unit :=
  log LogAutoLock ;; _lock_vault.

Definition _on_usb_connected (path : string) : M MainWindow unit :=
  modify_state (set_usb_path (Some path)) ;;
  log (LogUsbConnected path) ;;
  modify_state (set_login_usb_status true).

Definition _on_usb_disconnected : M MainWindow unit :=
  log LogUsbRemoved ;;
  modify_state (set_usb_path None) ;;
  modify_state (set_login_usb_status false) ;;
  s ← get_state;
  if decide (current_index s = PAGE_VAULT) then _lock_vault else mret tt.

Definition _trigger_lockout : M MainWindow unit :=
  modify_state (set_locked_out true) ;;
  log (LogAuthLockout LOCKOUT_SECONDS) ;;
  modify_state (set_login_error (Some (ErrLockedFor LOCKOUT_SECONDS))) ;;
  modify_state (fun s =>
    set_lockout_timers (lockout_timers s ++ [(loop_time s + LOCKOUT_SECONDS * 1000)%N]) s).

Definition _end_lockout : M MainWindow unit :=
  modify_state (set_locked_out false) ;;
  modify_state (set_failed_attempts 0) ;;
  modify_state (set_login_error None) ;;
  log LogAuthLockoutExpired.

(** [if not master_key]: [None] and the empty bytearray are false. *)
Definition truthy (master_key : option bytes) : option bytes :=
  match master_key with
  | Some (b :: r) => Some (b :: r)
  | _ => None
  end.

(** The bytearray that is zeroed after the cipher was built is a local of
    the method; the cipher holds its own copy of the key. *)
Definition _on_unlock_requested (secret : string) (is_recovery : bool)
  : M MainWindow unlock_outcome :=
  s ← get_state;
  if _locked_out s then
    modify_state (set_login_error (Some (ErrTooManyFailures LOCKOUT_SECONDS))) ;;
    mret RejectedLockedOut
  else
    match _usb_path s with
    | None =>
        modify_state (set_login_error (Some ErrUsbNotConnected)) ;;
        mret RejectedNoUsb
    | Some usb =>
        master_key ← in_mw_world (load_usb_key usb (strip secret) is_recovery);
        match truthy master_key with
        | None =>
            modify_state (fun s => set_failed_attempts (_failed_attempts s + 1) s) ;;
            s ← get_state;
            let remaining := (Z.of_nat MAX_FAILED_ATTEMPTS - Z.of_nat (_failed_attempts s))%Z in
            log (LogAuthFailure (_failed_attempts s)) ;;
            if decide (MAX_FAILED_ATTEMPTS <= _failed_attempts s) then
              _trigger_lockout ;; mret WrongSecretLockout
            else
              modify_state (set_login_error (Some (ErrWrongSecret remaining))) ;;
              mret WrongSecret
        | Some key =>
            modify_state (set_failed_attempts 0) ;;
            modify_state (set_locked_out false) ;;
            modify_state (set_login_error None) ;;
            log LogAuthSuccess ;;
            crypto ← lift_result (new_VaultCrypto key);
            vm ← in_mw_world (new_VaultManager crypto);
            modify_state (set_vault_manager (Some vm)) ;;
            _switch_to_vault ;;
            mret Unlocked
        end
    end.

(** Time passes on the event loop: the single-shot lockout timers that
    are due call [_end_lockout], then the auto-lock timer, if due, calls
    [_auto_lock].  Timers are taken to fire exactly at their deadline. *)
Definition elapse (ms : N) : M MainWindow unit :=
  modify_state (fun s => set_loop_time (loop_time s + ms)%N s) ;;
  s ← get_state;
  let due := filter (fun d => (d <= loop_time s)%N) (lockout_timers s) in
  modify_state (set_lockout_timers
    (filter (fun d => ¬ (d <= loop_time s)%N) (lockout_timers s))) ;;
  for_each due (fun _ => _end_lockout) ;;
  match _auto_lock_timer s with
  | Some d =>
      if decide (d <= loop_time s)%N then
        modify_state (set_auto_lock_timer None) ;; _auto_lock
      else mret tt
  | None => mret tt
  end.

Definition handle (ev : event) : M MainWindow unit :=
  match ev with
  | EvUnlockRequested secret is_recovery =>
      _on_unlock_requested secret is_recovery ;; mret tt
  | EvElapse ms => elapse ms
  | EvUsbConnected path => _on_usb_connected path
  | EvUsbDisconnected => _on_usb_disconnected
  | EvLockRequested => _lock_vault
  end.

Definition run (evs : list event) : M MainWindow unit := for_each evs handle.


(** Events other than an unlock request, and unlock requests that are
    turned away before the secret is looked at because no USB key is
    connected: they leave the count of failures alone. *)
Definition neutral_step (ev : event) (s s' : MainWindow) : Prop :=
  match ev with
  | EvUnlockRequested secret is_recovery =>
      _on_unlock_requested secret is_recovery s = (Ok RejectedNoUsb, s')
  | _ => handle ev s = (Ok tt, s')
  end.

(** The states the window goes through in its runs. *)
Definition reachable (s : MainWindow) : Prop :=
  exists w evs, run evs (initial_window w) = (Ok tt, s).

(** [consecutive_failures n s0 s]: from a state [s0] of a run in which the
    count of failures is zero, [n] unlock attempts failed on their secret
    and none succeeded; the last thing that happened, when [n] is 5, is
    the fifth failure. *)
Inductive consecutive_failures : nat -> MainWindow -> MainWindow -> Prop :=
  | cf_start s0 :
      reachable s0 -> _failed_attempts s0 = 0 ->
      consecutive_failures 0 s0 s0
  | cf_failure n s0 s s' secret is_recovery o :
      consecutive_failures n s0 s ->
      _on_unlock_requested secret is_recovery s = (Ok o, s') ->
      o = WrongSecret \/ o = WrongSecretLockout ->
      consecutive_failures (S n) s0 s'
  | cf_neutral n s0 s s' ev :
      consecutive_failures n s0 s ->
      n < MAX_FAILED_ATTEMPTS ->
      neutral_step ev s s' ->
      consecutive_failures n s0 s'.

End Session.

(** ** A small instance of the interface

    It runs the embedding on concrete inputs.  The cipher prepends a
    16-byte tag computed from key, nonce and associated data; the digest
    of a byte string is that byte string read as text; an index is
    serialized as the list of its vault ids; the time stamp of a log
    record is the reading of the clock in decimal. *)

Definition sample_tag (key nonce aad : bytes) : bytes :=
  take 16 (key ++ nonce ++ aad ++ replicate 16 x00).

#[global] Instance sample_platform : Platform := {|
  path_home := "/home/u";
  pbkdf2_hmac_sha256 := fun _ len salt password =>
    take len (password ++ salt ++ replicate len x00);
  aesgcm_encrypt := fun key nonce data aad =>
    if decide (length key = 32) then Ok (sample_tag key nonce aad ++ data)
    else Raise ValueError;
  aesgcm_decrypt := fun key nonce ct aad =>
    if decide (take 16 ct = sample_tag key nonce aad) then Ok (drop 16 ct)
    else Raise InvalidTag;
  fernet_encrypt := fun key now iv data => take 16 key ++ data;
  fernet_decrypt := fun key token =>
    if decide (take 16 token = take 16 key) then Ok (drop 16 token)
    else Raise InvalidToken;
  sha256_hex := string_of_list_byte;
  json_dumps := fun index => encode (String.concat "," (map fst index));
  json_loads := fun _ => Ok [];
  asctime := fun created => pretty created
|}.

Definition sample_entropy (n : nat) : Byte.byte :=
  nth (n mod 16)
      [x3c; xa7; x01; xf0; x5e; x99; x12; xc4; x6b; x08; xd3; x7f; x2a; xb5; x40; xee] x00.

(** An empty disk, no I/O faults, a clock that ticks once per reading. *)
Definition sample_world : World :=
  mkWorld ∅ [] [] [] sample_entropy 0 (fun n => Z.of_nat n + 1700000000)%Z 0.

(** The world after enrolling the password "correcthorsebattery" on the
    device mounted at /media/usb. *)
Definition sample_enrolled : World :=
  snd (create_usb_key "/media/usb" "correcthorsebattery" sample_world).

(** ** Vocabulary of the statements *)

(** The master key that [create_usb_key] draws: the fourth draw, after the
    two salts and the nonce. *)
Definition master_key_drawn (w : World) : bytes :=
  map (w_entropy w) (seq (w_drawn w + SALT_SIZE + SALT_SIZE + NONCE_SIZE) AES_KEY_SIZE).

(** The fields [load_usb_key] cuts out of a key blob. *)
Definition blob_salt (data : bytes) (is_recovery : bool) : bytes :=
  if is_recovery then slice (1 + SALT_SIZE) (1 + SALT_SIZE + SALT_SIZE) data
  else slice 1 (1 + SALT_SIZE) data.

Definition blob_nonce (data : bytes) : bytes :=
  slice (1 + SALT_SIZE + SALT_SIZE) (1 + SALT_SIZE + SALT_SIZE + NONCE_SIZE) data.

Definition blob_ciphertext (data : bytes) (is_recovery : bool) : bytes :=
  let off := 1 + SALT_SIZE + SALT_SIZE + NONCE_SIZE in
  let ct_len := from_bytes_big (slice off (off + 2) data) in
  if is_recovery then drop (off + 2 + ct_len) data
  else slice (off + 2) (off + 2 + ct_len) data.

(** The decryption [load_usb_key] attempts on a blob. *)
Definition blob_decrypt {L : Platform} (secret : string) (is_recovery : bool)
    (data : bytes) : result bytes :=
  aesgcm_decrypt (derive_key secret (blob_salt data is_recovery)) (blob_nonce data)
    (blob_ciphertext data is_recovery) (blob_salt data is_recovery).

(** The causes for which opening the key envelope fails. *)
Inductive open_fails {L : Platform} (usb_path secret : string) (is_recovery : bool)
    (w : World) : Prop :=
  | cause_missing_file :
      w_files w !! path_join usb_path KEY_FILE_NAME = None ->
      open_fails usb_path secret is_recovery w
  | cause_unreadable data :
      w_files w !! path_join usb_path KEY_FILE_NAME = Some data ->
      default false (head (w_faults w)) = true ->
      open_fails usb_path secret is_recovery w
  | cause_blob_version data :
      w_files w !! path_join usb_path KEY_FILE_NAME = Some data ->
      slice 0 1 data <> VERSION ->
      open_fails usb_path secret is_recovery w
  | cause_decryption data e :
      w_files w !! path_join usb_path KEY_FILE_NAME = Some data ->
      blob_decrypt secret is_recovery data = Raise e ->
      open_fails usb_path secret is_recovery w
  | cause_payload_version data payload :
      w_files w !! path_join usb_path KEY_FILE_NAME = Some data ->
      blob_decrypt secret is_recovery data = Ok payload ->
      startswith VERSION payload = false ->
      open_fails usb_path secret is_recovery w.

(** The [i]-th block of [size] random bytes drawn from [w] on. *)
Definition nth_draw (w : World) (size i : nat) : bytes :=
  map (w_entropy w) (seq (w_drawn w + i * size) size).

(** The calls of one successful overwriting pass that writes [data]. *)
Definition pass_calls (path : string) (data : bytes) : list (io_call * bool) :=
  [(IoSeek path 0, true); (IoWrite path 0 data, true);
   (IoFlush path, true); (IoFsync path, true)].

(** A disk with one plaintext file, for running the secure erase. *)
Definition sample_disk : World :=
  mkWorld {[ "/tmp/note.txt" := [x68; x65; x6c; x6c; x6f] ]} [] [] []
          sample_entropy 0 (fun n => Z.of_nat n + 1700000000)%Z 0.

(** The path an I/O call acts on. *)
Definition call_path (c : io_call) : string :=
  match c with
  | IoStat p | IoOpen p _ | IoSeek p _ | IoWrite p _ _ | IoFlush p | IoFsync p
  | IoClose p | IoUnlink p | IoReadBytes p | IoAppend p _ => p
  end.

(** What an atomic replacement of the index file would guarantee between
    the state [s] before a save and the state [s'] after it, also when the
    save failed: the file is the old one, or it is a whole token of the
    new index. *)
Definition index_file_intact {L : Platform} (s s' : VMState) : Prop :=
  w_files (vm_world s') !! VAULT_INDEX = w_files (vm_world s) !! VAULT_INDEX \/
  exists key token,
    _fernet (_crypto (vm_self s)) = Some key /\
    w_files (vm_world s') !! VAULT_INDEX = Some token /\
    fernet_decrypt key token = Ok (json_dumps (_index (vm_self s))).

Definition sample_key : bytes := replicate 32 x4b.

Definition sample_meta : Meta :=
  {| original_name := "note.txt";
     vault_file := "aa11.enc";
     added_at := 1700000000;
     size_bytes := 5;
     sha256 := Some "hello" |}.

(** An open vault whose index file holds an earlier token; the second I/O
    call from now on fails. *)
Definition sample_vault_write_fails : VMState :=
  mkVMState
    (mkVaultManager (mkVaultCrypto (Some sample_key)) [("aa11", sample_meta)])
    (mkWorld {[ "/home/u/.secure_vault/.vault_index" := replicate 16 x4b ++ [x7b; x7d] ]}
             [false; true] [] [] sample_entropy 0 (fun n => Z.of_nat n + 1700000000)%Z 0).

(** The same vault with no I/O failure ahead. *)
Definition sample_vault : VMState :=
  mkVMState (vm_self sample_vault_write_fails)
    (mkWorld (w_files (vm_world sample_vault_write_fails)) [] [] []
             sample_entropy 0 (fun n => Z.of_nat n + 1700000000)%Z 0).

(** The name tried at the [counter]-th renaming of an extracted file. *)
Definition renamed (destination_dir stem suffix : string) (counter : nat) : string :=
  path_join destination_dir (stem ++ "_" ++ pretty counter ++ suffix)%string.

(** An open vault with one entry [meta] under the id "aa11" whose backing
    file holds [stored_bytes]; no I/O failure ahead. *)
Definition sample_vault_with (meta : Meta) (stored_bytes : bytes) : VMState :=
  mkVMState
    (mkVaultManager (mkVaultCrypto (Some sample_key)) [("aa11", meta)])
    (mkWorld {[ "/home/u/.secure_vault/aa11.enc" := stored_bytes ]} [] [] []
             sample_entropy 0 (fun n => Z.of_nat n + 1700000000)%Z 0).

(** A token of the text "hullo", while the index records the digest of
    "hello". *)
Definition sample_vault_tampered : VMState :=
  sample_vault_with sample_meta (replicate 16 x4b ++ [x68; x75; x6c; x6c; x6f]).

(** Bytes that are no token of the vault's key. *)
Definition sample_vault_corrupt : VMState :=
  sample_vault_with sample_meta [x00; x01; x02].

(** The same token as in [sample_vault_tampered], under an entry whose
    "sha256" is the empty string. *)
Definition sample_vault_blank_hash : VMState :=
  sample_vault_with
    {| original_name := "note.txt"; vault_file := "aa11.enc";
       added_at := 1700000000; size_bytes := 5; sha256 := Some "" |}
    (replicate 16 x4b ++ [x68; x75; x6c; x6c; x6f]).

(** An open, empty vault next to two different files that are both named
    note.txt; every reading of the clock gives the same time. *)
Definition sample_vault_two_notes : VMState :=
  mkVMState
    (mkVaultManager (mkVaultCrypto (Some sample_key)) [])
    (mkWorld {[ "/a/note.txt" := [x66; x69; x72; x73; x74];
                "/b/note.txt" := [x73; x65; x63; x6f; x6e; x64; x21] ]}
             [] [] [] sample_entropy 0 (fun _ => 1700000000%Z) 0).

(** The vault after [/a/note.txt] was added. *)
Definition sample_vault_one_added : VMState :=
  snd (add_file "/a/note.txt" false sample_vault_two_notes).

(** The dict [list_files] builds for an index entry. *)
Definition listing_of (vault_id : string) (meta : Meta) : Listing :=
  {| l_vault_id := vault_id;
     l_original_name := original_name meta;
     l_added_at := added_at meta;
     l_size_bytes := size_bytes meta;
     l_sha256 := default "" (sha256 meta) |}.

(** Whether the backing ciphertext file of an entry exists. *)
Definition backed {L : Platform} (w : World) (meta : Meta) : bool :=
  bool_decide (is_Some (w_files w !! path_join VAULT_DIR (vault_file meta))).

(** The entries of the index whose backing file exists, in index order. *)
Definition backed_entries {L : Platform} (s : VMState) : list Listing :=
  map (fun e => listing_of e.1 e.2)
      (List.filter (fun e => backed (vm_world s) e.2) (_index (vm_self s))).

(** Most recently added first. *)
Definition newer_first (a b : Listing) : Prop := (l_added_at b <= l_added_at a)%Z.

(** The world after the record [e] was handed to the logger. *)
Definition logged {L : Platform} (e : log_entry) (w : World) : World :=
  snd (log_call e w).
Arguments logged : simpl never.

(** Nothing happened to the world but the logging of records: every file
    but the security log is as it was, nothing was printed, no random
    byte was drawn, and the only I/O calls made are appends to the
    security log, so no key file was read. *)
Definition log_only {L : Platform} (w w' : World) : Prop :=
  (forall q, q <> LOG_PATH -> w_files w' !! q = w_files w !! q) /\
  w_stdout w' = w_stdout w /\
  w_entropy w' = w_entropy w /\ w_drawn w' = w_drawn w /\
  exists calls,
    w_trace w' = w_trace w ++ calls /\
    Forall (fun c => exists record, c.1 = IoAppend LOG_PATH record) calls.




(** The window once the enrolled device was seen. *)
Definition sample_window : MainWindow :=
  snd (run [EvUsbConnected "/media/usb"] (initial_window sample_enrolled)).


(** An open vault with three entries, the second of which lost its backing
    file; the first and the third were added at the same time. *)
Definition sample_vault_three : VMState :=
  mkVMState
    (mkVaultManager (mkVaultCrypto (Some sample_key))
       [("aa11", mkMeta "a.txt" "aa11.enc" 1700000005 1 (Some "a"));
        ("bb22", mkMeta "b.txt" "bb22.enc" 1700000009 2 (Some "b"));
        ("cc33", mkMeta "c.txt" "cc33.enc" 1700000005 3 None);
        ("dd44", mkMeta "d.txt" "dd44.enc" 1700000007 4 (Some "d"))])
    (mkWorld {[ "/home/u/.secure_vault/aa11.enc" := [x00];
                "/home/u/.secure_vault/cc33.enc" := [x00];
                "/home/u/.secure_vault/dd44.enc" := [x00] ]}
             [] [] [] sample_entropy 0 (fun n => Z.of_nat n + 1700000000)%Z 0).

(** Enrollment with a password that ends in a space, as the setup dialog
    hands it to [create_usb_key]: the dialog takes the text of the
    password field as it is typed. *)
Definition sample_enrolled_padded : World :=
  snd (create_usb_key "/media/usb" "correcthorse " sample_world).

(** The window once that device was seen. *)
Definition sample_window_padded : MainWindow :=
  snd (run [EvUsbConnected "/media/usb"] (initial_window sample_enrolled_padded)).

(** That window after [n] unlock requests with a wrong password. *)
Fixpoint sample_padded_after_failures (n : nat) : MainWindow :=
  match n with
  | O => sample_window_padded
  | S n' => snd (_on_unlock_requested "guess" false (sample_padded_after_failures n'))
  end.

(** ** Further laws of the library primitives *)


(** ** privexi/usb_monitor.py *)

(** [find_usb_with_key], over the drives that [_get_removable_drives]
    returned; the enumeration itself is platform code. *)
Fixpoint find_usb_with_key (candidates : list string) : M World (option string) :=
  match candidates with
  | [] => mret None
  | drive :: rest =>
      let key_path_legacy := path_join drive KEY_FILE_NAME in
      let key_path_hidden := path_join drive KEY_FILE_NAME in
      hidden ← path_exists key_path_hidden;
      found ← (if hidden : bool then mret true else path_exists key_path_legacy);
      if found : bool then mret (Some drive) else find_usb_with_key rest
  end.

(** The callbacks of [USBMonitor]. *)
Inductive callback : Type :=
  | OnConnected (path : string)
  | OnDisconnected.

(** One turn of the loop of [USBMonitor.run], given what
    [find_usb_with_key] returned: the new [_current_usb] and the callback
    made, if any. *)
Definition monitor_turn (usb _current_usb : option string)
  : option string * list callback :=
  match usb with
  | Some path =>
      if decide (usb <> _current_usb) then (usb, [OnConnected path])
      else (_current_usb, [])
  | None =>
      match _current_usb with
      | Some _ => (None, [OnDisconnected])
      | None => (_current_usb, [])
      end
  end.

(** The loop over the results of successive scans: the final
    [_current_usb] and the callbacks made, oldest first. *)
Fixpoint monitor_run (scans : list (option string)) (_current_usb : option string)
  : option string * list callback :=
  match scans with
  | [] => (_current_usb, [])
  | usb :: rest =>
      let '(current, made) := monitor_turn usb _current_usb in
      let '(final, later) := monitor_run rest current in
      (final, made ++ later)
  end.

(** ** privexi/encryption.py: recovery codes in base32 *)

Definition b32_alphabet : string := "ABCDEFGHIJKLMNOPQRSTUVWXYZ234567".

Definition b32_char (n : N) : ascii :=
  match String.get (N.to_nat n) b32_alphabet with
  | Some c => c
  | None => "A"%char
  end.

(** The [count] base-32 digits of [n], most significant first. *)
Fixpoint b32_digits (count : nat) (n : N) (tail : string) : string :=
  match count with
  | O => tail
  | S count' => b32_digits count' (n / 32) (String (b32_char (n mod 32)) tail)
  end.

(** [base64.b32encode(raw).decode().replace("=", "")]: five bytes give
    eight characters; a last group of 1, 2, 3 or 4 bytes gives 2, 4, 5 or
    7 characters, its bits padded with zeros on the right. *)
Fixpoint b32_nopad (b : bytes) : string :=
  match b with
  | b0 :: b1 :: b2 :: b3 :: b4 :: r =>
      b32_digits 8 (Byte.to_N b0 * 4294967296 + Byte.to_N b1 * 16777216
                    + Byte.to_N b2 * 65536 + Byte.to_N b3 * 256 + Byte.to_N b4)
                 (b32_nopad r)
  | [b0; b1; b2; b3] =>
      b32_digits 7 ((Byte.to_N b0 * 16777216 + Byte.to_N b1 * 65536
                     + Byte.to_N b2 * 256 + Byte.to_N b3) * 8) ""
  | [b0; b1; b2] =>
      b32_digits 5 ((Byte.to_N b0 * 65536 + Byte.to_N b1 * 256 + Byte.to_N b2) * 2) ""
  | [b0; b1] => b32_digits 4 ((Byte.to_N b0 * 256 + Byte.to_N b1) * 16) ""
  | [b0] => b32_digits 2 (Byte.to_N b0 * 4) ""
  | [] => ""
  end.

Definition generate_recovery_code : M World string :=
  raw ← token_bytes 16;
  mret (b32_nopad raw).

(** ** privexi/ui/main_window.py: polling and file operations *)

Section SessionMore.
Context {L : Platform}.


Definition _reset_auto_lock_timer : M MainWindow unit :=
  s ← get_state;
  if decide (current_index s = PAGE_VAULT) then
    modify_state (set_auto_lock_timer (Some (loop_time s + AUTO_LOCK_SECONDS * 1000)%N))
  else mret tt.

Definition _on_add_file (path : string) : M MainWindow unit :=
  _reset_auto_lock_timer ;;
  added ← with_vault_manager (add_file path true);
  match added with
  | Some true => _refresh_file_list
  | _ => mret tt
  end.

Definition _on_extract_file (vault_id dest : string) : M MainWindow unit :=
  _reset_auto_lock_timer ;;
  with_vault_manager (extract_file vault_id dest) ;;
  mret tt.

Definition _on_delete_file (vault_id : string) : M MainWindow unit :=
  _reset_auto_lock_timer ;;
  deleted ← with_vault_manager (delete_file vault_id);
  match deleted with
  | Some true => _refresh_file_list
  | _ => mret tt
  end.

End SessionMore.

(** ** Vocabulary of the further statements *)

(** The characters of a recovery code made by [create_usb_key]: capitals,
    digits, hyphen and underscore. *)
Definition is_code_char (c : ascii) : bool :=
  let n := nat_of_ascii c in
  (((65 <=? n) && (n <=? 90)) || ((48 <=? n) && (n <=? 57))
   || (n =? 45) || (n =? 95))%nat.

(** The characters of base32: capitals and the digits 2 to 7. *)
Definition is_b32_char (c : ascii) : bool :=
  let n := nat_of_ascii c in
  (((65 <=? n) && (n <=? 90)) || ((50 <=? n) && (n <=? 55)))%nat.

Fixpoint string_forallb (p : ascii -> bool) (s : string) : bool :=
  match s with
  | EmptyString => true
  | String c r => p c && string_forallb p r
  end.

(** No slash occurs in the string. *)
Definition no_slash (s : string) : bool :=
  string_forallb (fun c => negb (bool_decide (c = "/"%char))) s.

(** The vault ids of an index. *)
Definition vault_ids (index : Index) : list string := map fst index.

(** ** Frames: what a computation leaves of the files

    [respects proj R m]: whatever [m] returns or raises, the world before
    and the world after are related by [R]. *)
Definition respects {St A} (proj : St -> World) (R : relation World) (m : M St A) : Prop :=
  forall s r s', m s = (r, s') -> R (proj s) (proj s').

(** A relation that looks at the files only, and is a preorder. *)
Class FileFrame (R : relation World) : Prop := {
  frame_files : forall w w', w_files w' = w_files w -> R w w';
  frame_trans : forall w1 w2 w3, R w1 w2 -> R w2 w3 -> R w1 w3
}.

(** No file has changed. *)
Definition files_same : relation World := fun w w' => w_files w' = w_files w.

(** No file but [p] has changed. *)
Definition others_same (p : string) : relation World :=
  fun w w' => forall q, q <> p -> w_files w' !! q = w_files w !! q.

(** No file but those among [ps] has changed. *)
Definition only_changed (ps : list string) : relation World :=
  fun w w' => forall q, q ∉ ps -> w_files w' !! q = w_files w !! q.

(** Every file that existed is still there with its content. *)
Definition files_kept : relation World :=
  fun w w' => forall q c, w_files w !! q = Some c -> w_files w' !! q = Some c.

(** [preserves f m]: whatever [m] returns or raises, [f] of the state is
    the same before and after. *)
Definition preserves {St A T} (f : St -> T) (m : M St A) : Prop :=
  forall s r s', m s = (r, s') -> f s' = f s.

(** [m] never lets an exception out. *)
Definition never_raises {St A} (m : M St A) : Prop :=
  forall s, exists a s', m s = (Ok a, s').

(** ** privexi/vault_manager.py: names given to what [add_file] derives *)

Section VaultMore.
Context {L : Platform}.

Definition file_count (self : VaultManager) : nat := length (_index self).

(** The stem of the storage file [add_file] makes for [source_path] in the
    world [w]: the clock is read once by the cipher before it is read for
    the name. *)
Definition added_stem (source_path : string) (w : World) : string :=
  sha256_hex (encode (path_name source_path ++ show_time (w_clock w (S (w_reads w))))%string).

Definition added_path (source_path : string) (w : World) : string :=
  path_join VAULT_DIR (added_stem source_path w ++ ".enc")%string.

Definition added_id (source_path : string) (w : World) : string :=
  str_take 16 (added_stem source_path w).

(** [delete_file] once the entry was found. *)
Definition delete_found (vault_id : string) (meta : Meta) : M VMState bool :=
  let vault_path := path_join VAULT_DIR (vault_file meta) in
  present ← in_world (path_exists vault_path);
  (if present : bool then in_world (secure_delete vault_path DEFAULT_PASSES)
   else mret tt) ;;
  set_index (dict_del vault_id) ;;
  _save_index ;;
  mret true.

End VaultMore.

(** ** Vocabulary for the USB monitor *)

(** Whether the key file is on [drive]. *)
Definition holds_key (w : World) (drive : string) : bool :=
  bool_decide (is_Some (w_files w !! path_join drive KEY_FILE_NAME)).

(** Every callback reports a change: starting with [current] connected,
    a disconnection is reported only while a drive is connected, and a
    connection only for a drive other than the connected one. *)
Fixpoint reports_changes (current : option string) (made : list callback) : bool :=
  match made with
  | [] => true
  | OnConnected path :: rest =>
      negb (bool_decide (current = Some path)) && reports_changes (Some path) rest
  | OnDisconnected :: rest =>
      bool_decide (is_Some current) && reports_changes None rest
  end.

(** ** Vocabulary for the session *)

Definition AUTO_LOCK_MS : N := AUTO_LOCK_SECONDS * 1000.

(** The vault is guarded: either the login page is shown, no vault
    manager is held and the auto-lock timer is idle, or the vault page is
    shown, a vault manager is held, a USB key is connected and the
    auto-lock timer is armed, due in at most 300 seconds. *)
Definition vault_guarded (s : MainWindow) : Prop :=
  (current_index s = PAGE_LOGIN /\ _vault_manager s = None /\ _auto_lock_timer s = None) \/
  (current_index s = PAGE_VAULT /\ is_Some (_vault_manager s) /\ is_Some (_usb_path s) /\
   exists deadline,
     _auto_lock_timer s = Some deadline /\
     (loop_time s < deadline)%N /\ (deadline <= loop_time s + AUTO_LOCK_MS)%N).

(** The fields a request of the vault screen has no business with. *)
Definition session_fields (s : MainWindow)
  : option string * nat * bool * list N * N * nat * option ui_error :=
  (_usb_path s, _failed_attempts s, _locked_out s, lockout_timers s, loop_time s,
   current_index s, login_error s).

(** The requests of the vault screen, as [__init__] connects them. *)
Inductive file_request : Type :=
  | AddFileRequested (path : string)
  | ExtractFileRequested (vault_id dest : string)
  | DeleteFileRequested (vault_id : string).

Definition handle_file_request {L : Platform} (req : file_request) : M MainWindow unit :=
  match req with
  | AddFileRequested path => _on_add_file path
  | ExtractFileRequested vault_id dest => _on_extract_file vault_id dest
  | DeleteFileRequested vault_id => _on_delete_file vault_id
  end.

(** The window with the vault open: the device was seen and the password
    of enrollment was given. *)
Definition sample_open_window : MainWindow :=
  snd (run [EvUsbConnected "/media/usb"; EvUnlockRequested "correcthorsebattery" false]
           (initial_window sample_enrolled)).

(** What the guard looks at. *)
Definition guard_fields (s : MainWindow)
  : nat * option VaultManager * option N * option string * N :=
  (current_index s, _vault_manager s, _auto_lock_timer s, _usb_path s, loop_time s).

(** * Properties *)

(** ** The models of the library functions on concrete inputs *)

Example slice_clips : slice 1 3 [x0a; x0b; x0c; x0d] = [x0b; x0c] /\
                      slice 2 9 [x0a; x0b; x0c; x0d] = [x0c; x0d] /\
                      slice 5 7 [x0a; x0b; x0c; x0d] = [].
Proof. repeat split. Qed.

Example to_bytes2_big_endian : to_bytes2 49 = Some [x00; x31] /\ to_bytes2 300 = Some [x01; x2c].
Proof. split; reflexivity. Qed.

Example from_bytes_big_sample : from_bytes_big [x01; x2c] = 300 /\ from_bytes_big [] = 0.
Proof. split; reflexivity. Qed.

Example strip_sample : strip "  ab c   " = "ab c" /\ strip "   " = "".
Proof. split; vm_compute; reflexivity. Qed.

(** A no-break space (U+00A0) in front and an em space (U+2003) behind. *)
Example strip_unicode_sample :
  strip (string_of_list_ascii (map ascii_of_nat [194; 160; 112; 119; 226; 128; 131])) = "pw".
Proof. vm_compute. reflexivity. Qed.

Example upper_sample : upper "q7_x-Z" = "Q7_X-Z".
Proof. reflexivity. Qed.

Example b64url_sample : b64url [x00; x01; x02; xff; xfe] = "AAEC__4".
Proof. reflexivity. Qed.

Example path_parts :
  path_name "/a/b/note.txt" = "note.txt" /\
  path_stem "/a/b/note.txt" = "note" /\ path_suffix "/a/b/note.txt" = ".txt" /\
  path_stem "/a/.bashrc" = ".bashrc" /\ path_suffix "/a/.bashrc" = "" /\
  path_stem "a.tar.gz" = "a.tar" /\ path_suffix "a.tar.gz" = ".gz" /\
  path_join "/out" "note.txt" = "/out/note.txt" /\ path_join "/out" "/etc/x" = "/etc/x".
Proof. repeat split. Qed.

Example dict_set_keeps_place :
  dict_set "b" 9 [("a", 1); ("b", 2); ("c", 3)] = [("a", 1); ("b", 9); ("c", 3)] /\
  dict_set "d" 9 [("a", 1); ("b", 2)] = [("a", 1); ("b", 2); ("d", 9)] /\
  dict_del "a" [("a", 1); ("b", 2)] = [("b", 2)].
Proof. repeat split. Qed.

(** ** Reasoning about monadic code *)

Lemma bind_ok {St A B} (m : M St A) (f : A -> M St B) s b s' :
  (m ≫= f) s = (Ok b, s') ->
  exists a s1, m s = (Ok a, s1) /\ f a s1 = (Ok b, s').
Proof.
  unfold mbind, M_bind, m_bind. destruct (m s) as [[a|e] s1]; intros H.
  - eauto.
  - discriminate.
Qed.

Lemma bind_run {St A B} (m : M St A) (f : A -> M St B) s a s1 :
  m s = (Ok a, s1) -> (m ≫= f) s = f a s1.
Proof. unfold mbind, M_bind, m_bind. intros ->. reflexivity. Qed.

Lemma bind_raise {St A B} (m : M St A) (f : A -> M St B) s e s1 :
  m s = (Raise e, s1) -> (m ≫= f) s = (Raise e, s1).
Proof. unfold mbind, M_bind, m_bind. intros ->. reflexivity. Qed.

Lemma try_except_ok {St A} (body : M St A) handler s a s1 :
  body s = (Ok a, s1) -> try_except body handler s = (Ok a, s1).
Proof. unfold try_except. intros ->. reflexivity. Qed.

(** Splits [H : (m ≫= f) s = (Ok b, s')] into the run of [m] and of [f]. *)
Tactic Notation "inv_bind" hyp(H) "as"
    simple_intropattern(a) simple_intropattern(s) simple_intropattern(Hm) :=
  apply bind_ok in H as (a & s & Hm & H).

(** Reduces projections of explicit worlds and boolean tests. *)
Ltac msimpl :=
  cbn [negb andb orb tail w_files w_faults w_trace w_stdout w_entropy w_drawn w_clock w_reads
       vm_self vm_world _crypto _index fst snd].

(** Runs the first computation of a bind in the goal; [tac] proves what it
    returns. *)
Ltac run_bind tac :=
  match goal with
  | |- context [ mbind ?f ?m ?s ] =>
      let H := fresh "Hrun" in
      eassert (H : m s = (Ok _, _)) by tac;
      rewrite (bind_run m f s _ _ H); clear H; cbv beta; msimpl
  end.

(** ** Bytes *)

Lemma slice_app_mid {A} (a b c : list A) i j :
  i = length a -> j = length a + length b -> slice i j (a ++ b ++ c) = b.
Proof.
  intros -> ->. unfold slice.
  rewrite drop_app_length.
  apply take_app_length'. lia.
Qed.

Lemma to_bytes2_from_bytes (n : nat) (b : bytes) :
  to_bytes2 n = Some b -> from_bytes_big b = n /\ length b = 2.
Proof.
  unfold to_bytes2.
  destruct (Byte.of_N (N.of_nat n / 256)) as [hi|] eqn:Hhi; [|discriminate].
  destruct (Byte.of_N (N.of_nat n mod 256)) as [lo|] eqn:Hlo; [|discriminate].
  intros [= <-]. split; [|reflexivity].
  unfold from_bytes_big. simpl.
  apply Byte.to_of_N in Hhi, Hlo. rewrite Hhi, Hlo.
  pose proof (N.div_mod (N.of_nat n) 256) as Hd.
  replace ((0 * 256 + N.of_nat n / 256) * 256 + N.of_nat n mod 256)%N
    with (N.of_nat n) by lia.
  apply Nat2N.id.
Qed.

Lemma length_token (w : World) (n : nat) b w' :
  token_bytes n w = (Ok b, w') -> length b = n.
Proof. unfold token_bytes. intros [= <- _]. rewrite length_map. apply length_seq. Qed.

Lemma token_bytes_inv (w : World) (n : nat) b w' :
  token_bytes n w = (Ok b, w') ->
  b = map (w_entropy w) (seq (w_drawn w) n) /\
  w_entropy w' = w_entropy w /\ w_drawn w' = w_drawn w + n.
Proof. unfold token_bytes. intros [= <- <-]. auto. Qed.

Lemma print_inv (l : line) w u w' :
  print l w = (Ok u, w') ->
  w_entropy w' = w_entropy w /\ w_drawn w' = w_drawn w /\ w_files w' = w_files w.
Proof. unfold print. intros [= _ <-]. auto. Qed.

(** ** Files *)

Lemma path_exists_true p w c :
  w_files w !! p = Some c -> path_exists p w = (Ok true, w).
Proof.
  intros H. unfold path_exists. rewrite bool_decide_eq_true_2; [reflexivity|].
  rewrite H. eauto.
Qed.

Lemma path_exists_false p w :
  w_files w !! p = None -> path_exists p w = (Ok false, w).
Proof.
  intros H. unfold path_exists. rewrite bool_decide_eq_false_2; [reflexivity|].
  rewrite H. intros [? [=]].
Qed.

Lemma io_ok c w w' :
  io c w = (Ok tt, w') ->
  default false (head (w_faults w)) = false /\
  apply_call c (w_files w) = Some (w_files w') /\
  w_faults w' = tail (w_faults w) /\
  w_trace w' = w_trace w ++ [(c, true)] /\
  w_stdout w' = w_stdout w /\ w_entropy w' = w_entropy w /\ w_drawn w' = w_drawn w /\
  w_clock w' = w_clock w /\ w_reads w' = w_reads w.
Proof.
  unfold io. destruct (default false (head (w_faults w))).
  - discriminate.
  - destruct (apply_call c (w_files w)); [|discriminate].
    intros [= <-]. simpl. auto 10.
Qed.

Lemma closing_ok {A} p (body : M World A) w a w' :
  closing p body w = (Ok a, w') ->
  exists w1, body w = (Ok a, w1) /\ io (IoClose p) w1 = (Ok tt, w').
Proof.
  unfold closing. destruct (body w) as [r w1].
  destruct (io (IoClose p) w1) as [[[]|e] w2] eqn:Hc; intros [= -> ->]; eauto.
Qed.

Lemma closing_run {A} p (body : M World A) w a w1 w2 :
  body w = (Ok a, w1) -> io (IoClose p) w1 = (Ok tt, w2) ->
  closing p body w = (Ok a, w2).
Proof. intros Hb Hc. unfold closing. rewrite Hb, Hc. reflexivity. Qed.

Lemma write_bytes_ok p data w w' :
  write_bytes p data w = (Ok tt, w') ->
  w_files w' = <[p := data]> (w_files w).
Proof.
  unfold write_bytes. intros H. inv_bind H as [] w0 Hm.
  apply closing_ok in H as (w1 & Hw & Hc).
  apply io_ok in Hm as (_ & Ho & _). apply io_ok in Hw as (_ & Hw & _).
  apply io_ok in Hc as (_ & Hc & _).
  simpl in Ho, Hw, Hc. injection Ho as Ho. injection Hc as Hc.
  rewrite <- Ho, lookup_insert_eq in Hw. simpl in Hw. injection Hw as Hw.
  rewrite <- Hc, <- Hw, drop_nil, app_nil_r. apply insert_insert_eq.
Qed.

Lemma read_bytes_run p data w :
  w_files w !! p = Some data ->
  default false (head (w_faults w)) = false ->
  exists w', read_bytes p w = (Ok data, w') /\ w_files w' = w_files w.
Proof.
  intros Hf Hn. unfold read_bytes, io, mbind, M_bind, m_bind.
  rewrite Hn. simpl. rewrite Hf. unfold file_content. simpl. rewrite Hf.
  eexists. split; reflexivity.
Qed.

(** ** The key envelope *)

Section KeyEnvelopeFacts.
Context {L : Platform}.

(** Opening a well-formed blob whose chosen payload decrypts. *)
Lemma load_usb_key_blob usb_path secret (is_recovery : bool)
    salt_pw salt_recovery nonce len_ct ct_pw ct_recovery master_key w :
  length salt_pw = 32 -> length salt_recovery = 32 -> length nonce = 12 ->
  to_bytes2 (length ct_pw) = Some len_ct ->
  length master_key = 32 ->
  w_files w !! path_join usb_path KEY_FILE_NAME =
    Some (VERSION ++ salt_pw ++ salt_recovery ++ nonce ++ len_ct ++ ct_pw ++ ct_recovery) ->
  default false (head (w_faults w)) = false ->
  aesgcm_decrypt
    (derive_key secret (if is_recovery then salt_recovery else salt_pw)) nonce
    (if is_recovery then ct_recovery else ct_pw)
    (if is_recovery then salt_recovery else salt_pw) = Ok (VERSION ++ master_key) ->
  exists w', load_usb_key usb_path secret is_recovery w = (Ok (Some master_key), w').
Proof.
  intros Hsp Hsr Hn Hlen Hmk Hfile Hfault Hdec.
  apply to_bytes2_from_bytes in Hlen as [Hfrom Hlen2].
  set (blob := VERSION ++ salt_pw ++ salt_recovery ++ nonce ++ len_ct ++ ct_pw ++ ct_recovery) in *.
  unfold load_usb_key.
  run_bind ltac:(idtac; reflexivity). run_bind ltac:(idtac; reflexivity).
  run_bind ltac:(apply (path_exists_true _ _ blob); exact Hfile).
  match goal with |- context [ try_except _ _ ?s ] =>
    destruct (read_bytes_run (path_join usb_path KEY_FILE_NAME) blob s)
      as (w1 & Hread & _); [exact Hfile | exact Hfault |]
  end.
  eexists. apply try_except_ok.
  unfold load_usb_key_body.
  run_bind ltac:(exact Hread).
  assert (Hv : slice 0 1 blob = VERSION) by reflexivity.
  rewrite Hv. rewrite decide_False by (intros H; apply H; reflexivity).
  assert (H1 : slice 1 (1 + SALT_SIZE) blob = salt_pw).
  { apply (slice_app_mid VERSION); [reflexivity | rewrite Hsp; reflexivity]. }
  assert (H2 : slice (1 + SALT_SIZE) (1 + SALT_SIZE + SALT_SIZE) blob = salt_recovery).
  { replace blob with ((VERSION ++ salt_pw) ++ salt_recovery ++ nonce ++ len_ct
                         ++ ct_pw ++ ct_recovery)
      by (unfold blob; rewrite <- ?app_assoc; reflexivity).
    apply slice_app_mid; rewrite ?length_app, ?Hsp, ?Hsr; reflexivity. }
  assert (H3 : slice (1 + SALT_SIZE + SALT_SIZE) (1 + SALT_SIZE + SALT_SIZE + NONCE_SIZE)
                 blob = nonce).
  { replace blob with ((VERSION ++ salt_pw ++ salt_recovery) ++ nonce ++ len_ct
                         ++ ct_pw ++ ct_recovery)
      by (unfold blob; rewrite <- ?app_assoc; reflexivity).
    apply slice_app_mid; rewrite ?length_app, ?Hsp, ?Hsr, ?Hn; reflexivity. }
  assert (H4 : slice (1 + SALT_SIZE + SALT_SIZE + NONCE_SIZE)
                 (1 + SALT_SIZE + SALT_SIZE + NONCE_SIZE + 2) blob = len_ct).
  { replace blob with ((VERSION ++ salt_pw ++ salt_recovery ++ nonce) ++ len_ct
                         ++ ct_pw ++ ct_recovery)
      by (unfold blob; rewrite <- ?app_assoc; reflexivity).
    apply slice_app_mid; rewrite ?length_app, ?Hsp, ?Hsr, ?Hn, ?Hlen2; reflexivity. }
  rewrite H1, H2, H3, H4, Hfrom.
  assert (Hhead : length (VERSION ++ salt_pw ++ salt_recovery ++ nonce ++ len_ct)
                  = 1 + SALT_SIZE + SALT_SIZE + NONCE_SIZE + 2).
  { rewrite ?length_app, Hsp, Hsr, Hn, Hlen2. reflexivity. }
  assert (H5 : slice (1 + SALT_SIZE + SALT_SIZE + NONCE_SIZE + 2)
                 (1 + SALT_SIZE + SALT_SIZE + NONCE_SIZE + 2 + length ct_pw) blob = ct_pw).
  { replace blob with ((VERSION ++ salt_pw ++ salt_recovery ++ nonce ++ len_ct)
                         ++ ct_pw ++ ct_recovery)
      by (unfold blob; rewrite <- ?app_assoc; reflexivity).
    apply slice_app_mid; rewrite Hhead; reflexivity. }
  assert (H6 : drop (1 + SALT_SIZE + SALT_SIZE + NONCE_SIZE + 2 + length ct_pw) blob
               = ct_recovery).
  { replace blob with ((VERSION ++ salt_pw ++ salt_recovery ++ nonce ++ len_ct ++ ct_pw)
                         ++ ct_recovery)
      by (unfold blob; rewrite <- ?app_assoc; reflexivity).
    apply drop_app_length'. rewrite <- Hhead, ?length_app. lia. }
  rewrite H5, H6.
  run_bind ltac:(unfold lift_result; rewrite Hdec; reflexivity).
  replace (startswith VERSION (VERSION ++ master_key)) with true
    by reflexivity.
  msimpl. run_bind ltac:(idtac; reflexivity).
  replace (slice 1 (1 + AES_KEY_SIZE) (VERSION ++ master_key)) with master_key.
  - reflexivity.
  - symmetry. rewrite <- (app_nil_r master_key) at 1.
    apply (slice_app_mid VERSION); [reflexivity | rewrite Hmk; reflexivity].
Qed.

(** What a successful enrollment has written. *)
Lemma create_usb_key_written usb_path password R w w' :
  create_usb_key usb_path password w = (Ok (Some R), w') ->
  exists salt_pw salt_recovery nonce len_ct ct_pw ct_recovery,
    length salt_pw = 32 /\ length salt_recovery = 32 /\ length nonce = 12 /\
    aesgcm_encrypt (derive_key password salt_pw) nonce
      (VERSION ++ master_key_drawn w) salt_pw = Ok ct_pw /\
    aesgcm_encrypt (derive_key R salt_recovery) nonce
      (VERSION ++ master_key_drawn w) salt_recovery = Ok ct_recovery /\
    to_bytes2 (length ct_pw) = Some len_ct /\
    w_files w' !! path_join usb_path KEY_FILE_NAME =
      Some (VERSION ++ salt_pw ++ salt_recovery ++ nonce ++ len_ct ++ ct_pw ++ ct_recovery).
Proof.
  unfold create_usb_key, try_except.
  destruct (create_usb_key_body usb_path password w) as [[r|e] w0] eqn:Hbody.
  2: { unfold mbind, M_bind, m_bind, print, mret, M_ret, m_ret. intros [=]. }
  intros [= -> ->]. unfold create_usb_key_body in Hbody.
  inv_bind Hbody as [] w0 Hp. apply print_inv in Hp as (He0 & Hd0 & _).
  inv_bind Hbody as salt_pw w1 Ht1. pose proof (length_token _ _ _ _ Ht1) as Hsp.
  apply token_bytes_inv in Ht1 as (_ & He1 & Hd1).
  inv_bind Hbody as salt_recovery w2 Ht2. pose proof (length_token _ _ _ _ Ht2) as Hsr.
  apply token_bytes_inv in Ht2 as (_ & He2 & Hd2).
  inv_bind Hbody as nonce w3 Ht3. pose proof (length_token _ _ _ _ Ht3) as Hn.
  apply token_bytes_inv in Ht3 as (_ & He3 & Hd3).
  inv_bind Hbody as master_key w4 Ht4. apply token_bytes_inv in Ht4 as (Hmk & _).
  rewrite He3, He2, He1, He0, Hd3, Hd2, Hd1, Hd0 in Hmk.
  change (master_key = master_key_drawn w) in Hmk. subst master_key.
  inv_bind Hbody as tok w5 Ht5. clear Ht5.
  inv_bind Hbody as ct_pw w6 Hpw. injection Hpw as Hpw _.
  inv_bind Hbody as ct_recovery w7 Hrec. injection Hrec as Hrec _.
  inv_bind Hbody as len_ct w8 Hlen.
  destruct (to_bytes2 (length ct_pw)) as [len_ct'|] eqn:Hlen'; [|discriminate].
  injection Hlen as -> _.
  inv_bind Hbody as [] w9 Hwrite. apply write_bytes_ok in Hwrite.
  inv_bind Hbody as [] w10 Hp. apply print_inv in Hp as (_ & _ & Hfiles).
  injection Hbody as <- <-.
  exists salt_pw, salt_recovery, nonce, len_ct, ct_pw, ct_recovery.
  rewrite Hfiles, Hwrite, lookup_insert_eq. auto 10.
Qed.


Lemma length_master_key_drawn w : length (master_key_drawn w) = 32.
Proof. unfold master_key_drawn. rewrite length_map. apply length_seq. Qed.

End KeyEnvelopeFacts.

(** C1.  When [create_usb_key] returns a recovery code [R] for the password
    [P], then in every world that holds the key file it wrote (and whose
    next read does not fail), [load_usb_key] with [P] and is_recovery=false
    and [load_usb_key] with [R] and is_recovery=true both return the
    master key drawn at creation, which is 32 bytes long.  The cipher is
    assumed to decrypt what it encrypted. *)
Theorem enrollment_secrets_open_envelope {L : Platform}
    usb_path password R (w w' v : World) :
  aead_correct L ->
  create_usb_key usb_path password w = (Ok (Some R), w') ->
  w_files v !! path_join usb_path KEY_FILE_NAME =
    w_files w' !! path_join usb_path KEY_FILE_NAME ->
  default false (head (w_faults v)) = false ->
  exists v1 v2,
    load_usb_key usb_path password false v = (Ok (Some (master_key_drawn w)), v1) /\
    load_usb_key usb_path R true v = (Ok (Some (master_key_drawn w)), v2) /\
    length (master_key_drawn w) = 32.
Proof.
  intros Haead Hcreate Hsame Hfault.
  apply create_usb_key_written in Hcreate
    as (salt_pw & salt_recovery & nonce & len_ct & ct_pw & ct_recovery
        & Hsp & Hsr & Hn & Hpw & Hrec & Hlen & Hfile).
  rewrite <- Hsame in Hfile.
  pose proof (length_master_key_drawn w) as Hmk.
  destruct (load_usb_key_blob usb_path password false _ _ _ _ _ _ _ v
              Hsp Hsr Hn Hlen Hmk Hfile Hfault (Haead _ _ _ _ _ Hpw)) as [v1 H1].
  destruct (load_usb_key_blob usb_path R true _ _ _ _ _ _ _ v
              Hsp Hsr Hn Hlen Hmk Hfile Hfault (Haead _ _ _ _ _ Hrec)) as [v2 H2].
  exists v1, v2. auto.
Qed.

Lemma sample_aead_correct : aead_correct sample_platform.
Proof.
  intros key nonce data aad ct. simpl.
  destruct (decide (length key = 32)); [|discriminate].
  intros [= <-].
  assert (Htag : length (sample_tag key nonce aad) = 16).
  { unfold sample_tag. rewrite length_take, !length_app, length_replicate. lia. }
  rewrite take_app_length' by (symmetry; exact Htag).
  rewrite decide_True by reflexivity.
  rewrite drop_app_length' by (symmetry; exact Htag). reflexivity.
Qed.

Lemma enrollment_secrets_open_envelope_witness :
  exists v1 v2,
    load_usb_key "/media/usb" "correcthorsebattery" false sample_enrolled
      = (Ok (Some (master_key_drawn sample_world)), v1) /\
    load_usb_key "/media/usb" "KRVA7JYNAFBEMRLE" true sample_enrolled
      = (Ok (Some (master_key_drawn sample_world)), v2) /\
    length (master_key_drawn sample_world) = 32.
Proof.
  apply (enrollment_secrets_open_envelope "/media/usb" "correcthorsebattery"
           "KRVA7JYNAFBEMRLE" sample_world sample_enrolled sample_enrolled).
  - exact sample_aead_correct.
  - vm_compute. reflexivity.
  - reflexivity.
  - vm_compute. reflexivity.
Defined.


Section EnvelopeFailures.
Context {L : Platform}.

Lemma read_bytes_fault p w :
  default false (head (w_faults w)) = true ->
  exists w', read_bytes p w = (Raise OSError, w').
Proof.
  intros Hf. unfold read_bytes, io, mbind, M_bind, m_bind. rewrite Hf. eauto.
Qed.

Lemma load_usb_key_body_read key_file secret is_recovery data w w1 :
  read_bytes key_file w = (Ok data, w1) ->
  slice 0 1 data = VERSION ->
  load_usb_key_body key_file secret is_recovery w =
    (payload ← lift_result (blob_decrypt secret is_recovery data);
     if negb (startswith VERSION payload) then
       print DbgPayloadVersionMismatch ;; mret None
     else
       print DbgVaultUnlocked ;; mret (Some (slice 1 (1 + AES_KEY_SIZE) payload))) w1.
Proof.
  intros Hread Hv. unfold load_usb_key_body.
  run_bind ltac:(exact Hread).
  rewrite decide_False by (intros H; apply H; exact Hv).
  destruct is_recovery; reflexivity.
Qed.

(** [load_usb_key] never raises. *)
Lemma load_usb_key_total usb_path secret is_recovery w :
  exists r w', load_usb_key usb_path secret is_recovery w = (Ok r, w').
Proof.
  unfold load_usb_key.
  run_bind ltac:(idtac; reflexivity). run_bind ltac:(idtac; reflexivity).
  run_bind ltac:(idtac; reflexivity).
  match goal with |- context [ if negb ?b then _ else _ ] => destruct b end; msimpl.
  - unfold try_except.
    match goal with |- context [ load_usb_key_body ?k ?s ?r ?w ] =>
      destruct (load_usb_key_body k s r w) as [[r0|e] w0]
    end; eauto.
  - eauto.
Qed.

Lemma load_usb_key_fails usb_path secret is_recovery w :
  open_fails usb_path secret is_recovery w ->
  exists w', load_usb_key usb_path secret is_recovery w = (Ok None, w').
Proof.
  intros Hcause. unfold load_usb_key.
  run_bind ltac:(idtac; reflexivity). run_bind ltac:(idtac; reflexivity).
  destruct Hcause as [Hnone | data Hfile Hfault | data Hfile Hv
                      | data e Hfile Hdec | data payload Hfile Hdec Hpv].
  - run_bind ltac:(apply path_exists_false; exact Hnone). eauto.
  - run_bind ltac:(apply (path_exists_true _ _ data); exact Hfile).
    match goal with |- context [ try_except _ _ ?s ] =>
      destruct (read_bytes_fault (path_join usb_path KEY_FILE_NAME) s Hfault) as [w1 Hread]
    end.
    unfold try_except, load_usb_key_body. rewrite (bind_raise _ _ _ _ _ Hread). eauto.
  - run_bind ltac:(apply (path_exists_true _ _ data); exact Hfile).
    unfold try_except.
    match goal with |- context [ load_usb_key_body ?k ?s ?r ?w ] =>
      destruct (default false (head (w_faults w))) eqn:Hfault;
      [ destruct (read_bytes_fault k w Hfault) as [w1 Hread];
        unfold load_usb_key_body; rewrite (bind_raise _ _ _ _ _ Hread); eauto
      | destruct (read_bytes_run k data w Hfile Hfault) as (w1 & Hread & _);
        unfold load_usb_key_body; rewrite (bind_run _ _ _ _ _ Hread);
        rewrite decide_True by exact Hv; eauto ]
    end.
  - run_bind ltac:(apply (path_exists_true _ _ data); exact Hfile).
    unfold try_except.
    match goal with |- context [ load_usb_key_body ?k ?s ?r ?w ] =>
      destruct (default false (head (w_faults w))) eqn:Hfault;
      [ destruct (read_bytes_fault k w Hfault) as [w1 Hread];
        unfold load_usb_key_body; rewrite (bind_raise _ _ _ _ _ Hread); eauto
      | destruct (read_bytes_run k data w Hfile Hfault) as (w1 & Hread & _);
        destruct (decide (slice 0 1 data = VERSION)) as [Hv|Hv];
        [ rewrite (load_usb_key_body_read _ _ _ _ _ _ Hread Hv);
          unfold lift_result, mbind, M_bind, m_bind; rewrite Hdec; eauto
        | unfold load_usb_key_body; rewrite (bind_run _ _ _ _ _ Hread);
          rewrite decide_True by exact Hv; eauto ] ]
    end.
  - run_bind ltac:(apply (path_exists_true _ _ data); exact Hfile).
    unfold try_except.
    match goal with |- context [ load_usb_key_body ?k ?s ?r ?w ] =>
      destruct (default false (head (w_faults w))) eqn:Hfault;
      [ destruct (read_bytes_fault k w Hfault) as [w1 Hread];
        unfold load_usb_key_body; rewrite (bind_raise _ _ _ _ _ Hread); eauto
      | destruct (read_bytes_run k data w Hfile Hfault) as (w1 & Hread & _);
        destruct (decide (slice 0 1 data = VERSION)) as [Hv|Hv];
        [ rewrite (load_usb_key_body_read _ _ _ _ _ _ Hread Hv);
          unfold lift_result, mbind, M_bind, m_bind; rewrite Hdec, Hpv; eauto
        | unfold load_usb_key_body; rewrite (bind_run _ _ _ _ _ Hread);
          rewrite decide_True by exact Hv; eauto ] ]
    end.
Qed.

End EnvelopeFailures.

(** C6.  [load_usb_key] never lets an exception out, and for each cause of
    failure (key file missing, read error, blob version not supported,
    decryption raising (authentication failure, or sizes that a truncated
    or malformed blob yields), payload version mismatch) it returns the
    one value [None], whether [is_recovery] is set or not.  The lines it
    prints for debugging are not part of what it returns. *)
Theorem load_usb_key_single_failure {L : Platform}
    usb_path secret (is_recovery : bool) (w : World) :
  (exists r w', load_usb_key usb_path secret is_recovery w = (Ok r, w')) /\
  (open_fails usb_path secret is_recovery w ->
   exists w', load_usb_key usb_path secret is_recovery w = (Ok None, w')).
Proof.
  split.
  - apply load_usb_key_total.
  - apply load_usb_key_fails.
Qed.

Lemma load_usb_key_single_failure_witness :
  (exists w', load_usb_key "/media/usb" "not the password" false sample_enrolled
              = (Ok None, w')) /\
  (exists w', load_usb_key "/media/usb" "NOTTHERECOVERYCODE" true sample_enrolled
              = (Ok None, w')).
Proof.
  split.
  - apply (load_usb_key_single_failure "/media/usb" "not the password" false sample_enrolled).
    eapply cause_decryption; vm_compute; reflexivity.
  - apply (load_usb_key_single_failure "/media/usb" "NOTTHERECOVERYCODE" true sample_enrolled).
    eapply cause_decryption; vm_compute; reflexivity.
Defined.

(** ** Secure erase *)

Lemma io_run c w fs' :
  default false (head (w_faults w)) = false ->
  apply_call c (w_files w) = Some fs' ->
  io c w = (Ok tt, mkWorld fs' (tail (w_faults w)) (w_trace w ++ [(c, true)]) (w_stdout w)
                           (w_entropy w) (w_drawn w) (w_clock w) (w_reads w)).
Proof. intros Hf Ha. unfold io. rewrite Hf, Ha. reflexivity. Qed.

(** Every I/O call, failed or not, is recorded last in the trace. *)
Lemma io_trace c w :
  exists r ok w', io c w = (r, w') /\ w_trace w' = w_trace w ++ [(c, ok)].
Proof.
  unfold io. destruct (default false (head (w_faults w))).
  - eexists _, _, _. split; reflexivity.
  - destruct (apply_call c (w_files w)); eexists _, _, _; split; reflexivity.
Qed.

Lemma overwrite_pass_run path size content fs tr out ent drawn clk rd :
  fs !! path = Some content ->
  length content = size ->
  overwrite_pass path size (mkWorld fs [] tr out ent drawn clk rd) =
    (Ok tt,
     mkWorld (<[path := map ent (seq drawn size)]> fs) []
       (tr ++ pass_calls path (map ent (seq drawn size))) out
       ent (drawn + size) clk rd).
Proof.
  intros Hfile Hsize. unfold overwrite_pass.
  run_bind ltac:(apply io_run; reflexivity).
  run_bind ltac:(idtac; reflexivity).
  set (data := map ent (seq drawn size)).
  assert (Hlen : length data = length content).
  { unfold data. rewrite length_map, length_seq. symmetry. exact Hsize. }
  run_bind ltac:(apply io_run; [reflexivity | simpl; rewrite Hfile; reflexivity]).
  run_bind ltac:(apply io_run; reflexivity).
  match goal with |- io ?c ?w = _ => rewrite (io_run c w (w_files w)) by reflexivity end.
  msimpl. simpl. rewrite Hlen, drop_all, app_nil_r, <- !app_assoc. reflexivity.
Qed.

Lemma length_draw (ent : nat -> Byte.byte) (start size : nat) :
  length (map ent (seq start size)) = size.
Proof. rewrite length_map. apply length_seq. Qed.

Lemma secure_delete_run path content fs tr out ent drawn clk rd :
  fs !! path = Some content ->
  let size := length content in
  let w := mkWorld fs [] tr out ent drawn clk rd in
  secure_delete path DEFAULT_PASSES w =
    (Ok tt,
     mkWorld (delete path fs) []
       (tr ++ [(IoStat path, true); (IoOpen path ModeRPlusB, true)]
           ++ pass_calls path (nth_draw w size 0)
           ++ pass_calls path (nth_draw w size 1)
           ++ pass_calls path (nth_draw w size 2)
           ++ [(IoClose path, true); (IoUnlink path, true)])
       out ent (drawn + size + size + size) clk rd).
Proof.
  intros Hfile size w. unfold secure_delete, w.
  apply try_except_ok.
  unfold stat_size.
  run_bind ltac:(
    run_bind ltac:(apply io_run; [reflexivity | simpl; rewrite Hfile; reflexivity]);
    run_bind ltac:(unfold file_content; simpl; rewrite Hfile; reflexivity);
    reflexivity).
  run_bind ltac:(apply io_run; [reflexivity | simpl; rewrite Hfile; reflexivity]).
  fold size.
  run_bind ltac:(
    eapply closing_run;
    [ unfold DEFAULT_PASSES, repeat_n;
      run_bind ltac:(apply (overwrite_pass_run path size content); [exact Hfile | reflexivity]);
      run_bind ltac:(apply (overwrite_pass_run path size (map ent (seq drawn size)));
                     [apply lookup_insert_eq | apply length_draw]);
      run_bind ltac:(apply (overwrite_pass_run path size (map ent (seq (drawn + size) size)));
                     [apply lookup_insert_eq | apply length_draw]);
      reflexivity
    | apply io_run; reflexivity ]).
  unfold unlink.
  match goal with |- io ?c ?w = _ =>
    rewrite (io_run c w (delete path (w_files w)))
      by (try reflexivity; simpl; rewrite lookup_insert_eq; reflexivity)
  end.
  msimpl. f_equal. f_equal.
  - rewrite !delete_insert_eq. reflexivity.
  - unfold nth_draw. simpl.
    rewrite Nat.add_0_r, <- !app_assoc.
    replace (drawn + (size + 0)) with (drawn + size) by lia.
    replace (drawn + (size + (size + 0))) with (drawn + size + size) by lia.
    reflexivity.
Qed.

(** Whatever fails, [secure_delete] returns normally and the last I/O call
    it made is an attempt to unlink the file. *)
Lemma secure_delete_unlinks path passes w :
  exists w' t ok,
    secure_delete path passes w = (Ok tt, w') /\ w_trace w' = t ++ [(IoUnlink path, ok)].
Proof.
  unfold secure_delete, try_except.
  match goal with |- context [ match ?b w with _ => _ end ] =>
    destruct (b w) as [[[]|e] w0] eqn:Hbody
  end.
  - inv_bind Hbody as size w1 Hstat.
    inv_bind Hbody as [] w2 Hopen.
    inv_bind Hbody as [] w3 Hpasses.
    apply io_ok in Hbody as (_ & _ & _ & Htrace & _).
    eauto.
  - run_bind ltac:(idtac; reflexivity). unfold unlink.
    match goal with |- context [ io ?c ?w1 ] =>
      destruct (io_trace c w1) as (r & ok & w2 & Hio & Htrace); rewrite Hio
    end.
    destruct r as [[]|e']; eauto.
Qed.

(** C8.  On a file that exists, with no I/O failure, [secure_delete] with
    its default of 3 passes makes exactly these calls: stat, open for
    update, then three times (seek to 0, write as many fresh random bytes
    as the file is long, flush, fsync), then close and unlink; the file is
    gone afterwards and no warning is printed.  And in every world, for any
    number of passes and whatever call fails, it returns normally and its
    last I/O call is an attempt to unlink the file. *)
Theorem secure_delete_three_passes_then_unlink path (w : World) :
  (forall content,
     w_files w !! path = Some content -> w_faults w = [] ->
     exists w',
       secure_delete path DEFAULT_PASSES w = (Ok tt, w') /\
       w_trace w' =
         w_trace w ++ [(IoStat path, true); (IoOpen path ModeRPlusB, true)]
           ++ pass_calls path (nth_draw w (length content) 0)
           ++ pass_calls path (nth_draw w (length content) 1)
           ++ pass_calls path (nth_draw w (length content) 2)
           ++ [(IoClose path, true); (IoUnlink path, true)] /\
       (forall i, length (nth_draw w (length content) i) = length content) /\
       w_files w' = delete path (w_files w) /\
       w_stdout w' = w_stdout w) /\
  (forall passes, exists w' t ok,
     secure_delete path passes w = (Ok tt, w') /\
     w_trace w' = t ++ [(IoUnlink path, ok)]).
Proof.
  split.
  - intros content Hfile Hfaults. destruct w as [fs faults tr out ent drawn clk rd].
    simpl in Hfile, Hfaults. subst faults.
    eexists. split; [apply (secure_delete_run path content); exact Hfile|].
    msimpl. repeat split.
    intros i. apply length_draw.
  - intros passes. apply secure_delete_unlinks.
Qed.

Lemma secure_delete_three_passes_then_unlink_witness :
  exists w',
    secure_delete "/tmp/note.txt" DEFAULT_PASSES sample_disk = (Ok tt, w') /\
    w_trace w' =
      [(IoStat "/tmp/note.txt", true); (IoOpen "/tmp/note.txt" ModeRPlusB, true)]
        ++ pass_calls "/tmp/note.txt" [x3c; xa7; x01; xf0; x5e]
        ++ pass_calls "/tmp/note.txt" [x99; x12; xc4; x6b; x08]
        ++ pass_calls "/tmp/note.txt" [xd3; x7f; x2a; xb5; x40]
        ++ [(IoClose "/tmp/note.txt", true); (IoUnlink "/tmp/note.txt", true)] /\
    w_files w' = ∅.
Proof.
  destruct (proj1 (secure_delete_three_passes_then_unlink "/tmp/note.txt" sample_disk)
              [x68; x65; x6c; x6c; x6f] eq_refl eq_refl)
    as (w' & Hrun & Htrace & _ & Hfiles & _).
  exists w'. split; [exact Hrun|]. split.
  - rewrite Htrace. reflexivity.
  - rewrite Hfiles. vm_compute. reflexivity.
Defined.

(** ** The vault index file *)

Lemma io_frame c w r w' :
  io c w = (r, w') ->
  (forall q, q <> call_path c -> w_files w' !! q = w_files w !! q) /\
  exists ok, w_trace w' = w_trace w ++ [(c, ok)].
Proof.
  unfold io. destruct (default false (head (w_faults w))).
  - intros [= _ <-]. simpl. eauto.
  - destruct (apply_call c (w_files w)) as [fs'|] eqn:Hcall; intros [= _ <-]; simpl.
    + split; [|eauto]. intros q Hq.
      destruct c as [p|p []|p pos|p pos data|p|p|p|p|p|p data]; simpl in Hcall, Hq;
        repeat match type of Hcall with
               | match ?x with _ => _ end = _ => destruct x; try discriminate
               end;
        injection Hcall as <-; try reflexivity.
      * apply lookup_insert_ne. congruence.
      * apply lookup_insert_ne. congruence.
      * apply lookup_delete_ne. congruence.
      * apply lookup_insert_ne. congruence.
    + eauto.
Qed.

(** [write_bytes] touches no other file than its own, whether it succeeds
    or not, and makes its calls on that file only. *)
Lemma write_bytes_frame p data w r w' :
  write_bytes p data w = (r, w') ->
  (forall q, q <> p -> w_files w' !! q = w_files w !! q) /\
  exists calls, w_trace w' = w_trace w ++ calls /\ Forall (fun c => call_path c.1 = p) calls.
Proof.
  unfold write_bytes, mbind, M_bind, m_bind.
  destruct (io (IoOpen p ModeWB) w) as [[[]|e] w1] eqn:Hopen.
  - unfold closing.
    destruct (io (IoWrite p 0 data) w1) as [rw w2] eqn:Hwrite.
    destruct (io (IoClose p) w2) as [rc w3] eqn:Hclose.
    apply io_frame in Hopen as [Ho [ok1 Hto]].
    apply io_frame in Hwrite as [Hw [ok2 Htw]].
    apply io_frame in Hclose as [Hc [ok3 Htc]].
    intros Hr. assert (w' = w3) as -> by (destruct rc as [[]|]; congruence).
    split.
    + intros q Hq. rewrite Hc, Hw, Ho by exact Hq. reflexivity.
    + exists [(IoOpen p ModeWB, ok1); (IoWrite p 0 data, ok2); (IoClose p, ok3)].
      split; [|repeat constructor].
      rewrite Htc, Htw, Hto, <- !app_assoc. reflexivity.
  - intros [= _ <-]. apply io_frame in Hopen as [Ho [ok1 Hto]].
    split; [exact Ho|].
    exists [(IoOpen p ModeWB, ok1)]. split; [exact Hto | repeat constructor].
Qed.

Lemma write_bytes_run p data fs tr out ent drawn clk rd :
  write_bytes p data (mkWorld fs [] tr out ent drawn clk rd) =
    (Ok tt,
     mkWorld (<[p := data]> fs) []
       (tr ++ [(IoOpen p ModeWB, true); (IoWrite p 0 data, true); (IoClose p, true)])
       out ent drawn clk rd).
Proof.
  unfold write_bytes.
  run_bind ltac:(apply io_run; reflexivity).
  erewrite closing_run;
    [ | apply io_run; [reflexivity | simpl; rewrite lookup_insert_eq; reflexivity]
      | apply io_run; reflexivity ].
  msimpl. simpl. rewrite drop_nil, insert_insert_eq, app_nil_r, <- !app_assoc. reflexivity.
Qed.

Section IndexFile.
Context {L : Platform}.

Lemma in_world_run {A} (m : M World A) (s : VMState) :
  in_world m s = (fst (m (vm_world s)), mkVMState (vm_self s) (snd (m (vm_world s)))).
Proof. unfold in_world, zoom. destruct (m (vm_world s)). reflexivity. Qed.

End IndexFile.

(** C4 (as amended).  [_save_index] writes the encrypted index straight
    into the index file: with no I/O failure its calls are exactly open
    for writing (which truncates), one write of the whole token, close, all
    on the index file, and the file then holds the new token; failing or
    not, it changes no other file, so no temporary file is written and
    nothing is renamed. *)
Theorem save_index_writes_in_place {L : Platform} (s : VMState) key :
  _fernet (_crypto (vm_self s)) = Some key ->
  let w := vm_world s in
  let token := fernet_encrypt key (w_clock w (w_reads w)) (nth_draw w 16 0)
                 (json_dumps (_index (vm_self s))) in
  (w_faults w = [] ->
   exists s',
     _save_index s = (Ok tt, s') /\
     vm_self s' = vm_self s /\
     w_files (vm_world s') = <[VAULT_INDEX := token]> (w_files w) /\
     w_trace (vm_world s') =
       w_trace w ++ [(IoOpen VAULT_INDEX ModeWB, true);
                     (IoWrite VAULT_INDEX 0 token, true);
                     (IoClose VAULT_INDEX, true)]) /\
  (forall r s' q,
     _save_index s = (r, s') -> q <> VAULT_INDEX ->
     w_files (vm_world s') !! q = w_files w !! q).
Proof.
  intros Hkey w token. destruct s as [[crypto index] [fs faults tr out ent drawn clk rd]].
  simpl in Hkey, w, token.
  assert (Henc : encrypt_file crypto (json_dumps index) w =
                 (Ok token, mkWorld fs faults tr out ent (drawn + 16) clk (S rd))).
  { unfold encrypt_file. rewrite Hkey. unfold w.
    run_bind ltac:(idtac; reflexivity). run_bind ltac:(idtac; reflexivity).
    unfold token, nth_draw. simpl w_drawn. rewrite Nat.add_0_r. reflexivity. }
  split.
  - simpl. intros ->. unfold _save_index.
    run_bind ltac:(idtac; reflexivity).
    run_bind ltac:(rewrite in_world_run; msimpl; fold w; rewrite Henc; reflexivity).
    rewrite in_world_run. msimpl. rewrite write_bytes_run.
    eexists. split; [reflexivity|]. simpl. auto.
  - intros r s' q. unfold _save_index.
    rewrite (bind_run _ _ _ _ _ (eq_refl : get_state _ = (Ok _, _))).
    erewrite bind_run; [|rewrite in_world_run; msimpl; fold w; rewrite Henc; reflexivity].
    rewrite in_world_run. msimpl.
    match goal with |- context [ write_bytes ?p ?d ?w0 ] =>
      destruct (write_bytes p d w0) as [rw w1] eqn:Hwrite
    end.
    intros [= _ <-] Hq. apply write_bytes_frame in Hwrite as [Hframe _].
    simpl. rewrite Hframe by exact Hq. reflexivity.
Qed.

Lemma save_index_writes_in_place_witness :
  exists s',
    _save_index sample_vault = (Ok tt, s') /\
    w_trace (vm_world s') =
      [(IoOpen VAULT_INDEX ModeWB, true);
       (IoWrite VAULT_INDEX 0 (replicate 16 x4b ++ [x61; x61; x31; x31]), true);
       (IoClose VAULT_INDEX, true)].
Proof.
  destruct (proj1 (save_index_writes_in_place sample_vault sample_key eq_refl) eq_refl)
    as (s' & Hrun & _ & _ & Htrace).
  exists s'. split; [exact Hrun|]. rewrite Htrace. vm_compute. reflexivity.
Defined.

(** C4 (as stated) fails: when the write that follows the truncating open
    fails, the index file is left empty, which is neither the old token
    nor a token of the new index. *)
Lemma save_index_not_atomic :
  fst (_save_index sample_vault_write_fails) = Raise OSError /\
  w_files (vm_world sample_vault_write_fails) !! VAULT_INDEX
    = Some (replicate 16 x4b ++ [x7b; x7d]) /\
  w_files (vm_world (snd (_save_index sample_vault_write_fails))) !! VAULT_INDEX = Some [] /\
  w_trace (vm_world (snd (_save_index sample_vault_write_fails))) =
    [(IoOpen VAULT_INDEX ModeWB, true);
     (IoWrite VAULT_INDEX 0 (replicate 16 x4b ++ [x61; x61; x31; x31]), false);
     (IoClose VAULT_INDEX, true)] /\
  ~ index_file_intact sample_vault_write_fails (snd (_save_index sample_vault_write_fails)).
Proof.
  split; [vm_compute; reflexivity|].
  split; [vm_compute; reflexivity|].
  split; [vm_compute; reflexivity|].
  split; [vm_compute; reflexivity|].
  intros [H | (key & token & Hkey & Hfile & Hdec)].
  - vm_compute in H. discriminate.
  - vm_compute in Hfile. injection Hfile as <-.
    injection Hkey as <-. vm_compute in Hdec. discriminate.
Qed.

(** ** Choosing the output path of an extraction *)

Lemma list_ascii_of_string_app (a b : string) :
  list_ascii_of_string (a ++ b)%string = list_ascii_of_string a ++ list_ascii_of_string b.
Proof. induction a as [|c a IH]; simpl; [reflexivity | rewrite IH; reflexivity]. Qed.

Lemma string_app_inv_tail (a b t : string) :
  (a ++ t)%string = (b ++ t)%string -> a = b.
Proof.
  intros H. apply (f_equal list_ascii_of_string) in H.
  rewrite !list_ascii_of_string_app in H. apply app_inv_tail in H.
  rewrite <- (string_of_list_ascii_of_string a), <- (string_of_list_ascii_of_string b).
  rewrite H. reflexivity.
Qed.

Lemma is_absolute_renamed stem suffix (j k : nat) :
  is_absolute (stem ++ "_" ++ pretty j ++ suffix)%string =
  is_absolute (stem ++ "_" ++ pretty k ++ suffix)%string.
Proof. destruct stem; reflexivity. Qed.

Lemma renamed_inj destination_dir stem suffix : Inj (=) (=) (renamed destination_dir stem suffix).
Proof.
  intros j k. unfold renamed, path_join.
  rewrite (is_absolute_renamed stem suffix j k).
  destruct (is_absolute (stem ++ "_" ++ pretty k ++ suffix)%string); intros H.
  - apply String.app_inj, String.app_inj, string_app_inv_tail in H.
    apply (inj pretty) in H. exact H.
  - apply String.app_inj, String.app_inj, String.app_inj, String.app_inj,
      string_app_inv_tail in H.
    apply (inj pretty) in H. exact H.
Qed.

Lemma avoid_collision_start fuel (fs : gmap string bytes) dest stem suffix out_path counter :
  is_Some (fs !! avoid_collision fuel fs dest stem suffix out_path counter) ->
  is_Some (fs !! out_path).
Proof.
  destruct (fs !! out_path) as [c|] eqn:Hout; [eauto|].
  destruct fuel; simpl; rewrite Hout; intros H; rewrite Hout in H; exact H.
Qed.

(** When the loop stops on a path that exists, every renaming it was
    allowed exists too. *)
Lemma avoid_collision_exhausted fuel (fs : gmap string bytes) dest stem suffix :
  forall out_path counter,
    is_Some (fs !! avoid_collision fuel fs dest stem suffix out_path counter) ->
    forall k, counter <= k < counter + fuel -> is_Some (fs !! renamed dest stem suffix k).
Proof.
  induction fuel as [|fuel IH]; intros out_path counter Hsome k Hk; [lia|].
  simpl in Hsome. destruct (fs !! out_path) as [c|] eqn:Hout.
  - fold (renamed dest stem suffix counter) in Hsome.
    destruct (decide (k = counter)) as [->|Hne].
    + apply avoid_collision_start in Hsome. exact Hsome.
    + apply (IH _ _ Hsome). lia.
  - rewrite Hout in Hsome. destruct Hsome as [? [=]].
Qed.

(** The fuel [choose_out_path] gives the loop is enough: the path it
    returns does not exist. *)
Lemma avoid_collision_fresh (fs : gmap string bytes) dest stem suffix out_path counter :
  fs !! avoid_collision (S (size fs)) fs dest stem suffix out_path counter = None.
Proof.
  destruct (fs !! avoid_collision (S (size fs)) fs dest stem suffix out_path counter)
    as [c|] eqn:Hres; [|reflexivity].
  exfalso.
  pose proof (avoid_collision_exhausted (S (size fs)) fs dest stem suffix out_path counter
                (mk_is_Some _ _ Hres)) as Hall.
  set (tried := renamed dest stem suffix <$> seq counter (S (size fs))).
  assert (Hnodup : NoDup tried).
  { apply NoDup_fmap_2; [apply renamed_inj | apply NoDup_seq]. }
  assert (Hsub : tried ⊆+ elements (dom fs)).
  { apply NoDup_submseteq; [exact Hnodup|].
    intros p Hp. apply list_elem_of_fmap in Hp as (k & -> & Hk).
    apply elem_of_seq in Hk. apply elem_of_elements, elem_of_dom, Hall. lia. }
  apply submseteq_length in Hsub.
  unfold tried in Hsub. rewrite length_fmap, length_seq in Hsub.
  change (length (elements (dom fs))) with (size (dom fs)) in Hsub.
  rewrite size_dom in Hsub. lia.
Qed.

Example avoid_collision_renames :
  avoid_collision 3 {[ "/out/note.txt" := []; "/out/note_1.txt" := [] ]}
    "/out" "note" ".txt" "/out/note.txt" 1 = "/out/note_2.txt".
Proof. vm_compute. reflexivity. Qed.

(** ** Extraction *)

Section Extraction.
Context {L : Platform}.

(** [extract_file] on an entry whose backing file exists runs the guarded
    body. *)
Lemma extract_file_found vault_id dest (s : VMState) meta ct :
  dict_get vault_id (_index (vm_self s)) = Some meta ->
  w_files (vm_world s) !! path_join VAULT_DIR (vault_file meta) = Some ct ->
  extract_file vault_id dest s =
    in_world
      (try_except
         (extract_file_body (_crypto (vm_self s)) meta
            (path_join VAULT_DIR (vault_file meta)) dest)
         (fun e => print (VaultExtractError e) ;; mret None)) s.
Proof.
  intros Hget Hfile. unfold extract_file.
  run_bind ltac:(idtac; reflexivity). rewrite Hget.
  run_bind ltac:(rewrite in_world_run, (path_exists_true _ _ ct) by exact Hfile; reflexivity).
  destruct s; reflexivity.
Qed.

Lemma extract_file_body_mismatch crypto meta vault_path dest w ct plaintext stored :
  w_files w !! vault_path = Some ct ->
  default false (head (w_faults w)) = false ->
  decrypt_file crypto ct = Some plaintext ->
  sha256 meta = Some stored -> stored <> "" -> sha256_hex plaintext <> stored ->
  extract_file_body crypto meta vault_path dest w =
    (Ok None,
     mkWorld (w_files w) (tail (w_faults w)) (w_trace w ++ [(IoReadBytes vault_path, true)])
             (w_stdout w ++ [VaultIntegrityCheckFailed])
             (w_entropy w) (w_drawn w) (w_clock w) (w_reads w)).
Proof.
  intros Hfile Hfault Hdec Hstored Hne Hdiff. unfold extract_file_body.
  run_bind ltac:(
    unfold read_bytes;
    run_bind ltac:(apply io_run; [exact Hfault | simpl; rewrite Hfile; reflexivity]);
    unfold file_content; msimpl; rewrite Hfile; reflexivity).
  rewrite Hdec, Hstored. simpl default. unfold get_file_integrity_hash.
  rewrite !bool_decide_eq_false_2 by assumption. msimpl.
  reflexivity.
Qed.

Lemma extract_file_body_undecryptable crypto meta vault_path dest w ct :
  w_files w !! vault_path = Some ct ->
  default false (head (w_faults w)) = false ->
  decrypt_file crypto ct = None ->
  extract_file_body crypto meta vault_path dest w =
    (Ok None,
     mkWorld (w_files w) (tail (w_faults w)) (w_trace w ++ [(IoReadBytes vault_path, true)])
             (w_stdout w ++ [VaultDecryptionFailed])
             (w_entropy w) (w_drawn w) (w_clock w) (w_reads w)).
Proof.
  intros Hfile Hfault Hdec. unfold extract_file_body.
  run_bind ltac:(
    unfold read_bytes;
    run_bind ltac:(apply io_run; [exact Hfault | simpl; rewrite Hfile; reflexivity]);
    unfold file_content; msimpl; rewrite Hfile; reflexivity).
  rewrite Hdec. reflexivity.
Qed.

End Extraction.

(** C3 (as amended).  For an entry whose stored "sha256" is a non-empty
    string, whose backing file is read and decrypts, and whose recomputed
    digest differs from the stored one, [extract_file] makes no I/O call
    but the read of the vault file, leaves every file as it was, prints the
    integrity line and returns [None].  That is the value it also returns
    when the decryption fails; then it prints the decryption line instead. *)
Theorem extract_file_integrity_failure {L : Platform}
    vault_id dest (s : VMState) meta ct stored :
  dict_get vault_id (_index (vm_self s)) = Some meta ->
  w_files (vm_world s) !! path_join VAULT_DIR (vault_file meta) = Some ct ->
  default false (head (w_faults (vm_world s))) = false ->
  sha256 meta = Some stored -> stored <> "" ->
  (forall plaintext,
     decrypt_file (_crypto (vm_self s)) ct = Some plaintext ->
     sha256_hex plaintext <> stored ->
     exists s',
       extract_file vault_id dest s = (Ok None, s') /\
       w_files (vm_world s') = w_files (vm_world s) /\
       w_trace (vm_world s') =
         w_trace (vm_world s) ++ [(IoReadBytes (path_join VAULT_DIR (vault_file meta)), true)] /\
       w_stdout (vm_world s') = w_stdout (vm_world s) ++ [VaultIntegrityCheckFailed]) /\
  (decrypt_file (_crypto (vm_self s)) ct = None ->
   exists s',
     extract_file vault_id dest s = (Ok None, s') /\
     w_files (vm_world s') = w_files (vm_world s) /\
     w_stdout (vm_world s') = w_stdout (vm_world s) ++ [VaultDecryptionFailed]).
Proof.
  intros Hget Hfile Hfault Hstored Hne. split.
  - intros plaintext Hdec Hdiff.
    rewrite (extract_file_found _ _ _ _ _ Hget Hfile), in_world_run.
    rewrite (try_except_ok _ _ _ _ _
               (extract_file_body_mismatch _ _ _ dest _ _ _ _ Hfile Hfault Hdec Hstored Hne Hdiff)).
    eexists. split; [reflexivity|]. simpl. auto.
  - intros Hdec.
    rewrite (extract_file_found _ _ _ _ _ Hget Hfile), in_world_run.
    rewrite (try_except_ok _ _ _ _ _
               (extract_file_body_undecryptable _ meta _ dest _ _ Hfile Hfault Hdec)).
    eexists. split; [reflexivity|]. simpl. auto.
Qed.

Lemma extract_file_integrity_failure_witness :
  exists s',
    extract_file "aa11" "/out" sample_vault_tampered = (Ok None, s') /\
    w_files (vm_world s') = w_files (vm_world sample_vault_tampered) /\
    w_stdout (vm_world s') = [VaultIntegrityCheckFailed].
Proof.
  destruct (extract_file_integrity_failure "aa11" "/out" sample_vault_tampered
              sample_meta (replicate 16 x4b ++ [x68; x75; x6c; x6c; x6f]) "hello")
    as [Hmismatch _].
  - reflexivity.
  - vm_compute. reflexivity.
  - reflexivity.
  - reflexivity.
  - discriminate.
  - destruct (Hmismatch [x68; x75; x6c; x6c; x6f]) as (s' & Hrun & Hfiles & _ & Hout).
    + vm_compute. reflexivity.
    + vm_compute. discriminate.
    + exists s'. auto.
Defined.

(** C3 (as stated) fails.  The vault [sample_vault_tampered] holds a file
    that decrypts to a text whose digest is not the stored one, the vault
    [sample_vault_corrupt] a file that does not decrypt: [extract_file]
    returns the same value on both.  And under an entry whose stored
    "sha256" is the empty string the same text, whose digest differs from
    it, is written out. *)
Lemma extract_file_failures_not_distinct :
  (decrypt_file (_crypto (vm_self sample_vault_tampered))
     (replicate 16 x4b ++ [x68; x75; x6c; x6c; x6f]) = Some [x68; x75; x6c; x6c; x6f] /\
   sha256_hex [x68; x75; x6c; x6c; x6f] <> "hello" /\
   decrypt_file (_crypto (vm_self sample_vault_corrupt)) [x00; x01; x02] = None /\
   fst (extract_file "aa11" "/out" sample_vault_tampered) = Ok None /\
   fst (extract_file "aa11" "/out" sample_vault_corrupt) = Ok None) /\
  (sha256_hex [x68; x75; x6c; x6c; x6f] <> "" /\
   fst (extract_file "aa11" "/out" sample_vault_blank_hash) = Ok (Some "/out/note.txt") /\
   w_files (vm_world (snd (extract_file "aa11" "/out" sample_vault_blank_hash)))
     !! "/out/note.txt" = Some [x68; x75; x6c; x6c; x6f]).
Proof.
  repeat split; try (vm_compute; reflexivity); vm_compute; discriminate.
Qed.

Lemma avoid_collision_form fuel (fs : gmap string bytes) dest stem suffix :
  forall out_path counter,
    avoid_collision fuel fs dest stem suffix out_path counter = out_path \/
    exists k, avoid_collision fuel fs dest stem suffix out_path counter
              = renamed dest stem suffix k.
Proof.
  induction fuel as [|fuel IH]; intros out_path counter; simpl.
  - left. destruct (fs !! out_path); reflexivity.
  - destruct (fs !! out_path); [|left; reflexivity].
    fold (renamed dest stem suffix counter).
    destruct (IH (renamed dest stem suffix counter) (S counter)) as [-> | [k ->]]; eauto.
Qed.

Lemma extract_file_body_unchecked {L : Platform} crypto meta vault_path dest
    fs tr out ent drawn clk rd ct plaintext :
  fs !! vault_path = Some ct ->
  decrypt_file crypto ct = Some plaintext ->
  sha256 meta = None \/ sha256 meta = Some "" ->
  let first_choice := path_join dest (original_name meta) in
  let out_path := avoid_collision (S (size fs)) fs dest (path_stem first_choice)
                    (path_suffix first_choice) first_choice 1 in
  extract_file_body crypto meta vault_path dest (mkWorld fs [] tr out ent drawn clk rd) =
    (Ok (Some out_path),
     mkWorld (<[out_path := plaintext]> fs) []
       (tr ++ [(IoReadBytes vault_path, true); (IoOpen out_path ModeWB, true);
               (IoWrite out_path 0 plaintext, true); (IoClose out_path, true)])
       out ent drawn clk rd).
Proof.
  intros Hfile Hdec Hblank first_choice out_path. unfold extract_file_body.
  run_bind ltac:(
    unfold read_bytes;
    run_bind ltac:(apply io_run; [reflexivity | simpl; rewrite Hfile; reflexivity]);
    unfold file_content; msimpl; rewrite Hfile; reflexivity).
  rewrite Hdec.
  replace (default "" (sha256 meta)) with "" by (destruct Hblank as [-> | ->]; reflexivity).
  rewrite (bool_decide_eq_true_2 ("" = "")) by reflexivity. msimpl.
  run_bind ltac:(idtac; reflexivity).
  fold first_choice. fold out_path.
  run_bind ltac:(apply write_bytes_run).
  rewrite <- !app_assoc. reflexivity.
Qed.

(** C9.  For an entry whose "sha256" is absent or the empty string, whose
    backing file decrypts, and with no I/O failure, [extract_file] writes
    the decrypted plaintext to a path of the destination directory that
    did not exist and returns that path; it prints nothing and changes no
    other file.  The digest function is any function: the outcome does not
    depend on the digest of the plaintext. *)
Theorem extract_file_without_stored_hash {L : Platform}
    vault_id dest (s : VMState) meta ct plaintext :
  dict_get vault_id (_index (vm_self s)) = Some meta ->
  w_files (vm_world s) !! path_join VAULT_DIR (vault_file meta) = Some ct ->
  w_faults (vm_world s) = [] ->
  decrypt_file (_crypto (vm_self s)) ct = Some plaintext ->
  sha256 meta = None \/ sha256 meta = Some "" ->
  exists out_path s',
    extract_file vault_id dest s = (Ok (Some out_path), s') /\
    (out_path = path_join dest (original_name meta) \/
     exists k, out_path = renamed dest (path_stem (path_join dest (original_name meta)))
                            (path_suffix (path_join dest (original_name meta))) k) /\
    w_files (vm_world s) !! out_path = None /\
    w_files (vm_world s') = <[out_path := plaintext]> (w_files (vm_world s)) /\
    w_stdout (vm_world s') = w_stdout (vm_world s).
Proof.
  intros Hget Hfile Hfaults Hdec Hblank.
  rewrite (extract_file_found _ _ _ _ _ Hget Hfile), in_world_run.
  destruct s as [self [fs faults tr out ent drawn clk rd]].
  cbn [vm_self vm_world w_files w_faults] in *. subst faults.
  rewrite (try_except_ok _ _ _ _ _
             (extract_file_body_unchecked _ _ _ dest _ _ _ _ _ _ _ _ _ Hfile Hdec Hblank)).
  eexists _, _. split; [reflexivity|]. msimpl.
  split; [apply avoid_collision_form|].
  split; [apply avoid_collision_fresh|]. auto.
Qed.

Lemma extract_file_without_stored_hash_witness :
  exists out_path s',
    extract_file "aa11" "/out" sample_vault_blank_hash = (Ok (Some out_path), s') /\
    w_files (vm_world s') !! out_path = Some [x68; x75; x6c; x6c; x6f].
Proof.
  destruct (extract_file_without_stored_hash "aa11" "/out" sample_vault_blank_hash
              (mkMeta "note.txt" "aa11.enc" 1700000000 5 (Some ""))
              (replicate 16 x4b ++ [x68; x75; x6c; x6c; x6f]) [x68; x75; x6c; x6c; x6f])
    as (out_path & s' & Hrun & _ & _ & Hfiles & _).
  - reflexivity.
  - vm_compute. reflexivity.
  - reflexivity.
  - vm_compute. reflexivity.
  - right. reflexivity.
  - exists out_path, s'. split; [exact Hrun|]. rewrite Hfiles. apply lookup_insert_eq.
Defined.

(** ** Adding a file *)

Lemma dict_get_set {V} k (v : V) d : dict_get k (dict_set k v d) = Some v.
Proof.
  induction d as [|[k' v'] d IH]; simpl.
  - rewrite decide_True by reflexivity. reflexivity.
  - destruct (decide (k = k')) as [->|Hne]; simpl.
    + rewrite decide_True by reflexivity. reflexivity.
    + rewrite decide_False by exact Hne. exact IH.
Qed.

Lemma in_world_ok {A} (m : M World A) (s : VMState) a w' :
  m (vm_world s) = (Ok a, w') -> in_world m s = (Ok a, mkVMState (vm_self s) w').
Proof. intros H. rewrite in_world_run, H. reflexivity. Qed.

Lemma encrypt_file_run {L : Platform} key plaintext fs faults tr out ent drawn clk rd :
  encrypt_file (mkVaultCrypto (Some key)) plaintext (mkWorld fs faults tr out ent drawn clk rd) =
    (Ok (fernet_encrypt key (clk rd) (map ent (seq drawn 16)) plaintext),
     mkWorld fs faults tr out ent (drawn + 16) clk (S rd)).
Proof. reflexivity. Qed.

Lemma read_bytes_run_world p data fs tr out ent drawn clk rd :
  fs !! p = Some data ->
  read_bytes p (mkWorld fs [] tr out ent drawn clk rd) =
    (Ok data, mkWorld fs [] (tr ++ [(IoReadBytes p, true)]) out ent drawn clk rd).
Proof.
  intros Hfile. unfold read_bytes.
  run_bind ltac:(apply io_run; [reflexivity | simpl; rewrite Hfile; reflexivity]).
  unfold file_content. msimpl. rewrite Hfile. reflexivity.
Qed.

(** C5 (as amended).  [add_file] makes no collision check.  With a live
    cipher, a readable source and no I/O failure it returns [True], prints
    nothing, and whether or not the derived vault id is already a key of
    the index and whether or not the storage file already exists, the
    index entry under that id is the new one (an existing key keeps its
    place, its old entry is replaced) and the storage file holds the new
    ciphertext (an existing file is overwritten). *)
Theorem add_file_overwrites_on_collision {L : Platform}
    source_path (wipe_original : bool) (s : VMState) key plaintext :
  _fernet (_crypto (vm_self s)) = Some key ->
  w_files (vm_world s) !! source_path = Some plaintext ->
  w_faults (vm_world s) = [] ->
  let w := vm_world s in
  let vault_stem :=
    sha256_hex (encode (path_name source_path
                        ++ show_time (w_clock w (S (w_reads w))))%string) in
  let vault_path := path_join VAULT_DIR (vault_stem ++ ".enc")%string in
  let vault_id := str_take 16 vault_stem in
  let meta :=
    {| original_name := path_name source_path;
       vault_file := path_name vault_path;
       added_at := w_clock w (S (S (w_reads w)));
       size_bytes := length plaintext;
       sha256 := Some (sha256_hex plaintext) |} in
  let ciphertext := fernet_encrypt key (w_clock w (w_reads w)) (nth_draw w 16 0) plaintext in
  let index' := dict_set vault_id meta (_index (vm_self s)) in
  let index_token :=
    fernet_encrypt key (w_clock w (S (S (S (w_reads w))))) (nth_draw w 16 1)
      (json_dumps index') in
  exists s',
    add_file source_path wipe_original s = (Ok true, s') /\
    _index (vm_self s') = index' /\
    dict_get vault_id (_index (vm_self s')) = Some meta /\
    w_files (vm_world s') =
      (if wipe_original then delete source_path else id)
        (<[VAULT_INDEX := index_token]> (<[vault_path := ciphertext]> (w_files w))) /\
    w_stdout (vm_world s') = w_stdout w.
Proof.
  intros Hkey Hsrc Hfaults.
  destruct s as [[[fernet] index] [fs faults tr out ent drawn clk rd]].
  cbn [vm_self vm_world w_files w_faults _crypto _fernet _index] in *. subst fernet faults.
  cbv zeta. msimpl.
  set (vault_stem := sha256_hex (encode (path_name source_path ++ show_time (clk (S rd)))%string)).
  set (vault_path := path_join VAULT_DIR (vault_stem ++ ".enc")%string).
  set (meta := mkMeta _ _ _ _ _).
  unfold nth_draw. msimpl. rewrite Nat.add_0_r, Nat.mul_1_l.
  set (ciphertext := fernet_encrypt key (clk rd) _ plaintext).
  set (index' := dict_set (str_take 16 vault_stem) meta index).
  set (index_token := fernet_encrypt key _ _ (json_dumps index')).
  assert (Hstill : exists c, <[VAULT_INDEX := index_token]> (<[vault_path := ciphertext]> fs)
                               !! source_path = Some c).
  { apply lookup_insert_is_Some'. right. apply lookup_insert_is_Some'. right. eauto. }
  destruct Hstill as [c Hstill].
  assert (Hbody : exists w',
    add_file_body source_path wipe_original
      (mkVMState (mkVaultManager (mkVaultCrypto (Some key)) index)
                 (mkWorld fs [] tr out ent drawn clk rd)) =
      (Ok true, mkVMState (mkVaultManager (mkVaultCrypto (Some key)) index') w') /\
    w_files w' = (if wipe_original then delete source_path else id)
                   (<[VAULT_INDEX := index_token]> (<[vault_path := ciphertext]> fs)) /\
    w_stdout w' = out).
  { unfold add_file_body.
    run_bind ltac:(apply in_world_ok, read_bytes_run_world; exact Hsrc).
    run_bind ltac:(idtac; reflexivity).
    run_bind ltac:(apply in_world_ok, encrypt_file_run).
    run_bind ltac:(apply in_world_ok; reflexivity).
    fold vault_stem. fold vault_path. fold ciphertext.
    run_bind ltac:(apply in_world_ok, write_bytes_run).
    run_bind ltac:(apply in_world_ok; reflexivity).
    run_bind ltac:(idtac; reflexivity).
    unfold get_file_integrity_hash. fold meta. fold index'.
    run_bind ltac:(
      unfold _save_index;
      run_bind ltac:(idtac; reflexivity);
      run_bind ltac:(apply in_world_ok, encrypt_file_run);
      fold index_token;
      apply in_world_ok, write_bytes_run).
    destruct wipe_original.
    - run_bind ltac:(apply in_world_ok, (secure_delete_run source_path c); exact Hstill).
      eexists. split; [reflexivity|]. split; reflexivity.
    - run_bind ltac:(idtac; reflexivity).
      eexists. split; [reflexivity|]. split; reflexivity. }
  destruct Hbody as (w' & Hbody & Hfiles & Hout).
  eexists. split; [apply try_except_ok; exact Hbody|].
  msimpl. split; [reflexivity|]. split; [apply dict_get_set|]. auto.
Qed.

Lemma add_file_overwrites_on_collision_witness :
  exists s',
    add_file "/b/note.txt" false sample_vault_one_added = (Ok true, s') /\
    dict_get "note.txt17000000" (_index (vm_self s')) =
      Some {| original_name := "note.txt";
              vault_file := "note.txt1700000000.enc";
              added_at := 1700000000;
              size_bytes := 7;
              sha256 := Some "second!" |}.
Proof.
  destruct (add_file_overwrites_on_collision "/b/note.txt" false sample_vault_one_added
              sample_key [x73; x65; x63; x6f; x6e; x64; x21])
    as (s' & Hrun & _ & Hget & _).
  - reflexivity.
  - vm_compute. reflexivity.
  - vm_compute. reflexivity.
  - exists s'. split; [exact Hrun|]. vm_compute in Hget. exact Hget.
Defined.

(** C5 (as stated) fails.  Two different files named note.txt are added
    while the clock reads the same time, so both derive the same storage
    name and vault id.  The second [add_file] returns [True] and prints
    nothing; the entry of the first file is replaced by that of the second
    and the storage file of the first is overwritten. *)
Lemma add_file_collision_overwrites :
  dict_get "note.txt17000000" (_index (vm_self sample_vault_one_added)) =
    Some {| original_name := "note.txt";
            vault_file := "note.txt1700000000.enc";
            added_at := 1700000000;
            size_bytes := 5;
            sha256 := Some "first" |} /\
  w_files (vm_world sample_vault_one_added) !! "/home/u/.secure_vault/note.txt1700000000.enc"
    = Some (replicate 16 x4b ++ [x66; x69; x72; x73; x74]) /\
  fst (add_file "/b/note.txt" false sample_vault_one_added) = Ok true /\
  w_stdout (vm_world (snd (add_file "/b/note.txt" false sample_vault_one_added))) = [] /\
  _index (vm_self (snd (add_file "/b/note.txt" false sample_vault_one_added))) =
    [("note.txt17000000",
      {| original_name := "note.txt";
         vault_file := "note.txt1700000000.enc";
         added_at := 1700000000;
         size_bytes := 7;
         sha256 := Some "second!" |})] /\
  w_files (vm_world (snd (add_file "/b/note.txt" false sample_vault_one_added)))
    !! "/home/u/.secure_vault/note.txt1700000000.enc"
    = Some (replicate 16 x4b ++ [x73; x65; x63; x6f; x6e; x64; x21]).
Proof. repeat split; vm_compute; reflexivity. Qed.

(** ** Listing *)

Lemma insert_desc_perm x l : Permutation (insert_desc x l) (x :: l).
Proof.
  induction l as [|y l IH]; simpl; [reflexivity|].
  destruct (l_added_at x <? l_added_at y)%Z; [|reflexivity].
  rewrite IH. apply perm_swap.
Qed.

Lemma sort_added_at_desc_perm l : Permutation (sort_added_at_desc l) l.
Proof.
  induction l as [|x l IH]; simpl; [reflexivity|].
  rewrite insert_desc_perm, IH. reflexivity.
Qed.

Lemma insert_desc_sorted x l :
  StronglySorted newer_first l -> StronglySorted newer_first (insert_desc x l).
Proof.
  induction l as [|y l IH]; intros Hs; simpl.
  - repeat constructor.
  - inversion Hs as [|? ? Hl Hy]; subst.
    destruct (l_added_at x <? l_added_at y)%Z eqn:Hcmp.
    + apply Z.ltb_lt in Hcmp. constructor; [apply IH; exact Hl|].
      rewrite insert_desc_perm. constructor; [unfold newer_first; lia | exact Hy].
    + apply Z.ltb_ge in Hcmp. constructor; [exact Hs|].
      constructor; [exact Hcmp|].
      eapply Forall_impl; [exact Hy|]. unfold newer_first. simpl. intros z Hz. lia.
Qed.

Lemma sort_added_at_desc_sorted l : StronglySorted newer_first (sort_added_at_desc l).
Proof.
  induction l as [|x l IH]; simpl; [constructor | apply insert_desc_sorted, IH].
Qed.

(** Stability: entries added at the same time keep their order. *)
Lemma insert_desc_stable t x l :
  List.filter (fun e => (l_added_at e =? t)%Z) (insert_desc x l) =
  List.filter (fun e => (l_added_at e =? t)%Z) (x :: l).
Proof.
  induction l as [|y l IH]; [reflexivity|].
  simpl insert_desc. destruct (l_added_at x <? l_added_at y)%Z eqn:Hcmp; [|reflexivity].
  apply Z.ltb_lt in Hcmp.
  change (List.filter ?f (y :: ?r)) with (if f y then y :: List.filter f r else List.filter f r).
  rewrite IH. simpl.
  destruct (l_added_at y =? t)%Z eqn:Hy; [|reflexivity].
  apply Z.eqb_eq in Hy.
  rewrite (proj2 (Z.eqb_neq (l_added_at x) t)) by lia. reflexivity.
Qed.

Lemma sort_added_at_desc_stable t l :
  List.filter (fun e => (l_added_at e =? t)%Z) (sort_added_at_desc l) =
  List.filter (fun e => (l_added_at e =? t)%Z) l.
Proof.
  induction l as [|x l IH]; [reflexivity|].
  simpl sort_added_at_desc. rewrite insert_desc_stable. simpl. rewrite IH. reflexivity.
Qed.

Section Listing.
Context {L : Platform}.

Lemma list_files_loop_run (s : VMState) items :
  forall results,
    list_files_loop items results s =
      (Ok (results ++ map (fun e => listing_of e.1 e.2)
                          (List.filter (fun e => backed (vm_world s) e.2) items)), s).
Proof.
  destruct s as [self w].
  induction items as [|[vault_id meta] items IH]; intros results; simpl.
  - rewrite app_nil_r. reflexivity.
  - run_bind ltac:(rewrite in_world_run; reflexivity).
    unfold path_exists. cbn [snd].
    rewrite IH. fold (backed w meta).
    destruct (backed w meta); simpl; [|reflexivity].
    rewrite <- app_assoc. reflexivity.
Qed.

Lemma list_files_run (s : VMState) :
  list_files s = (Ok (sort_added_at_desc (backed_entries s)), s).
Proof.
  unfold list_files.
  run_bind ltac:(idtac; reflexivity).
  run_bind ltac:(apply list_files_loop_run).
  reflexivity.
Qed.

End Listing.

Example list_files_sample :
  list_files sample_vault_three =
    (Ok [mkListing "dd44" "d.txt" 1700000007 4 "d";
         mkListing "aa11" "a.txt" 1700000005 1 "a";
         mkListing "cc33" "c.txt" 1700000005 3 ""],
     sample_vault_three).
Proof. vm_compute. reflexivity. Qed.

(** C7.  In every state [list_files] returns the dicts of exactly the index
    entries whose backing ciphertext file exists (a permutation of them,
    so an entry whose file is missing does not appear), sorted by
    "added_at" in descending order; entries with equal "added_at" keep
    their index order. *)
Theorem list_files_backed_sorted {L : Platform} (s : VMState) :
  exists result,
    list_files s = (Ok result, s) /\
    Permutation result (backed_entries s) /\
    (forall e, In e result <->
       exists vault_id meta,
         In (vault_id, meta) (_index (vm_self s)) /\
         is_Some (w_files (vm_world s) !! path_join VAULT_DIR (vault_file meta)) /\
         e = listing_of vault_id meta) /\
    StronglySorted newer_first result /\
    (forall t, List.filter (fun e => (l_added_at e =? t)%Z) result =
               List.filter (fun e => (l_added_at e =? t)%Z) (backed_entries s)).
Proof.
  exists (sort_added_at_desc (backed_entries s)).
  split; [apply list_files_run|].
  split; [apply sort_added_at_desc_perm|].
  split; [|split; [apply sort_added_at_desc_sorted | intros t; apply sort_added_at_desc_stable]].
  intros e. split.
  - intros Hin. apply (Permutation_in _ (sort_added_at_desc_perm _)) in Hin.
    unfold backed_entries in Hin. apply in_map_iff in Hin as ([vault_id meta] & <- & Hin).
    apply filter_In in Hin as [Hin Hb].
    exists vault_id, meta. split; [exact Hin|]. split; [|reflexivity].
    unfold backed in Hb. simpl in Hb. apply bool_decide_eq_true_1 in Hb. exact Hb.
  - intros (vault_id & meta & Hin & Hsome & ->).
    apply (Permutation_in _ (Permutation_sym (sort_added_at_desc_perm _))).
    unfold backed_entries. apply in_map_iff.
    exists (vault_id, meta). split; [reflexivity|].
    apply filter_In. split; [exact Hin|].
    unfold backed. simpl. apply bool_decide_eq_true_2. exact Hsome.
Qed.

(** C10.  [list_files] changes nothing: it returns normally and the state
    after it (the index and the cipher of the vault manager, the files,
    the fault schedule, the trace of I/O calls, the output, entropy and
    clock) is the state before it; entries whose backing file is missing
    stay in the index. *)
Theorem list_files_changes_nothing {L : Platform} (s : VMState) :
  exists result, list_files s = (Ok result, s).
Proof. eexists. apply list_files_run. Qed.

(** ** The session controller *)


Section SecurityLogFacts.
Context {L : Platform}.

(** *** The security log *)

Lemma logger_log_run level message w :
  exists w', logger_log level message w = (Ok tt, w') /\ log_only w w'.
Proof.
  unfold logger_log. run_bind ltac:(idtac; reflexivity).
  match goal with |- context [ try_except (io ?c) _ ?w0 ] =>
    destruct (io c w0) as [r w1] eqn:Hio;
    pose proof (io_frame _ _ _ _ Hio) as [Hfiles [ok Htrace]];
    assert (Hrest : w_stdout w1 = w_stdout w /\ w_entropy w1 = w_entropy w /\
                    w_drawn w1 = w_drawn w)
      by (unfold io in Hio; simpl in Hio;
          destruct (default false (head (w_faults w))); injection Hio as _ <-; auto)
  end.
  destruct Hrest as (Hout & Hent & Hdrawn). simpl in Hfiles, Htrace.
  assert (Hlog : log_only w w1).
  { split; [exact Hfiles|]. split; [exact Hout|]. split; [exact Hent|].
    split; [exact Hdrawn|]. eexists. split; [exact Htrace|].
    repeat constructor. eexists. reflexivity. }
  unfold try_except. rewrite Hio.
  destruct r as [[]|e]; eexists; (split; [reflexivity | exact Hlog]).
Qed.

Lemma log_call_run e w : log_call e w = (Ok tt, logged e w).
Proof.
  unfold logged.
  assert (H : exists w', log_call e w = (Ok tt, w')).
  { destruct e; unfold log_call, log_event, log_warning, log_failure;
      match goal with |- context [ logger_log ?l ?m w ] =>
        destruct (logger_log_run l m w) as (w' & Hrun & _)
      end; eauto. }
  destruct H as (w' & ->). reflexivity.
Qed.

Lemma logged_log_only e w : log_only w (logged e w).
Proof.
  unfold logged.
  destruct e; unfold log_call, log_event, log_warning, log_failure;
    match goal with |- context [ logger_log ?l ?m w ] =>
      destruct (logger_log_run l m w) as (w' & -> & Hlog)
    end; exact Hlog.
Qed.



(** A call of the log never raises: the record is kept, and the world is
    the one after the logging. *)
Lemma log_run e s :
  log e s = (Ok tt, set_world (logged e (mw_world s))
                      (set_security_log (security_log s ++ [e]) s)).
Proof.
  unfold log. run_bind ltac:(idtac; reflexivity).
  unfold in_mw_world, zoom. cbn [mw_world set_security_log].
  rewrite log_call_run. reflexivity.
Qed.

End SecurityLogFacts.

(** Runs the first computation of a bind in the goal, a call of the log
    or one that computes. *)
Ltac run_next :=
  first [ run_bind ltac:(apply log_run) | run_bind ltac:(idtac; reflexivity) ].

(** Splits the conjunctions that are written in the goal. *)
Ltac splits := repeat match goal with |- _ /\ _ => split end.

Section SessionFacts.
Context {L : Platform}.








Lemma end_lockout_run s :
  exists s',
    _end_lockout s = (Ok tt, s') /\
    _failed_attempts s' = 0 /\ _locked_out s' = false /\
    lockout_timers s' = lockout_timers s /\ loop_time s' = loop_time s /\
    _usb_path s' = _usb_path s /\ _auto_lock_timer s' = _auto_lock_timer s /\
    current_index s' = current_index s /\ _vault_manager s' = _vault_manager s /\
    log_only (mw_world s) (mw_world s').
Proof.
  unfold _end_lockout. run_next. run_next. run_next.
  eexists. split; [apply log_run|]. simpl. splits; try reflexivity.
  apply logged_log_only.
Qed.


Lemma in_mw_world_inv {A} (m : M World A) s r s1 :
  in_mw_world m s = (r, s1) ->
  exists w', m (mw_world s) = (r, w') /\ s1 = set_world w' s.
Proof.
  unfold in_mw_world, zoom. destruct (m (mw_world s)) as [r0 w']. intros [= <- <-]. eauto.
Qed.


Lemma try_except_total {St A} (body : M St A) handler s :
  (forall e s0, exists a s', handler e s0 = (Ok a, s')) ->
  exists a s', try_except body handler s = (Ok a, s').
Proof.
  intros Hh. unfold try_except. destruct (body s) as [[a|e] s0]; eauto.
Qed.

(** Loading the index never raises. *)
Lemma load_index_total crypto w :
  exists index w', _load_index crypto w = (Ok index, w').
Proof.
  unfold _load_index.
  run_bind ltac:(idtac; reflexivity).
  destruct (bool_decide (is_Some (w_files w !! VAULT_INDEX))); msimpl.
  - apply try_except_total. intros e s0. eexists _, _. reflexivity.
  - eexists _, _. reflexivity.
Qed.

(** Building the vault manager never raises. *)
Lemma new_VaultManager_total crypto w :
  exists index w', new_VaultManager crypto w = (Ok (mkVaultManager crypto index), w').
Proof.
  destruct (load_index_total crypto w) as (index & w' & Hload).
  exists index, w'. unfold new_VaultManager.
  run_bind ltac:(idtac; reflexivity). run_bind ltac:(exact Hload). reflexivity.
Qed.

Lemma switch_to_vault_frame s :
  exists s',
    _switch_to_vault s = (Ok tt, s') /\
    _failed_attempts s' = _failed_attempts s /\ _locked_out s' = _locked_out s /\
    lockout_timers s' = lockout_timers s /\ loop_time s' = loop_time s /\
    current_index s' = PAGE_VAULT /\ _vault_manager s' = _vault_manager s /\
    login_error s' = login_error s.
Proof.
  unfold _switch_to_vault, _refresh_file_list.
  destruct (_vault_manager s) as [vm|] eqn:Hvm.
  - run_bind ltac:(
      run_bind ltac:(unfold with_vault_manager; rewrite Hvm, list_files_run; reflexivity);
      reflexivity).
    eexists. split; [reflexivity|]. simpl. rewrite ?Hvm. repeat split.
  - run_bind ltac:(
      run_bind ltac:(unfold with_vault_manager; rewrite Hvm; reflexivity);
      reflexivity).
    eexists. split; [reflexivity|]. simpl. rewrite ?Hvm. repeat split.
Qed.

Lemma trigger_lockout_run s :
  _trigger_lockout s =
    (Ok tt,
     set_lockout_timers (lockout_timers s ++ [(loop_time s + LOCKOUT_SECONDS * 1000)%N])
       (set_login_error (Some (ErrLockedFor LOCKOUT_SECONDS))
          (set_world (logged (LogAuthLockout LOCKOUT_SECONDS) (mw_world s))
             (set_security_log (security_log s ++ [LogAuthLockout LOCKOUT_SECONDS])
                (set_locked_out true s))))).
Proof. unfold _trigger_lockout. run_next. run_next. run_next. reflexivity. Qed.


(** A secret that opens the envelope to a 32-byte key unlocks the vault
    when the window is not locked out and a USB key is connected. *)
Lemma unlock_success secret is_recovery s usb master_key w' :
  _locked_out s = false ->
  _usb_path s = Some usb ->
  load_usb_key usb (strip secret) is_recovery (mw_world s) = (Ok (Some master_key), w') ->
  length master_key = 32 ->
  exists s',
    _on_unlock_requested secret is_recovery s = (Ok Unlocked, s') /\
    _failed_attempts s' = 0 /\ _locked_out s' = false /\
    current_index s' = PAGE_VAULT /\ is_Some (_vault_manager s') /\
    login_error s' = None.
Proof.
  intros Hlocked Husb Hload Hlen. unfold _on_unlock_requested.
  run_bind ltac:(idtac; reflexivity). rewrite Hlocked, Husb.
  run_bind ltac:(unfold in_mw_world, zoom; rewrite Hload; reflexivity).
  destruct master_key as [|b key]; [discriminate|]. cbn [truthy].
  run_next. run_next. run_next. run_next.
  run_bind ltac:(unfold lift_result, new_VaultCrypto;
                 rewrite decide_True by exact Hlen; reflexivity).
  match goal with |- context [ mbind _ (in_mw_world (new_VaultManager ?c)) ?s0 ] =>
    destruct (new_VaultManager_total c (mw_world s0)) as (index & w2 & Hvm)
  end.
  run_bind ltac:(unfold in_mw_world, zoom; rewrite Hvm; reflexivity).
  run_bind ltac:(idtac; reflexivity).
  match goal with |- context [ mbind _ _switch_to_vault ?s0 ] =>
    destruct (switch_to_vault_frame s0) as (s' & Hrun & Hf & Hl & _ & _ & Hp & Hv & He)
  end.
  run_bind ltac:(exact Hrun).
  exists s'. split; [reflexivity|].
  rewrite Hf, Hl, Hp, Hv, He. simpl. eauto 10.
Qed.







End SessionFacts.




Lemma sample_padded_five_failures :
  consecutive_failures MAX_FAILED_ATTEMPTS sample_window_padded
    (sample_padded_after_failures 5).
Proof.
  assert (Hstep : forall n o,
            _on_unlock_requested "guess" false (sample_padded_after_failures n)
              = (Ok o, sample_padded_after_failures (S n)) ->
            o = WrongSecret \/ o = WrongSecretLockout ->
            consecutive_failures n sample_window_padded (sample_padded_after_failures n) ->
            consecutive_failures (S n) sample_window_padded
              (sample_padded_after_failures (S n))).
  { intros n o Hrun Ho Hcf. exact (cf_failure _ _ _ _ _ _ _ Hcf Hrun Ho). }
  apply (Hstep 4 WrongSecretLockout); [vm_compute; reflexivity | right; reflexivity |].
  apply (Hstep 3 WrongSecret); [vm_compute; reflexivity | left; reflexivity |].
  apply (Hstep 2 WrongSecret); [vm_compute; reflexivity | left; reflexivity |].
  apply (Hstep 1 WrongSecret); [vm_compute; reflexivity | left; reflexivity |].
  apply (Hstep 0 WrongSecret); [vm_compute; reflexivity | left; reflexivity |].
  change (consecutive_failures 0 sample_window_padded sample_window_padded).
  assert (Hreach : reachable sample_window_padded).
  { exists sample_enrolled_padded, [EvUsbConnected "/media/usb"]. vm_compute. reflexivity. }
  assert (Hcount : _failed_attempts sample_window_padded = 0) by (vm_compute; reflexivity).
  exact (cf_start sample_window_padded Hreach Hcount).
Qed.

(** C2 (as stated) fails.  A device is enrolled with the password
    "correcthorse " (a space at its end), which the setup dialog hands to
    [create_usb_key] as typed.  That password is correct: [load_usb_key]
    opens the envelope with it to the 32-byte master key drawn at
    enrollment.  Five wrong guesses lock the window; once the 30 seconds
    have passed the failure count is 0 and the window is not locked out,
    and the envelope still opens with the password; yet the unlock request
    that carries it is answered as a wrong secret, the count goes to 1 and
    the login page stays: the handler strips the secret before it looks
    at it. *)
Lemma correct_secret_with_space_is_rejected :
  fst (load_usb_key "/media/usb" "correcthorse " false sample_enrolled_padded)
    = Ok (Some (master_key_drawn sample_world)) /\
  consecutive_failures MAX_FAILED_ATTEMPTS sample_window_padded
    (sample_padded_after_failures 5) /\
  let expired := elapse 30000 (sample_padded_after_failures 5) in
  let request := _on_unlock_requested "correcthorse " false (snd expired) in
  fst expired = Ok tt /\
  _failed_attempts (snd expired) = 0 /\ _locked_out (snd expired) = false /\
  _usb_path (snd expired) = Some "/media/usb" /\
  fst (load_usb_key "/media/usb" "correcthorse " false (mw_world (snd expired)))
    = Ok (Some (master_key_drawn sample_world)) /\
  length (master_key_drawn sample_world) = 32 /\
  fst request = Ok WrongSecret /\
  _failed_attempts (snd request) = 1 /\ current_index (snd request) = PAGE_LOGIN.
Proof.
  split; [vm_compute; reflexivity|].
  split; [exact sample_padded_five_failures|].
  cbv zeta. splits; vm_compute; reflexivity.
Qed.

(** * Further properties *)

(** ** Frame rules *)

#[global] Instance files_same_frame : FileFrame files_same.
Proof.
  split; unfold files_same.
  - auto.
  - intros w1 w2 w3 H12 H23. congruence.
Qed.

#[global] Instance others_same_frame p : FileFrame (others_same p).
Proof.
  split; unfold others_same.
  - intros w w' H q _. rewrite H. reflexivity.
  - intros w1 w2 w3 H12 H23 q Hq. rewrite H23, H12 by exact Hq. reflexivity.
Qed.

#[global] Instance only_changed_frame ps : FileFrame (only_changed ps).
Proof.
  split; unfold only_changed.
  - intros w w' H q _. rewrite H. reflexivity.
  - intros w1 w2 w3 H12 H23 q Hq. rewrite H23, H12 by exact Hq. reflexivity.
Qed.

#[global] Instance files_kept_frame : FileFrame files_kept.
Proof.
  split; unfold files_kept.
  - intros w w' H q c. rewrite H. auto.
  - intros w1 w2 w3 H12 H23 q c Hq. auto.
Qed.

Lemma frame_refl R `{!FileFrame R} w : R w w.
Proof. apply frame_files. reflexivity. Qed.

Section FrameRules.
Context {St : Type} (proj : St -> World) (R : relation World) `{!FileFrame R}.

Lemma respects_ret {A} (a : A) : respects proj R (mret a : M St A).
Proof. intros s r s' [= _ <-]. apply frame_refl; assumption. Qed.

Lemma respects_raise {A} e : respects proj R (raise e : M St A).
Proof. intros s r s' [= _ <-]. apply frame_refl; assumption. Qed.

Lemma respects_lift_result {A} (x : result A) : respects proj R (lift_result x : M St A).
Proof. intros s r s' [= _ <-]. apply frame_refl; assumption. Qed.

Lemma respects_get_state : respects proj R (get_state : M St St).
Proof. intros s r s' [= _ <-]. apply frame_refl; assumption. Qed.

Lemma respects_bind {A B} (m : M St A) (f : A -> M St B) :
  respects proj R m -> (forall a, respects proj R (f a)) -> respects proj R (m ≫= f).
Proof.
  intros Hm Hf s r s'. unfold mbind, M_bind, m_bind.
  destruct (m s) as [[a|e] s1] eqn:Hrun; intros Hrest.
  - eapply frame_trans; [exact (Hm _ _ _ Hrun) | exact (Hf _ _ _ _ Hrest)].
  - injection Hrest as _ <-. exact (Hm _ _ _ Hrun).
Qed.

Lemma respects_try_except {A} (body : M St A) handler :
  respects proj R body -> (forall e, respects proj R (handler e)) ->
  respects proj R (try_except body handler).
Proof.
  intros Hb Hh s r s'. unfold try_except.
  destruct (body s) as [[a|e] s1] eqn:Hrun; intros Hrest.
  - injection Hrest as _ <-. exact (Hb _ _ _ Hrun).
  - eapply frame_trans; [exact (Hb _ _ _ Hrun) | exact (Hh _ _ _ _ Hrest)].
Qed.

Lemma respects_modify (f : St -> St) :
  (forall s, w_files (proj (f s)) = w_files (proj s)) -> respects proj R (modify_state f).
Proof. intros Hf s r s' [= _ <-]. apply frame_files, Hf. Qed.

End FrameRules.

Section WorldFrames.
Context (R : relation World) `{!FileFrame R}.

Lemma respects_print l : respects id R (print l).
Proof. intros w r w' [= _ <-]. apply frame_files. reflexivity. Qed.

Lemma respects_token_bytes n : respects id R (token_bytes n).
Proof. intros w r w' [= _ <-]. apply frame_files. reflexivity. Qed.

Lemma respects_time_time : respects id R time_time.
Proof. intros w r w' [= _ <-]. apply frame_files. reflexivity. Qed.

Lemma respects_path_exists p : respects id R (path_exists p).
Proof. intros w r w' [= _ <-]. apply frame_files. reflexivity. Qed.

Lemma respects_file_content p : respects id R (file_content p).
Proof.
  intros w r w'. unfold file_content.
  destruct (w_files w !! p); intros [= _ <-]; apply frame_files; reflexivity.
Qed.

(** The calls that only look at a file or move within it. *)
Lemma respects_io_quiet c :
  match c with
  | IoOpen _ ModeWB | IoWrite _ _ _ | IoUnlink _ | IoAppend _ _ => False
  | _ => True
  end ->
  respects id R (io c).
Proof.
  intros Hc w r w'. unfold io.
  destruct (default false (head (w_faults w)));
    [intros [= _ <-]; apply frame_files; reflexivity|].
  destruct (apply_call c (w_files w)) as [fs'|] eqn:Hcall;
    intros [= _ <-]; apply frame_files; [|reflexivity].
  simpl. destruct c as [p|p []|p pos|p pos data|p|p|p|p|p|p data]; try destruct Hc;
    simpl in Hcall;
    repeat match type of Hcall with
           | match ?x with _ => _ end = _ => destruct x; try discriminate
           end;
    injection Hcall as <-; reflexivity.
Qed.

Lemma respects_read_bytes p : respects id R (read_bytes p).
Proof.
  apply respects_bind; [assumption | apply respects_io_quiet; exact I |].
  intros _. apply respects_file_content.
Qed.

Lemma respects_closing {A} p (body : M World A) :
  respects id R body -> respects id R (closing p body).
Proof.
  intros Hb w r w'. unfold closing.
  destruct (body w) as [rb w1] eqn:Hbody.
  destruct (io (IoClose p) w1) as [rc w2] eqn:Hclose.
  intros Hr. assert (w' = w2) as -> by (destruct rc; congruence).
  eapply frame_trans; [exact (Hb _ _ _ Hbody)|].
  exact (respects_io_quiet (IoClose p) I _ _ _ Hclose).
Qed.

End WorldFrames.

(** A call on [p] changes no other file. *)
Lemma respects_io_others c : respects id (others_same (call_path c)) (io c).
Proof. intros w r w' Hrun. apply io_frame in Hrun as [Hframe _]. exact Hframe. Qed.

Lemma respects_in_world {A} R (m : M World A) :
  respects id R m -> respects vm_world R (in_world m).
Proof.
  intros Hm s r s'. rewrite in_world_run. intros [= _ <-]. simpl.
  apply (Hm (vm_world s) (m (vm_world s)).1). destruct (m (vm_world s)); reflexivity.
Qed.

Lemma respects_io_only ps c :
  call_path c ∈ ps -> respects id (only_changed ps) (io c).
Proof.
  intros Hin w r w' Hrun. apply io_frame in Hrun as [Hframe _].
  intros q Hq. apply Hframe. intros ->. exact (Hq Hin).
Qed.

Lemma respects_write_bytes_only ps p data :
  p ∈ ps -> respects id (only_changed ps) (write_bytes p data).
Proof.
  intros Hin. unfold write_bytes.
  apply respects_bind; [typeclasses eauto | apply respects_io_only; exact Hin |].
  intros _. apply respects_closing; [typeclasses eauto|].
  apply respects_io_only. exact Hin.
Qed.

Lemma respects_repeat_n {St} proj R `{!FileFrame R} n (body : M St unit) :
  respects proj R body -> respects proj R (repeat_n n body).
Proof.
  intros Hb. induction n as [|n IH]; simpl.
  - apply respects_ret. assumption.
  - apply respects_bind; [assumption | exact Hb | intros _; exact IH].
Qed.

Ltac in_paths := simpl; first [assumption | repeat constructor].

(** Applies the frame rules along the structure of a computation. *)
Ltac frame_base :=
  lazymatch goal with
  | |- respects _ _ (mbind _ _) => apply respects_bind; [try typeclasses eauto | | intros ?]
  | |- respects _ _ (try_except _ _) =>
      apply respects_try_except; [try typeclasses eauto | | intros ?]
  | |- respects _ _ (mret _) => apply respects_ret; try typeclasses eauto
  | |- respects _ _ (raise _) => apply respects_raise; try typeclasses eauto
  | |- respects _ _ (lift_result _) => apply respects_lift_result; try typeclasses eauto
  | |- respects _ _ get_state => apply respects_get_state; try typeclasses eauto
  | |- respects _ _ (print _) => apply respects_print; try typeclasses eauto
  | |- respects _ _ (token_bytes _) => apply respects_token_bytes; try typeclasses eauto
  | |- respects _ _ time_time => apply respects_time_time; try typeclasses eauto
  | |- respects _ _ (path_exists _) => apply respects_path_exists; try typeclasses eauto
  | |- respects _ _ (file_content _) => apply respects_file_content; try typeclasses eauto
  | |- respects _ _ (read_bytes _) => apply respects_read_bytes; try typeclasses eauto
  | |- respects _ _ (closing _ _) => apply respects_closing; [try typeclasses eauto|]
  | |- respects _ _ (repeat_n _ _) => apply respects_repeat_n; [try typeclasses eauto|]
  | |- respects _ (only_changed _) (io _) => apply respects_io_only; in_paths
  | |- respects _ (only_changed _) (write_bytes _ _) =>
      apply respects_write_bytes_only; in_paths
  | |- respects _ _ (in_world _) => apply respects_in_world
  | |- respects _ _ (if ?b then _ else _) => destruct b
  | |- respects _ _ (match ?x with _ => _ end) => destruct x
  end.

Lemma respects_secure_delete_only ps path passes :
  path ∈ ps -> respects id (only_changed ps) (secure_delete path passes).
Proof.
  intros Hin. unfold secure_delete, stat_size, unlink, overwrite_pass.
  repeat frame_base.
Qed.

Ltac frame_step :=
  lazymatch goal with
  | |- respects _ (only_changed _) (secure_delete _ _) =>
      apply respects_secure_delete_only; in_paths
  | _ => frame_base
  end.

Ltac frame := repeat frame_step.

(** ** The key envelope, further *)

(** X1.  [load_usb_key] only reads: whatever the blob, the secret and the I/O
    failures, it leaves every file as it was. *)
Theorem load_usb_key_reads_only {L : Platform} usb_path secret is_recovery (w : World) :
  w_files (snd (load_usb_key usb_path secret is_recovery w)) = w_files w.
Proof.
  assert (H : respects id files_same (load_usb_key usb_path secret is_recovery)).
  { unfold load_usb_key, load_usb_key_body. cbv zeta. frame. }
  destruct (load_usb_key usb_path secret is_recovery w) as [r w'] eqn:Hrun.
  exact (H _ _ _ Hrun).
Qed.

(** X2.  [create_usb_key] never lets an exception out, and whether it succeeds
    or not it changes no file other than the key file of the device. *)
Theorem create_usb_key_touches_key_file_only {L : Platform} usb_path password (w : World) :
  exists r w',
    create_usb_key usb_path password w = (Ok r, w') /\
    forall q, q <> path_join usb_path KEY_FILE_NAME -> w_files w' !! q = w_files w !! q.
Proof.
  assert (H : respects id (only_changed [path_join usb_path KEY_FILE_NAME])
                (create_usb_key usb_path password)).
  { unfold create_usb_key, create_usb_key_body. cbv zeta. frame. }
  assert (Ht : exists r w', create_usb_key usb_path password w = (Ok r, w')).
  { unfold create_usb_key. apply try_except_total. intros e s0. eexists _, _. reflexivity. }
  destruct Ht as (r & w' & Hrun). exists r, w'. split; [exact Hrun|].
  intros q Hq. apply (H _ _ _ Hrun). intros Hin.
  apply list_elem_of_singleton in Hin. exact (Hq Hin).
Qed.

(** ** The recovery code *)

Lemma string_get_in i (s : string) c :
  String.get i s = Some c -> In c (list_ascii_of_string s).
Proof.
  revert i. induction s as [|d r IH]; intros i; [discriminate|].
  destruct i as [|i]; simpl.
  - intros [= ->]. left. reflexivity.
  - intros H. right. exact (IH i H).
Qed.

Lemma b64_char_code n : is_code_char (upper_ascii (b64_char n)) = true.
Proof.
  assert (Hall : forallb (fun c => is_code_char (upper_ascii c))
                   (list_ascii_of_string b64url_alphabet) = true)
    by (vm_compute; reflexivity).
  unfold b64_char.
  destruct (String.get (N.to_nat n) b64url_alphabet) as [c|] eqn:Hget;
    [|vm_compute; reflexivity].
  apply string_get_in in Hget.
  rewrite forallb_forall in Hall. exact (Hall c Hget).
Qed.

Lemma b32_char_ok n : is_b32_char (b32_char n) = true.
Proof.
  assert (Hall : forallb is_b32_char (list_ascii_of_string b32_alphabet) = true)
    by (vm_compute; reflexivity).
  unfold b32_char.
  destruct (String.get (N.to_nat n) b32_alphabet) as [c|] eqn:Hget;
    [|vm_compute; reflexivity].
  apply string_get_in in Hget.
  rewrite forallb_forall in Hall. exact (Hall c Hget).
Qed.

Lemma drop_one_miss (P : ascii -> bool) chars c r :
  forallb (fun p => match p with String a _ => negb (P a) | EmptyString => false end) chars
    = true ->
  P c = true ->
  drop_one chars (String c r) = None.
Proof.
  intros Hall Hc. induction chars as [|p chars IH]; [reflexivity|].
  cbn [forallb] in Hall. apply andb_prop in Hall as [Hp Hrest].
  cbn [drop_one]. destruct p as [|a p]; [discriminate Hp|].
  cbn [drop_prefix]. destruct (decide (a = c)) as [->|_].
  - rewrite Hc in Hp. discriminate Hp.
  - exact (IH Hrest).
Qed.

Lemma drop_leading_miss fuel chars s :
  drop_one chars s = None -> drop_leading fuel chars s = s.
Proof. intros H. destruct fuel; cbn [drop_leading]; [|rewrite H]; reflexivity. Qed.

Lemma string_forallb_In p s :
  string_forallb p s = true -> forall c, In c (list_ascii_of_string s) -> p c = true.
Proof.
  induction s as [|d s IH]; simpl; [intros _ c []|].
  intros [Hd Hs]%andb_prop c [<- | Hin]; auto.
Qed.

Lemma string_rev_involutive s : string_rev (string_rev s) = s.
Proof.
  unfold string_rev.
  rewrite list_ascii_of_string_of_list_ascii, rev_involutive.
  apply string_of_list_ascii_of_string.
Qed.

Lemma lstrip_code s : string_forallb is_code_char s = true -> lstrip s = s.
Proof.
  intros Hs. unfold lstrip. apply drop_leading_miss.
  destruct s as [|c r]; [reflexivity|].
  apply andb_prop in Hs as [Hc _].
  apply (drop_one_miss is_code_char); [vm_compute; reflexivity | exact Hc].
Qed.

Lemma rstrip_code s : string_forallb is_code_char s = true -> rstrip s = s.
Proof.
  intros Hs. unfold rstrip. rewrite drop_leading_miss; [apply string_rev_involutive|].
  pose proof (string_forallb_In _ _ Hs) as Hall. unfold string_rev at 2.
  destruct (rev (list_ascii_of_string s)) as [|c l] eqn:Hrev; [reflexivity|].
  assert (Hc : is_code_char c = true).
  { apply Hall, in_rev. rewrite Hrev. left. reflexivity. }
  cbn [string_of_list_ascii].
  apply (drop_one_miss is_code_char); [vm_compute; reflexivity | exact Hc].
Qed.

(** A string of capitals, digits, hyphens and underscores is what
    [str.strip] returns for it. *)
Lemma strip_code s : string_forallb is_code_char s = true -> strip s = s.
Proof.
  intros H. unfold strip. rewrite (lstrip_code s H). exact (rstrip_code s H).
Qed.

(** The code of a 12-byte token. *)
Lemma recovery_code_format (tok : bytes) :
  length tok = 12 ->
  String.length (upper (str_take 16 (b64url tok))) = 16 /\
  string_forallb is_code_char (upper (str_take 16 (b64url tok))) = true.
Proof.
  intros Hlen.
  do 13 (destruct tok as [|? tok]; try discriminate Hlen).
  cbn [b64url str_take upper String.length string_forallb].
  rewrite !b64_char_code. split; reflexivity.
Qed.

Section RecoveryCode.
Context {L : Platform}.

Lemma create_usb_key_code usb_path password R w w' :
  create_usb_key usb_path password w = (Ok (Some R), w') ->
  exists tok : bytes, length tok = 12 /\ R = upper (str_take 16 (b64url tok)).
Proof.
  unfold create_usb_key, try_except.
  destruct (create_usb_key_body usb_path password w) as [[r|e] w0] eqn:Hbody.
  2: { unfold mbind, M_bind, m_bind, print, mret, M_ret, m_ret. intros [=]. }
  intros [= -> ->]. unfold create_usb_key_body in Hbody.
  inv_bind Hbody as [] w0 Hp. clear Hp.
  inv_bind Hbody as salt_pw w1 Ht1. clear Ht1.
  inv_bind Hbody as salt_recovery w2 Ht2. clear Ht2.
  inv_bind Hbody as nonce w3 Ht3. clear Ht3.
  inv_bind Hbody as master_key w4 Ht4. clear Ht4.
  inv_bind Hbody as tok w5 Ht5. apply length_token in Ht5.
  inv_bind Hbody as ct_pw w6 Hpw. clear Hpw.
  inv_bind Hbody as ct_recovery w7 Hrec. clear Hrec.
  inv_bind Hbody as len_ct w8 Hlen. clear Hlen.
  inv_bind Hbody as [] w9 Hwrite. clear Hwrite.
  inv_bind Hbody as [] w10 Hp. clear Hp.
  injection Hbody as <- _. exists tok. auto.
Qed.

End RecoveryCode.

(** X3.  The recovery code that [create_usb_key] returns has 16 characters, all
    of them capitals, digits, hyphens or underscores; so the [strip] that
    the unlock handler applies to a secret leaves it as it is. *)
Theorem create_usb_key_recovery_code_format {L : Platform}
    usb_path password R (w w' : World) :
  create_usb_key usb_path password w = (Ok (Some R), w') ->
  String.length R = 16 /\ string_forallb is_code_char R = true /\ strip R = R.
Proof.
  intros Hcreate.
  apply create_usb_key_code in Hcreate as (tok & Hlen & ->).
  destruct (recovery_code_format tok Hlen) as [H16 Hchars].
  auto using strip_code.
Qed.

Lemma create_usb_key_recovery_code_format_witness :
  String.length "KRVA7JYNAFBEMRLE" = 16 /\
  string_forallb is_code_char "KRVA7JYNAFBEMRLE" = true /\
  strip "KRVA7JYNAFBEMRLE" = "KRVA7JYNAFBEMRLE".
Proof.
  apply (create_usb_key_recovery_code_format "/media/usb" "correcthorsebattery"
           "KRVA7JYNAFBEMRLE" sample_world sample_enrolled).
  vm_compute. reflexivity.
Defined.

(** X4.  Enrollment, then unlocking with the recovery code.  When
    [create_usb_key] returned the code [R], a window that is not locked
    out, sees the device and finds the key file as enrollment wrote it
    opens the vault on the request carrying [R]: the vault page is shown,
    a vault manager is held and the count of failures is zero.  The cipher
    is assumed to decrypt what it encrypted. *)
Theorem enrolled_recovery_code_unlocks {L : Platform}
    usb_path password R (w w' : World) (s : MainWindow) :
  aead_correct L ->
  create_usb_key usb_path password w = (Ok (Some R), w') ->
  _locked_out s = false ->
  _usb_path s = Some usb_path ->
  w_files (mw_world s) !! path_join usb_path KEY_FILE_NAME =
    w_files w' !! path_join usb_path KEY_FILE_NAME ->
  default false (head (w_faults (mw_world s))) = false ->
  exists s',
    _on_unlock_requested R true s = (Ok Unlocked, s') /\
    current_index s' = PAGE_VAULT /\ is_Some (_vault_manager s') /\
    _failed_attempts s' = 0 /\ _locked_out s' = false.
Proof.
  intros Haead Hcreate Hlocked Husb Hsame Hfault.
  pose proof (create_usb_key_code _ _ _ _ _ Hcreate) as (tok & Htok & HR).
  destruct (recovery_code_format tok Htok) as [_ Hchars]. rewrite <- HR in Hchars.
  apply create_usb_key_written in Hcreate
    as (salt_pw & salt_recovery & nonce & len_ct & ct_pw & ct_recovery
        & Hsp & Hsr & Hn & _ & Hrec & Hlen & Hfile).
  rewrite <- Hsame in Hfile.
  pose proof (length_master_key_drawn w) as Hmk.
  destruct (load_usb_key_blob usb_path R true _ _ _ _ _ _ _ (mw_world s)
              Hsp Hsr Hn Hlen Hmk Hfile Hfault (Haead _ _ _ _ _ Hrec)) as [v Hload].
  rewrite <- (strip_code R Hchars) in Hload.
  destruct (unlock_success R true s usb_path _ v Hlocked Husb Hload Hmk)
    as (s' & Hrun & Hf & Hl & Hp & Hv & _).
  exists s'. auto.
Qed.

Lemma enrolled_recovery_code_unlocks_witness :
  exists s',
    _on_unlock_requested "KRVA7JYNAFBEMRLE" true sample_window = (Ok Unlocked, s') /\
    current_index s' = PAGE_VAULT /\ is_Some (_vault_manager s') /\
    _failed_attempts s' = 0 /\ _locked_out s' = false.
Proof.
  apply (enrolled_recovery_code_unlocks "/media/usb" "correcthorsebattery"
           "KRVA7JYNAFBEMRLE" sample_world sample_enrolled sample_window).
  - exact sample_aead_correct.
  - vm_compute. reflexivity.
  - vm_compute. reflexivity.
  - vm_compute. reflexivity.
  - vm_compute. reflexivity.
  - vm_compute. reflexivity.
Defined.

(** ** privexi/encryption.py, further *)

Example b32_nopad_rfc4648 :
  b32_nopad (encode "f") = "MY" /\ b32_nopad (encode "fo") = "MZXQ" /\
  b32_nopad (encode "foo") = "MZXW6" /\ b32_nopad (encode "foob") = "MZXW6YQ" /\
  b32_nopad (encode "fooba") = "MZXW6YTB" /\ b32_nopad (encode "foobar") = "MZXW6YTBOI".
Proof. vm_compute. repeat split. Qed.

Lemma b32_digits_length count n tail :
  String.length (b32_digits count n tail) = count + String.length tail.
Proof.
  revert n tail. induction count as [|count IH]; intros n tail; simpl; [reflexivity|].
  rewrite IH. simpl. lia.
Qed.

Lemma b32_digits_chars count n tail :
  string_forallb is_b32_char tail = true ->
  string_forallb is_b32_char (b32_digits count n tail) = true.
Proof.
  revert n tail. induction count as [|count IH]; intros n tail Htail; simpl; [exact Htail|].
  apply IH. simpl. rewrite b32_char_ok. exact Htail.
Qed.

(** X5.  [generate_recovery_code] draws 16 bytes and returns 26 characters of
    the base32 alphabet, none of them the padding sign. *)
Theorem generate_recovery_code_format (w : World) :
  exists code w',
    generate_recovery_code w = (Ok code, w') /\
    String.length code = 26 /\ string_forallb is_b32_char code = true /\
    w_drawn w' = w_drawn w + 16 /\ w_files w' = w_files w.
Proof.
  unfold generate_recovery_code.
  eexists _, _. split; [reflexivity|].
  cbn [w_drawn w_files].
  set (raw := map (w_entropy w) (seq (w_drawn w) 16)).
  assert (Hlen : length raw = 16) by (unfold raw; rewrite length_map; apply length_seq).
  clearbody raw.
  do 17 (destruct raw as [|? raw]; try discriminate Hlen).
  cbn [b32_nopad].
  rewrite !b32_digits_length. cbn [String.length].
  repeat split.
  repeat (apply b32_digits_chars). reflexivity.
Qed.

(** ** Rules for what a computation preserves *)

Section PreserveRules.
Context {St T : Type} (f : St -> T).

Lemma preserves_ret {A} (a : A) : preserves f (mret a : M St A).
Proof. intros s r s' [= _ <-]. reflexivity. Qed.

Lemma preserves_raise {A} e : preserves f (raise e : M St A).
Proof. intros s r s' [= _ <-]. reflexivity. Qed.

Lemma preserves_lift_result {A} (x : result A) : preserves f (lift_result x : M St A).
Proof. intros s r s' [= _ <-]. reflexivity. Qed.

Lemma preserves_get_state : preserves f (get_state : M St St).
Proof. intros s r s' [= _ <-]. reflexivity. Qed.

Lemma preserves_bind {A B} (m : M St A) (k : A -> M St B) :
  preserves f m -> (forall a, preserves f (k a)) -> preserves f (m ≫= k).
Proof.
  intros Hm Hk s r s'. unfold mbind, M_bind, m_bind.
  destruct (m s) as [[a|e] s1] eqn:Hrun; intros Hrest.
  - rewrite (Hk _ _ _ _ Hrest). exact (Hm _ _ _ Hrun).
  - injection Hrest as _ <-. exact (Hm _ _ _ Hrun).
Qed.

Lemma preserves_try_except {A} (body : M St A) handler :
  preserves f body -> (forall e, preserves f (handler e)) ->
  preserves f (try_except body handler).
Proof.
  intros Hb Hh s r s'. unfold try_except.
  destruct (body s) as [[a|e] s1] eqn:Hrun; intros Hrest.
  - injection Hrest as _ <-. exact (Hb _ _ _ Hrun).
  - rewrite (Hh _ _ _ _ Hrest). exact (Hb _ _ _ Hrun).
Qed.

Lemma preserves_modify (g : St -> St) :
  (forall s, f (g s) = f s) -> preserves f (modify_state g).
Proof. intros Hg s r s' [= _ <-]. apply Hg. Qed.

Lemma preserves_for_each {A} (l : list A) (body : A -> M St unit) :
  (forall a, preserves f (body a)) -> preserves f (for_each l body).
Proof.
  intros Hb. induction l as [|a l IH]; simpl.
  - apply preserves_ret.
  - apply preserves_bind; [apply Hb | intros _; exact IH].
Qed.

End PreserveRules.

Lemma preserves_in_world {A} (m : M World A) : preserves vm_self (in_world m).
Proof.
  intros s r s'. rewrite in_world_run. intros [= _ <-]. reflexivity.
Qed.

Ltac keep_base :=
  lazymatch goal with
  | |- preserves _ (mbind _ _) => apply preserves_bind; [| intros ?]
  | |- preserves _ (try_except _ _) => apply preserves_try_except; [| intros ?]
  | |- preserves _ (mret _) => apply preserves_ret
  | |- preserves _ (raise _) => apply preserves_raise
  | |- preserves _ (lift_result _) => apply preserves_lift_result
  | |- preserves _ get_state => apply preserves_get_state
  | |- preserves _ (for_each _ _) => apply preserves_for_each; intros ?
  | |- preserves vm_self (in_world _) => apply preserves_in_world
  | |- preserves _ (modify_state _) => apply preserves_modify; intros ?; reflexivity
  | |- preserves _ (if ?b then _ else _) => destruct b
  | |- preserves _ (match ?x with _ => _ end) => destruct x
  end.

(** ** Never raising *)

Lemma never_raises_try {St A} (body : M St A) handler :
  (forall e, never_raises (handler e)) -> never_raises (try_except body handler).
Proof.
  intros Hh s. unfold try_except. destruct (body s) as [[a|e] s0]; [eauto | apply Hh].
Qed.

Lemma never_raises_bind {St A B} (m : M St A) (k : A -> M St B) :
  never_raises m -> (forall a, never_raises (k a)) -> never_raises (m ≫= k).
Proof.
  intros Hm Hk s. destruct (Hm s) as (a & s1 & Hrun).
  rewrite (bind_run _ _ _ _ _ Hrun). apply Hk.
Qed.

Lemma never_raises_ret {St A} (a : A) : never_raises (mret a : M St A).
Proof. intros s. eexists _, _. reflexivity. Qed.

Lemma never_raises_print l : never_raises (print l).
Proof. intros s. eexists _, _. reflexivity. Qed.

Lemma never_raises_path_exists p : never_raises (path_exists p).
Proof. intros s. eexists _, _. reflexivity. Qed.

Lemma never_raises_get_state {St} : never_raises (get_state : M St St).
Proof. intros s. eexists _, _. reflexivity. Qed.

Lemma never_raises_modify {St} (g : St -> St) : never_raises (modify_state g).
Proof. intros s. eexists _, _. reflexivity. Qed.

Lemma never_raises_in_world {A} (m : M World A) :
  never_raises m -> never_raises (in_world m).
Proof.
  intros Hm s. destruct (Hm (vm_world s)) as (a & w' & Hrun).
  rewrite in_world_run, Hrun. eexists _, _. reflexivity.
Qed.

Ltac safe_step :=
  lazymatch goal with
  | |- never_raises (mbind _ _) => apply never_raises_bind; [| intros ?]
  | |- never_raises (try_except _ _) => apply never_raises_try; intros ?
  | |- never_raises (mret _) => apply never_raises_ret
  | |- never_raises (print _) => apply never_raises_print
  | |- never_raises (path_exists _) => apply never_raises_path_exists
  | |- never_raises get_state => apply never_raises_get_state
  | |- never_raises (modify_state _) => apply never_raises_modify
  | |- never_raises (in_world _) => apply never_raises_in_world
  | |- never_raises (if ?b then _ else _) => destruct b
  | |- never_raises (match ?x with _ => _ end) => destruct x
  end.

(** ** The vault, further *)

Section VaultFrames.
Context {L : Platform}.

Lemma respects_encrypt_file R `{!FileFrame R} crypto data :
  respects id R (encrypt_file crypto data).
Proof. unfold encrypt_file. frame. Qed.

Lemma respects_set_index {R} `{!FileFrame R} g : respects vm_world R (set_index g).
Proof. unfold set_index. apply respects_modify; [assumption | reflexivity]. Qed.

Lemma respects_save_index ps :
  VAULT_INDEX ∈ ps -> respects vm_world (only_changed ps) _save_index.
Proof.
  intros Hin. unfold _save_index.
  apply respects_bind; [typeclasses eauto | apply respects_get_state; typeclasses eauto |].
  intros s. apply respects_bind; [typeclasses eauto | |].
  - apply respects_in_world, respects_encrypt_file. typeclasses eauto.
  - intros ct. apply respects_in_world, respects_write_bytes_only. exact Hin.
Qed.

(** What [choose_out_path] then [write_bytes] can do: the path chosen did
    not exist, so no file that existed is touched. *)
Lemma respects_write_chosen dest name data :
  respects id files_kept
    (out_path ← choose_out_path dest name;
     write_bytes out_path data ;; mret (Some out_path)).
Proof.
  intros w r w' Hrun.
  unfold mbind, M_bind, m_bind, choose_out_path in Hrun.
  set (p := avoid_collision _ _ _ _ _ _ _) in Hrun.
  assert (Hfresh : w_files w !! p = None) by apply avoid_collision_fresh.
  assert (Hw : only_changed [p] w w').
  { destruct (write_bytes p data w) as [rw w1] eqn:Hwrite.
    pose proof (respects_write_bytes_only [p] p data ltac:(in_paths) _ _ _ Hwrite) as Hw.
    destruct rw as [[]|e]; injection Hrun as _ <-; exact Hw. }
  intros q c Hq. unfold id in *. rewrite Hw; [exact Hq|].
  intros Hin%list_elem_of_singleton. subst q. congruence.
Qed.

Lemma respects_extract_file vault_id dest :
  respects vm_world files_kept (extract_file vault_id dest).
Proof.
  unfold extract_file, extract_file_body.
  repeat first [ apply respects_write_chosen | frame_step ].
Qed.

Lemma preserves_extract_file vault_id dest :
  preserves vm_self (extract_file vault_id dest).
Proof. unfold extract_file. repeat keep_base. Qed.

Lemma never_raises_extract_file vault_id dest :
  never_raises (extract_file vault_id dest).
Proof. unfold extract_file. repeat safe_step. Qed.

End VaultFrames.

(** X6.  [extract_file] never raises, leaves the manager as it is, and never
    overwrites: whatever the entry, the destination and the I/O failures,
    every file that existed before is there afterwards with the content
    it had. *)
Theorem extract_file_keeps_existing_files {L : Platform} vault_id dest (s : VMState) :
  exists r s',
    extract_file vault_id dest s = (Ok r, s') /\
    vm_self s' = vm_self s /\
    forall q c, w_files (vm_world s) !! q = Some c -> w_files (vm_world s') !! q = Some c.
Proof.
  destruct (never_raises_extract_file vault_id dest s) as (r & s' & Hrun).
  exists r, s'. split; [exact Hrun|]. split.
  - exact (preserves_extract_file _ _ _ _ _ Hrun).
  - exact (respects_extract_file _ _ _ _ _ Hrun).
Qed.

(** ** Adding a file, further *)

Lemma read_bytes_clock p w r w' :
  read_bytes p w = (r, w') ->
  w_files w' = w_files w /\ w_clock w' = w_clock w /\ w_reads w' = w_reads w.
Proof.
  unfold read_bytes, io, file_content, mbind, M_bind, m_bind.
  destruct (default false (head (w_faults w))); simpl.
  - intros [= _ <-]. auto.
  - destruct (w_files w !! p); [|intros [= _ <-]; auto].
    simpl. destruct (w_files w !! p); intros [= _ <-]; auto.
Qed.

Section AddFile.
Context {L : Platform}.

Lemma never_raises_add_file source_path wipe_original :
  never_raises (add_file source_path wipe_original).
Proof. unfold add_file. repeat safe_step. Qed.

Lemma preserves_set_index {T} (f : VMState -> T) g :
  (forall s, f (mkVMState (mkVaultManager (_crypto (vm_self s)) (g (_index (vm_self s))))
                          (vm_world s)) = f s) ->
  preserves f (set_index g).
Proof. intros H. unfold set_index. apply preserves_modify. exact H. Qed.

Lemma preserves_in_world_crypto {A} (m : M World A) :
  preserves (fun s => _crypto (vm_self s)) (in_world m).
Proof. intros s r s'. rewrite in_world_run. intros [= _ <-]. reflexivity. Qed.

Ltac keep_crypto :=
  repeat first
    [ apply preserves_in_world_crypto
    | apply preserves_set_index; intros ?; reflexivity
    | keep_base ].

Lemma preserves_crypto_add_file source_path wipe_original :
  preserves (fun s => _crypto (vm_self s)) (add_file source_path wipe_original).
Proof. unfold add_file, add_file_body, _save_index. keep_crypto. Qed.

(** The files [add_file] can change: the source, the index file and the
    storage file, whose name it derives from the second reading of the
    clock. *)
Lemma add_file_body_frame source_path wipe_original (s : VMState) r s' :
  add_file_body source_path wipe_original s = (r, s') ->
  only_changed [source_path; VAULT_INDEX; added_path source_path (vm_world s)]
    (vm_world s) (vm_world s').
Proof.
  set (ps := [source_path; VAULT_INDEX; added_path source_path (vm_world s)]).
  assert (Hsame : forall w1 w2, w_files w1 = w_files (vm_world s) ->
                                only_changed ps w1 w2 -> only_changed ps (vm_world s) w2).
  { intros w1 w2 Hw1 Hw q Hq. rewrite (Hw q Hq), Hw1. reflexivity. }
  intros Hbody. unfold add_file_body in Hbody.
  destruct (read_bytes source_path (vm_world s)) as [[plaintext|e] w1] eqn:Hread;
    pose proof (read_bytes_clock _ _ _ _ Hread) as (Hf1 & Hc1 & Hr1).
  2: { rewrite (bind_raise (in_world _) _ _ e (mkVMState (vm_self s) w1)) in Hbody
         by (rewrite in_world_run, Hread; reflexivity).
       injection Hbody as _ <-. apply (Hsame w1); [exact Hf1|].
       apply frame_refl. typeclasses eauto. }
  rewrite (bind_run (in_world _) _ _ _ _ (in_world_ok _ _ _ _ Hread)) in Hbody.
  rewrite (bind_run get_state _ _ _ _ eq_refl) in Hbody.
  cbn [vm_self vm_world] in Hbody.
  destruct (_fernet (_crypto (vm_self s))) as [key|] eqn:Hkey.
  2: { rewrite (bind_raise (in_world _) _ _ AttributeError (mkVMState (vm_self s) w1))
         in Hbody
         by (rewrite in_world_run; unfold encrypt_file; rewrite Hkey; reflexivity).
       injection Hbody as _ <-. apply (Hsame w1); [exact Hf1|].
       apply frame_refl. typeclasses eauto. }
  set (w2 := mkWorld (w_files w1) (w_faults w1) (w_trace w1) (w_stdout w1) (w_entropy w1)
               (w_drawn w1 + 16) (w_clock w1) (S (w_reads w1))).
  rewrite (bind_run (in_world _) _ _
             (fernet_encrypt key (w_clock w1 (w_reads w1))
                (map (w_entropy w1) (seq (w_drawn w1) 16)) plaintext)
             (mkVMState (vm_self s) w2)) in Hbody
    by (rewrite in_world_run; unfold encrypt_file; rewrite Hkey; reflexivity).
  rewrite (bind_run (in_world time_time) _ _ (w_clock w1 (S (w_reads w1)))
             (mkVMState (vm_self s)
                (mkWorld (w_files w1) (w_faults w1) (w_trace w1) (w_stdout w1)
                   (w_entropy w1) (w_drawn w1 + 16) (w_clock w1) (S (S (w_reads w1))))))
    in Hbody by reflexivity.
  rewrite Hc1, Hr1 in Hbody.
  fold (added_stem source_path (vm_world s)) in Hbody.
  fold (added_path source_path (vm_world s)) in Hbody.
  match type of Hbody with ?rest ?s3 = _ =>
    assert (Hrest : respects vm_world (only_changed ps) rest)
  end.
  { unfold ps.
    repeat first
      [ apply respects_save_index; in_paths
      | apply respects_set_index
      | frame_step ]. }
  apply Hrest in Hbody. apply (Hsame _ _ Hf1). exact Hbody.
Qed.

End AddFile.

(** X7.  [add_file] never raises and keeps its cipher; whatever happens,
    the only files it can change are the source, the index file and the
    storage file it makes, whose name is the digest of the name of the
    source and of the second reading of the clock. *)
Theorem add_file_changes_its_files_only {L : Platform}
    source_path wipe_original (s : VMState) :
  exists r s',
    add_file source_path wipe_original s = (Ok r, s') /\
    _crypto (vm_self s') = _crypto (vm_self s) /\
    forall q,
      q <> source_path -> q <> VAULT_INDEX -> q <> added_path source_path (vm_world s) ->
      w_files (vm_world s') !! q = w_files (vm_world s) !! q.
Proof.
  destruct (never_raises_add_file source_path wipe_original s) as (r & s' & Hrun).
  exists r, s'. split; [exact Hrun|]. split.
  - exact (preserves_crypto_add_file _ _ _ _ _ Hrun).
  - intros q Hq1 Hq2 Hq3.
    assert (Hq : q ∉ [source_path; VAULT_INDEX; added_path source_path (vm_world s)]).
    { intros Hin. repeat (apply elem_of_cons in Hin as [-> | Hin]; [congruence|]).
      inversion Hin. }
    unfold add_file, try_except in Hrun.
    destruct (add_file_body source_path wipe_original s) as [[b|e] s1] eqn:Hbody;
      pose proof (add_file_body_frame _ _ _ _ _ Hbody q Hq) as Hframe.
    + injection Hrun as _ <-. exact Hframe.
    + unfold mbind, M_bind, m_bind in Hrun. rewrite in_world_run in Hrun.
      injection Hrun as _ <-. exact Hframe.
Qed.

(** X8.  When the source cannot be read, because it does not exist,
    [add_file] returns [False] and reports the error; the index, the
    cipher and every file are as they were. *)
Theorem add_file_missing_source {L : Platform} source_path wipe_original (s : VMState) :
  w_files (vm_world s) !! source_path = None ->
  exists s',
    add_file source_path wipe_original s = (Ok false, s') /\
    vm_self s' = vm_self s /\
    w_files (vm_world s') = w_files (vm_world s) /\
    w_stdout (vm_world s') = w_stdout (vm_world s) ++ [VaultAddError OSError].
Proof.
  intros Hmissing.
  assert (Hread : exists w', read_bytes source_path (vm_world s) = (Raise OSError, w') /\
                             w_files w' = w_files (vm_world s) /\
                             w_stdout w' = w_stdout (vm_world s)).
  { unfold read_bytes, io, mbind, M_bind, m_bind. simpl. rewrite Hmissing.
    destruct (default false (head (w_faults (vm_world s)))); eexists; repeat split. }
  destruct Hread as (w' & Hread & Hfiles & Hout).
  unfold add_file, try_except, add_file_body.
  rewrite (bind_raise _ _ _ OSError (mkVMState (vm_self s) w'))
    by (rewrite in_world_run, Hread; reflexivity).
  eexists. split; [reflexivity|]. simpl. rewrite Hfiles, Hout. auto.
Qed.

Lemma add_file_missing_source_witness :
  exists s',
    add_file "/c/none.txt" true sample_vault_two_notes = (Ok false, s') /\
    vm_self s' = vm_self sample_vault_two_notes /\
    w_files (vm_world s') = w_files (vm_world sample_vault_two_notes) /\
    w_stdout (vm_world s') =
      w_stdout (vm_world sample_vault_two_notes) ++ [VaultAddError OSError].
Proof.
  apply (add_file_missing_source "/c/none.txt" true sample_vault_two_notes).
  vm_compute. reflexivity.
Defined.

(** ** Adding, then extracting *)

Lemma rfind_no_slash x : no_slash x = true -> rfind "/"%char x = None.
Proof.
  induction x as [|c x IH]; [reflexivity|]. simpl.
  intros [Hc Hx]%andb_prop. rewrite (IH Hx).
  apply negb_true_iff, bool_decide_eq_false in Hc.
  destruct (decide ("/"%char = c)) as [<-|_]; [|reflexivity].
  exfalso. apply Hc. reflexivity.
Qed.

Lemma rfind_slash_app d x :
  rfind "/"%char x = None ->
  rfind "/"%char (d ++ "/" ++ x)%string = Some (String.length d).
Proof.
  intros Hx. induction d as [|c d IH].
  - change (rfind "/"%char (String "/"%char x) = Some 0). cbn [rfind].
    rewrite Hx. reflexivity.
  - change (rfind "/"%char (String c (d ++ "/" ++ x)%string) = Some (S (String.length d))).
    cbn [rfind]. rewrite IH. reflexivity.
Qed.

Lemma str_drop_slash_app d x :
  str_drop (S (String.length d)) (d ++ "/" ++ x)%string = x.
Proof.
  induction d as [|c d IH].
  - change (str_drop 1 (String "/"%char x) = x). destruct x; reflexivity.
  - change (str_drop (S (String.length d)) (d ++ "/" ++ x)%string = x). exact IH.
Qed.

Lemma is_absolute_no_slash c x : no_slash (String c x) = true -> is_absolute (String c x) = false.
Proof.
  simpl. intros [Hc _]%andb_prop.
  apply negb_true_iff, bool_decide_eq_false in Hc.
  destruct c as [[] [] [] [] [] [] [] []]; try reflexivity.
  exfalso. apply Hc. reflexivity.
Qed.

(** The name of a file put into a directory under a name without a slash
    is that name. *)
Lemma path_name_join d x :
  no_slash x = true -> x <> "" -> path_name (path_join d x) = x.
Proof.
  intros Hx Hne. unfold path_join.
  destruct x as [|c x]; [congruence|].
  rewrite (is_absolute_no_slash c x Hx).
  unfold path_name. rewrite (rfind_slash_app d _ (rfind_no_slash _ Hx)).
  apply str_drop_slash_app.
Qed.

Lemma no_slash_app a b : no_slash (a ++ b)%string = no_slash a && no_slash b.
Proof.
  induction a as [|c a IH]; simpl; [reflexivity|].
  unfold no_slash in *. simpl. rewrite IH, andb_assoc. reflexivity.
Qed.

Lemma string_app_inv_head (a b c : string) : (a ++ b)%string = (a ++ c)%string -> b = c.
Proof.
  induction a as [|x a IH]; simpl; [auto|]. intros [= H]. exact (IH H).
Qed.

Section AddExtract.
Context {L : Platform}.

(** The index file is no storage file. *)
Lemma vault_index_not_storage stem :
  no_slash stem = true -> VAULT_INDEX <> path_join VAULT_DIR (stem ++ ".enc")%string.
Proof.
  intros Hstem.
  assert (Hns : no_slash (stem ++ ".enc")%string = true)
    by (rewrite no_slash_app, Hstem; reflexivity).
  assert (Hrel : path_join VAULT_DIR (stem ++ ".enc")%string
                 = (VAULT_DIR ++ "/" ++ stem ++ ".enc")%string).
  { unfold path_join at 1. destruct (stem ++ ".enc")%string as [|c x] eqn:Hx.
    - destruct stem; discriminate Hx.
    - rewrite (is_absolute_no_slash c x Hns). reflexivity. }
  rewrite Hrel.
  change VAULT_INDEX with (VAULT_DIR ++ "/" ++ ".vault_index")%string.
  intros H%string_app_inv_head%string_app_inv_head.
  apply (f_equal (fun t => last (list_ascii_of_string t))) in H.
  rewrite list_ascii_of_string_app, last_app in H. discriminate H.
Qed.

Lemma storage_name stem :
  no_slash stem = true ->
  path_join VAULT_DIR (path_name (path_join VAULT_DIR (stem ++ ".enc")%string)) =
  path_join VAULT_DIR (stem ++ ".enc")%string.
Proof.
  intros Hstem. rewrite path_name_join; [reflexivity | |].
  - rewrite no_slash_app, Hstem. reflexivity.
  - destruct stem; discriminate.
Qed.

(** A successful [add_file], with no I/O failure ahead. *)
Lemma add_file_run source_path (wipe_original : bool) key index plaintext
    fs tr out ent drawn clk rd :
  fs !! source_path = Some plaintext ->
  let w := mkWorld fs [] tr out ent drawn clk rd in
  let meta :=
    {| original_name := path_name source_path;
       vault_file := path_name (added_path source_path w);
       added_at := clk (S (S rd));
       size_bytes := length plaintext;
       sha256 := Some (sha256_hex plaintext) |} in
  let ciphertext := fernet_encrypt key (clk rd) (nth_draw w 16 0) plaintext in
  let index' := dict_set (added_id source_path w) meta index in
  exists token w',
    add_file source_path wipe_original
      (mkVMState (mkVaultManager (mkVaultCrypto (Some key)) index) w) =
      (Ok true, mkVMState (mkVaultManager (mkVaultCrypto (Some key)) index') w') /\
    w_files w' = (if wipe_original then delete source_path else id)
                   (<[VAULT_INDEX := token]>
                      (<[added_path source_path w := ciphertext]> fs)) /\
    w_faults w' = [] /\ w_stdout w' = out.
Proof.
  intros Hsrc. cbv zeta. unfold added_id, added_path, added_stem, nth_draw. msimpl.
  rewrite Nat.add_0_r.
  set (vault_stem := sha256_hex (encode (path_name source_path ++ show_time (clk (S rd)))%string)).
  set (vault_path := path_join VAULT_DIR (vault_stem ++ ".enc")%string).
  set (meta := mkMeta _ _ _ _ _).
  set (ciphertext := fernet_encrypt key (clk rd) _ plaintext).
  set (index' := dict_set (str_take 16 vault_stem) meta index).
  set (token := fernet_encrypt key (clk (S (S (S rd)))) (map ent (seq (drawn + 16) 16))
                  (json_dumps index')).
  assert (Hstill : exists c, <[VAULT_INDEX := token]> (<[vault_path := ciphertext]> fs)
                               !! source_path = Some c).
  { apply lookup_insert_is_Some'. right. apply lookup_insert_is_Some'. right. eauto. }
  destruct Hstill as [c Hstill].
  exists token.
  assert (Hbody : exists w',
    add_file_body source_path wipe_original
      (mkVMState (mkVaultManager (mkVaultCrypto (Some key)) index)
                 (mkWorld fs [] tr out ent drawn clk rd)) =
      (Ok true, mkVMState (mkVaultManager (mkVaultCrypto (Some key)) index') w') /\
    w_files w' = (if wipe_original then delete source_path else id)
                   (<[VAULT_INDEX := token]> (<[vault_path := ciphertext]> fs)) /\
    w_faults w' = [] /\ w_stdout w' = out).
  { unfold add_file_body.
    run_bind ltac:(apply in_world_ok, read_bytes_run_world; exact Hsrc).
    run_bind ltac:(idtac; reflexivity).
    run_bind ltac:(apply in_world_ok, encrypt_file_run).
    run_bind ltac:(apply in_world_ok; reflexivity).
    fold vault_stem. fold vault_path. fold ciphertext.
    run_bind ltac:(apply in_world_ok, write_bytes_run).
    run_bind ltac:(apply in_world_ok; reflexivity).
    run_bind ltac:(idtac; reflexivity).
    unfold get_file_integrity_hash. fold meta. fold index'.
    run_bind ltac:(
      unfold _save_index;
      run_bind ltac:(idtac; reflexivity);
      run_bind ltac:(apply in_world_ok, encrypt_file_run);
      fold token;
      apply in_world_ok, write_bytes_run).
    destruct wipe_original.
    - run_bind ltac:(apply in_world_ok, (secure_delete_run source_path c); exact Hstill).
      eexists. split; [reflexivity|]. repeat split.
    - run_bind ltac:(idtac; reflexivity).
      eexists. split; [reflexivity|]. repeat split. }
  destruct Hbody as (w' & Hbody & Hrest).
  exists w'. split; [apply try_except_ok; exact Hbody | exact Hrest].
Qed.


End AddExtract.




(** ** Adding, then listing *)

Lemma dict_set_in {V} k (v : V) d : In (k, v) (dict_set k v d).
Proof.
  induction d as [|[k' v'] d IH]; simpl; [left; reflexivity|].
  destruct (decide (k = k')); [left; reflexivity | right; exact IH].
Qed.

(** X10.  What was added is listed.  With a live cipher, a readable source and
    no I/O failure, the list that [list_files] returns after [add_file]
    has an entry under the new id that carries the name of the source,
    the number of its bytes, their digest and the time of the addition. *)
Theorem added_file_is_listed {L : Platform}
    source_path (wipe_original : bool) (s : VMState) key plaintext :
  _fernet (_crypto (vm_self s)) = Some key ->
  w_files (vm_world s) !! source_path = Some plaintext ->
  w_faults (vm_world s) = [] ->
  no_slash (added_stem source_path (vm_world s)) = true ->
  (wipe_original = true -> source_path <> added_path source_path (vm_world s)) ->
  exists s1 listing,
    add_file source_path wipe_original s = (Ok true, s1) /\
    list_files s1 = (Ok listing, s1) /\
    In {| l_vault_id := added_id source_path (vm_world s);
          l_original_name := path_name source_path;
          l_added_at := w_clock (vm_world s) (S (S (w_reads (vm_world s))));
          l_size_bytes := length plaintext;
          l_sha256 := sha256_hex plaintext |} listing.
Proof.
  intros Hkey Hsrc Hfaults Hstem Hwipe.
  destruct s as [[[fernet] index] [fs faults tr out ent drawn clk rd]].
  cbn [vm_self vm_world w_files w_faults w_clock w_reads _crypto _fernet _index] in *.
  subst fernet faults.
  set (w := mkWorld fs [] tr out ent drawn clk rd) in *.
  destruct (add_file_run source_path wipe_original key index plaintext
              fs tr out ent drawn clk rd Hsrc)
    as (token & w1 & Hadd & Hfiles & _).
  fold w in Hadd, Hfiles.
  set (meta := mkMeta _ _ _ _ _) in Hadd.
  set (ciphertext := fernet_encrypt key _ _ plaintext) in Hfiles.
  set (s1 := mkVMState _ w1) in Hadd.
  exists s1, (sort_added_at_desc (backed_entries s1)).
  split; [exact Hadd|]. split; [apply list_files_run|].
  apply (Permutation_in _ (Permutation_sym (sort_added_at_desc_perm _))).
  unfold backed_entries.
  apply (in_map (fun e => listing_of e.1 e.2) _ (added_id source_path w, meta)).
  apply filter_In. split; [apply dict_set_in|].
  unfold backed, meta, s1. cbn [snd vault_file vm_world]. unfold added_path.
  rewrite (storage_name _ Hstem). fold (added_path source_path w). rewrite Hfiles.
  apply bool_decide_eq_true_2. exists ciphertext.
  assert (Hin : <[VAULT_INDEX := token]> (<[added_path source_path w := ciphertext]> fs)
                  !! added_path source_path w = Some ciphertext).
  { rewrite lookup_insert_ne by (apply vault_index_not_storage; exact Hstem).
    apply lookup_insert_eq. }
  destruct wipe_original; [|exact Hin].
  rewrite lookup_delete_ne by (apply Hwipe; reflexivity). exact Hin.
Qed.

Lemma added_file_is_listed_witness :
  exists s1 listing,
    add_file "/a/note.txt" true sample_vault_two_notes = (Ok true, s1) /\
    list_files s1 = (Ok listing, s1) /\
    In {| l_vault_id := added_id "/a/note.txt" (vm_world sample_vault_two_notes);
          l_original_name := path_name "/a/note.txt";
          l_added_at := 1700000000;
          l_size_bytes := 5;
          l_sha256 := sha256_hex [x66; x69; x72; x73; x74] |} listing.
Proof.
  apply (added_file_is_listed "/a/note.txt" true sample_vault_two_notes
           sample_key [x66; x69; x72; x73; x74]).
  - reflexivity.
  - vm_compute. reflexivity.
  - reflexivity.
  - vm_compute. reflexivity.
  - intros _. vm_compute. discriminate.
Defined.

(** ** Deleting an entry *)

Lemma dict_get_del_ne {V} k k' (d : list (string * V)) :
  k <> k' -> dict_get k (dict_del k' d) = dict_get k d.
Proof.
  intros Hne. induction d as [|[k0 v0] d IH]; simpl; [reflexivity|].
  destruct (decide (k' = k0)) as [->|Hk'].
  - rewrite decide_False by exact Hne. reflexivity.
  - simpl. rewrite IH. reflexivity.
Qed.

Lemma dict_get_absent {V} k (d : list (string * V)) :
  k ∉ map fst d -> dict_get k d = None.
Proof.
  induction d as [|[k0 v0] d IH]; simpl; [reflexivity|].
  intros [Hne Hnin]%not_elem_of_cons.
  rewrite decide_False by exact Hne. exact (IH Hnin).
Qed.

Lemma dict_get_del_eq {V} k (d : list (string * V)) :
  NoDup (map fst d) -> dict_get k (dict_del k d) = None.
Proof.
  induction d as [|[k0 v0] d IH]; simpl; [reflexivity|].
  intros [Hnin Hnd]%NoDup_cons.
  destruct (decide (k = k0)) as [->|Hne].
  - exact (dict_get_absent _ _ Hnin).
  - simpl. rewrite decide_False by exact Hne. exact (IH Hnd).
Qed.

Section DeleteFile.
Context {L : Platform}.

Lemma delete_file_found vault_id (s : VMState) meta :
  dict_get vault_id (_index (vm_self s)) = Some meta ->
  delete_file vault_id s = delete_found vault_id meta s.
Proof.
  intros Hget. unfold delete_file.
  run_bind ltac:(idtac; reflexivity). rewrite Hget. reflexivity.
Qed.

Lemma never_raises_secure_delete path passes : never_raises (secure_delete path passes).
Proof.
  intros w. destruct (secure_delete_unlinks path passes w) as (w' & _ & _ & Hrun & _).
  exists tt, w'. exact Hrun.
Qed.

Lemma preserves_save_index : preserves vm_self _save_index.
Proof. unfold _save_index. repeat keep_base. Qed.

Lemma respects_delete_found vault_id meta :
  respects vm_world (only_changed [path_join VAULT_DIR (vault_file meta); VAULT_INDEX])
    (delete_found vault_id meta).
Proof.
  unfold delete_found. cbv zeta.
  repeat first
    [ apply respects_save_index; in_paths
    | apply respects_set_index
    | frame_step ].
Qed.

Lemma delete_found_index vault_id meta (s : VMState) r s' :
  delete_found vault_id meta s = (r, s') ->
  (r = Ok true \/ exists e, r = Raise e) /\
  _crypto (vm_self s') = _crypto (vm_self s) /\
  _index (vm_self s') = dict_del vault_id (_index (vm_self s)).
Proof.
  unfold delete_found. cbv zeta. intros Hrun.
  set (s1 := mkVMState (vm_self s) (vm_world s)).
  assert (Hpe : in_world (path_exists (path_join VAULT_DIR (vault_file meta))) s =
                (Ok (bool_decide (is_Some (w_files (vm_world s)
                                           !! path_join VAULT_DIR (vault_file meta)))), s1))
    by (apply in_world_ok; reflexivity).
  rewrite (bind_run _ _ _ _ _ Hpe) in Hrun.
  assert (Hwipe : exists w2,
            (if bool_decide (is_Some (w_files (vm_world s)
                                      !! path_join VAULT_DIR (vault_file meta)))
             then in_world (secure_delete (path_join VAULT_DIR (vault_file meta))
                              DEFAULT_PASSES)
             else mret tt) s1 = (Ok tt, mkVMState (vm_self s) w2)).
  { destruct (bool_decide _).
    - destruct (never_raises_secure_delete (path_join VAULT_DIR (vault_file meta))
                  DEFAULT_PASSES (vm_world s1)) as ([] & w2 & Hsd).
      exists w2. exact (in_world_ok _ _ _ _ Hsd).
    - exists (vm_world s). reflexivity. }
  destruct Hwipe as (w2 & Hwipe).
  rewrite (bind_run _ _ _ _ _ Hwipe) in Hrun.
  rewrite (bind_run (set_index (dict_del vault_id)) _ _ tt _ eq_refl) in Hrun.
  cbn [vm_self vm_world _crypto _index] in Hrun.
  match type of Hrun with (_save_index ≫= _) ?s2 = _ =>
    destruct (_save_index s2) as [[[]|e] s3] eqn:Hsave;
    pose proof (preserves_save_index _ _ _ Hsave) as Hself
  end.
  - rewrite (bind_run _ _ _ _ _ Hsave) in Hrun. injection Hrun as <- <-.
    rewrite Hself. auto.
  - rewrite (bind_raise _ _ _ _ _ Hsave) in Hrun. injection Hrun as <- <-.
    rewrite Hself. eauto.
Qed.

End DeleteFile.

(** X11.  [delete_file] forgets the entry before it saves the index, and has no
    handler: for an id that is in the index and any schedule of I/O
    failures it returns [True] or raises, and either way the index in
    memory has lost that entry and kept the others; no file other than the
    backing file of the entry and the index file is changed. *)
Theorem delete_file_forgets_entry {L : Platform} vault_id (s : VMState) meta :
  dict_get vault_id (_index (vm_self s)) = Some meta ->
  exists r s',
    delete_file vault_id s = (r, s') /\
    (r = Ok true \/ exists e, r = Raise e) /\
    _index (vm_self s') = dict_del vault_id (_index (vm_self s)) /\
    (forall k, k <> vault_id ->
       dict_get k (_index (vm_self s')) = dict_get k (_index (vm_self s))) /\
    forall q, q <> path_join VAULT_DIR (vault_file meta) -> q <> VAULT_INDEX ->
              w_files (vm_world s') !! q = w_files (vm_world s) !! q.
Proof.
  intros Hget. rewrite (delete_file_found _ _ _ Hget).
  destruct (delete_found vault_id meta s) as [r s'] eqn:Hrun.
  exists r, s'. split; [reflexivity|].
  destruct (delete_found_index _ _ _ _ _ Hrun) as (Hr & _ & Hindex).
  split; [exact Hr|]. split; [exact Hindex|]. split.
  - intros k Hk. rewrite Hindex. apply dict_get_del_ne. exact Hk.
  - intros q Hq1 Hq2. apply (respects_delete_found _ _ _ _ _ Hrun).
    intros [->|Hin%list_elem_of_singleton]%elem_of_cons; [exact (Hq1 eq_refl)|].
    exact (Hq2 Hin).
Qed.

Lemma delete_file_forgets_entry_witness :
  exists r s',
    delete_file "aa11" sample_vault_write_fails = (r, s') /\
    (r = Ok true \/ exists e, r = Raise e) /\
    _index (vm_self s') = dict_del "aa11" (_index (vm_self sample_vault_write_fails)) /\
    (forall k, k <> "aa11" ->
       dict_get k (_index (vm_self s')) =
       dict_get k (_index (vm_self sample_vault_write_fails))) /\
    forall q, q <> path_join VAULT_DIR (vault_file sample_meta) -> q <> VAULT_INDEX ->
              w_files (vm_world s') !! q = w_files (vm_world sample_vault_write_fails) !! q.
Proof.
  apply (delete_file_forgets_entry "aa11" sample_vault_write_fails sample_meta).
  reflexivity.
Defined.

(** X12.  With no I/O failure, [delete_file] on an entry whose backing file
    exists returns [True]; afterwards the backing file no longer exists,
    the id is no key of the index, and the index file holds a token of
    the new index.  The ids of the index are distinct, as the keys of a
    dict are, and the backing file is not the index file itself. *)
Theorem delete_file_erases {L : Platform} vault_id (s : VMState) meta ct key :
  dict_get vault_id (_index (vm_self s)) = Some meta ->
  w_files (vm_world s) !! path_join VAULT_DIR (vault_file meta) = Some ct ->
  path_join VAULT_DIR (vault_file meta) <> VAULT_INDEX ->
  w_faults (vm_world s) = [] ->
  _fernet (_crypto (vm_self s)) = Some key ->
  NoDup (vault_ids (_index (vm_self s))) ->
  exists s' now iv,
    delete_file vault_id s = (Ok true, s') /\
    w_files (vm_world s') !! path_join VAULT_DIR (vault_file meta) = None /\
    dict_get vault_id (_index (vm_self s')) = None /\
    w_files (vm_world s') !! VAULT_INDEX =
      Some (fernet_encrypt key now iv (json_dumps (_index (vm_self s')))).
Proof.
  intros Hget Hfile Hne Hfaults Hkey Hnodup.
  rewrite (delete_file_found _ _ _ Hget).
  destruct s as [[[fernet] index] [fs faults tr out ent drawn clk rd]].
  cbn [vm_self vm_world w_files w_faults _crypto _fernet _index] in *. subst fernet faults.
  unfold delete_found. cbv zeta.
  run_bind ltac:(apply in_world_ok, (path_exists_true _ _ ct); exact Hfile).
  run_bind ltac:(apply in_world_ok, (secure_delete_run _ ct); exact Hfile).
  run_bind ltac:(idtac; reflexivity).
  run_bind ltac:(
    unfold _save_index;
    run_bind ltac:(idtac; reflexivity);
    run_bind ltac:(apply in_world_ok, encrypt_file_run);
    apply in_world_ok, write_bytes_run).
  eexists _, _, _. split; [reflexivity|]. cbn [vm_self vm_world w_files _index].
  split; [|split].
  - rewrite lookup_insert_ne by (intros H; apply Hne; symmetry; exact H).
    apply lookup_delete_eq.
  - apply dict_get_del_eq. exact Hnodup.
  - rewrite lookup_insert_eq. reflexivity.
Qed.

Lemma delete_file_erases_witness :
  exists s' now iv,
    delete_file "aa11" sample_vault_tampered = (Ok true, s') /\
    w_files (vm_world s') !! path_join VAULT_DIR (vault_file sample_meta) = None /\
    dict_get "aa11" (_index (vm_self s')) = None /\
    w_files (vm_world s') !! VAULT_INDEX =
      Some (fernet_encrypt sample_key now iv (json_dumps (_index (vm_self s')))).
Proof.
  apply (delete_file_erases "aa11" sample_vault_tampered sample_meta
           (replicate 16 x4b ++ [x68; x75; x6c; x6c; x6f]) sample_key).
  - reflexivity.
  - vm_compute. reflexivity.
  - vm_compute. discriminate.
  - reflexivity.
  - reflexivity.
  - vm_compute. apply NoDup_singleton.
Defined.

Lemma delete_file_unknown {L : Platform} vault_id (s : VMState) :
  dict_get vault_id (_index (vm_self s)) = None ->
  delete_file vault_id s = (Ok false, s).
Proof.
  intros Hget. unfold delete_file.
  run_bind ltac:(idtac; reflexivity). rewrite Hget. reflexivity.
Qed.

Lemma extract_file_unknown {L : Platform} vault_id dest (s : VMState) :
  dict_get vault_id (_index (vm_self s)) = None ->
  exists s',
    extract_file vault_id dest s = (Ok None, s') /\
    vm_self s' = vm_self s /\
    w_files (vm_world s') = w_files (vm_world s) /\
    w_trace (vm_world s') = w_trace (vm_world s) /\
    w_stdout (vm_world s') = w_stdout (vm_world s) ++ [VaultEntryNotFound vault_id].
Proof.
  intros Hget. unfold extract_file. run_bind ltac:(idtac; reflexivity). rewrite Hget.
  run_bind ltac:(apply in_world_ok; reflexivity).
  eexists. split; [reflexivity|]. repeat split.
Qed.

(** X13.  An id that is not in the index: [delete_file] returns [False] and
    [extract_file] returns [None] after reporting it; neither makes an I/O
    call, and the manager and the files are as they were. *)
Theorem unknown_id_is_refused {L : Platform} vault_id dest (s : VMState) :
  dict_get vault_id (_index (vm_self s)) = None ->
  delete_file vault_id s = (Ok false, s) /\
  exists s',
    extract_file vault_id dest s = (Ok None, s') /\
    vm_self s' = vm_self s /\
    w_files (vm_world s') = w_files (vm_world s) /\
    w_trace (vm_world s') = w_trace (vm_world s) /\
    w_stdout (vm_world s') = w_stdout (vm_world s) ++ [VaultEntryNotFound vault_id].
Proof.
  intros Hget. split.
  - exact (delete_file_unknown _ _ Hget).
  - exact (extract_file_unknown _ _ _ Hget).
Qed.

Lemma unknown_id_is_refused_witness :
  delete_file "zz99" sample_vault = (Ok false, sample_vault) /\
  exists s',
    extract_file "zz99" "/out" sample_vault = (Ok None, s') /\
    vm_self s' = vm_self sample_vault /\
    w_files (vm_world s') = w_files (vm_world sample_vault) /\
    w_trace (vm_world s') = w_trace (vm_world sample_vault) /\
    w_stdout (vm_world s') = w_stdout (vm_world sample_vault) ++ [VaultEntryNotFound "zz99"].
Proof.
  apply (unknown_id_is_refused "zz99" "/out" sample_vault). reflexivity.
Defined.

(** ** Locking *)

(** X14.  A locked manager is inert.  After [lock] the index is empty and the
    cipher is gone; then [list_files] returns the empty list,
    [delete_file] returns [False], [extract_file] returns [None] and
    [add_file] returns [False], and none of them changes a file or brings
    an entry back. *)
Theorem locked_manager_is_inert {L : Platform} (s : VMState) :
  exists s0,
    lock s = (Ok tt, s0) /\
    vm_world s0 = vm_world s /\
    file_count (vm_self s0) = 0 /\
    _fernet (_crypto (vm_self s0)) = None /\
    list_files s0 = (Ok [], s0) /\
    (forall vault_id, delete_file vault_id s0 = (Ok false, s0)) /\
    (forall vault_id dest, exists s1,
       extract_file vault_id dest s0 = (Ok None, s1) /\
       vm_self s1 = vm_self s0 /\ w_files (vm_world s1) = w_files (vm_world s)) /\
    (forall source_path wipe_original, exists s1,
       add_file source_path wipe_original s0 = (Ok false, s1) /\
       vm_self s1 = vm_self s0 /\ w_files (vm_world s1) = w_files (vm_world s)).
Proof.
  eexists. split; [reflexivity|].
  set (s0 := mkVMState (mkVaultManager (wipe (_crypto (vm_self s))) []) (vm_world s)).
  split; [reflexivity|]. split; [reflexivity|]. split; [reflexivity|].
  split; [rewrite list_files_run; reflexivity|].
  split; [intros vault_id; reflexivity|]. split.
  - intros vault_id dest.
    destruct (extract_file_unknown vault_id dest s0 eq_refl) as (s1 & H1 & H2 & H3 & _).
    exists s1. auto.
  - intros source_path wipe_original.
    unfold add_file, try_except, add_file_body.
    destruct (read_bytes source_path (vm_world s0)) as [[data|e] w1] eqn:Hread.
    + pose proof (respects_read_bytes files_same source_path _ _ _ Hread) as Hfiles.
      run_bind ltac:(apply in_world_ok; exact Hread).
      run_bind ltac:(idtac; reflexivity).
      rewrite (bind_raise (in_world _) _ _ AttributeError (mkVMState (vm_self s0) w1))
        by reflexivity.
      eexists. split; [reflexivity|]. split; [reflexivity|]. exact Hfiles.
    + pose proof (respects_read_bytes files_same source_path _ _ _ Hread) as Hfiles.
      rewrite (bind_raise (in_world _) _ _ e (mkVMState (vm_self s0) w1))
        by (rewrite in_world_run, Hread; reflexivity).
      eexists. split; [reflexivity|]. split; [reflexivity|]. exact Hfiles.
Qed.

(** ** Loading the index *)

Section LoadIndex.
Context {L : Platform}.

Lemma respects_load_index crypto : respects id files_same (_load_index crypto).
Proof. unfold _load_index. frame. Qed.

Lemma load_index_wiped w :
  exists w', _load_index (mkVaultCrypto None) w = (Ok [], w').
Proof.
  unfold _load_index. run_bind ltac:(idtac; reflexivity).
  destruct (bool_decide (is_Some (w_files w !! VAULT_INDEX))); msimpl.
  - unfold try_except.
    destruct (read_bytes VAULT_INDEX w) as [[ct|e] w1] eqn:Hread.
    + rewrite (bind_run _ _ _ _ _ Hread). eexists. reflexivity.
    + rewrite (bind_raise _ _ _ _ _ Hread). eexists. reflexivity.
  - eexists. reflexivity.
Qed.


End LoadIndex.

(** X15.  [_load_index] never raises and only reads.  When there is no
    index file it makes no I/O call, prints nothing and returns the empty
    index; with a cipher that was wiped it returns the empty index
    too. *)
Theorem load_index_reads_only {L : Platform} crypto (w : World) :
  exists index w',
    _load_index crypto w = (Ok index, w') /\
    w_files w' = w_files w /\
    (w_files w !! VAULT_INDEX = None -> index = [] /\ w' = w) /\
    (_fernet crypto = None -> index = []).
Proof.
  destruct (load_index_total crypto w) as (index & w' & Hload).
  exists index, w'. split; [exact Hload|].
  split; [exact (respects_load_index crypto _ _ _ Hload)|]. split.
  - intros Hmissing. unfold _load_index in Hload.
    rewrite (bind_run _ _ _ _ _ (path_exists_false _ _ Hmissing)) in Hload.
    injection Hload as <- <-. auto.
  - intros Hwiped. destruct crypto as [[key|]]; [discriminate|].
    destruct (load_index_wiped w) as (w1 & Hw). rewrite Hw in Hload.
    injection Hload as <- _. reflexivity.
Qed.



(** ** The secure erase, further *)

(** X17.  [secure_delete] never raises and changes no file other than the one
    it is given; whatever failed before, the last I/O call it makes is the
    unlinking of that file, and when that call succeeds the file no
    longer exists. *)
Theorem secure_delete_always_unlinks path passes (w : World) :
  exists w' earlier ok,
    secure_delete path passes w = (Ok tt, w') /\
    (forall q, q <> path -> w_files w' !! q = w_files w !! q) /\
    w_trace w' = earlier ++ [(IoUnlink path, ok)] /\
    (ok = true -> w_files w' !! path = None).
Proof.
  assert (Hlast : forall w0 r w1,
            unlink path w0 = (r, w1) ->
            exists ok, w_trace w1 = w_trace w0 ++ [(IoUnlink path, ok)] /\
                       (ok = true -> w_files w1 !! path = None)).
  { intros w0 r w1. unfold unlink, io.
    destruct (default false (head (w_faults w0))).
    - intros [= _ <-]. exists false. split; [reflexivity | discriminate].
    - simpl. destruct (w_files w0 !! path) as [c|] eqn:Hc.
      + intros [= _ <-]. exists true. split; [reflexivity|].
        intros _. apply lookup_delete_eq.
      + intros [= _ <-]. exists false. split; [reflexivity | discriminate]. }
  destruct (secure_delete path passes w) as [r w'] eqn:Hrun.
  pose proof (respects_secure_delete_only [path] path passes ltac:(in_paths) _ _ _ Hrun)
    as Hframe.
  assert (Hothers : forall q, q <> path -> w_files w' !! q = w_files w !! q).
  { intros q Hq. apply Hframe. intros Hin%list_elem_of_singleton. exact (Hq Hin). }
  unfold secure_delete, try_except in Hrun.
  match type of Hrun with match ?b w with _ => _ end = _ =>
    destruct (b w) as [[[]|e] w0] eqn:Hbody
  end.
  - injection Hrun as <- <-.
    inv_bind Hbody as size w1 Hstat.
    inv_bind Hbody as [] w2 Hopen.
    inv_bind Hbody as [] w3 Hpasses.
    destruct (Hlast _ _ _ Hbody) as (ok & Htrace & Hgone).
    exists w0, (w_trace w3), ok. auto.
  - unfold mbind, M_bind, m_bind, print in Hrun.
    match type of Hrun with context [ unlink path ?w1 ] =>
      destruct (unlink path w1) as [[[]|e'] w2] eqn:Hunlink;
      destruct (Hlast _ _ _ Hunlink) as (ok & Htrace & Hgone)
    end; injection Hrun as <- <-; eexists _, _, ok; eauto.
Qed.

(** ** privexi/usb_monitor.py *)

(** X18.  [find_usb_with_key] returns the first of the candidate drives that
    holds the key file, [None] when none does; it never raises and leaves
    the world as it is. *)
Theorem find_usb_with_key_first_match (candidates : list string) (w : World) :
  find_usb_with_key candidates w = (Ok (List.find (holds_key w) candidates), w).
Proof.
  induction candidates as [|drive rest IH]; [reflexivity|].
  cbn [find_usb_with_key List.find]. cbv zeta.
  run_bind ltac:(idtac; reflexivity). fold (holds_key w drive).
  destruct (holds_key w drive) eqn:Hkey.
  - run_bind ltac:(idtac; reflexivity). reflexivity.
  - run_bind ltac:(idtac; reflexivity). fold (holds_key w drive). rewrite Hkey. exact IH.
Qed.

Lemma monitor_turn_current usb current : fst (monitor_turn usb current) = usb.
Proof.
  unfold monitor_turn. destruct usb as [path|].
  - destruct (decide (Some path <> current)) as [_|Heq]; [reflexivity|].
    simpl. destruct (decide (current = Some path)) as [->|Hne]; [reflexivity|].
    exfalso. apply Heq. intros H. apply Hne. symmetry. exact H.
  - destruct current; reflexivity.
Qed.

Lemma monitor_turn_reports usb current rest :
  reports_changes usb rest = true ->
  reports_changes current (snd (monitor_turn usb current) ++ rest) = true.
Proof.
  intros Hrest. unfold monitor_turn. destruct usb as [path|].
  - destruct (decide (Some path <> current)) as [Hne|Heq]; simpl.
    + rewrite bool_decide_eq_false_2 by (intros H; apply Hne; symmetry; exact H).
      exact Hrest.
    + destruct (decide (current = Some path)) as [->|Hne]; [exact Hrest|].
      exfalso. apply Heq. intros H. apply Hne. symmetry. exact H.
  - destruct current as [p|]; exact Hrest.
Qed.

(** X19.  The loop of [USBMonitor.run] is edge-triggered.  Over any sequence of
    scans, [_current_usb] ends as the result of the last scan, at most one
    callback is made per scan, and every callback reports a change: a
    disconnection only while a drive was connected, a connection only for
    a drive other than the one connected. *)
Theorem monitor_run_reports_changes (scans : list (option string)) (current : option string) :
  fst (monitor_run scans current) = default current (last scans) /\
  length (snd (monitor_run scans current)) <= length scans /\
  reports_changes current (snd (monitor_run scans current)) = true.
Proof.
  revert current. induction scans as [|usb rest IH]; intros current.
  - repeat split. simpl. lia.
  - cbn [monitor_run].
    pose proof (monitor_turn_current usb current) as Hcur.
    pose proof (monitor_turn_reports usb current) as Hrep.
    assert (Hone : length (snd (monitor_turn usb current)) <= 1).
    { unfold monitor_turn. destruct usb; [destruct (decide _)|destruct current]; simpl; lia. }
    destruct (monitor_turn usb current) as [current' made]. simpl in Hcur, Hrep, Hone.
    subst current'.
    destruct (IH usb) as (Hfinal & Hcount & Hchanges).
    destruct (monitor_run rest usb) as [final later]. cbn [fst snd] in *.
    split; [|split].
    + rewrite Hfinal, last_cons. destruct (last rest); reflexivity.
    + rewrite length_app. cbn [length]. lia.
    + apply Hrep. exact Hchanges.
Qed.

(** ** The session, further *)

Section SessionGuard.
Context {L : Platform}.

Lemma guard_fields_guarded s s' :
  guard_fields s' = guard_fields s -> vault_guarded s -> vault_guarded s'.
Proof.
  unfold guard_fields, vault_guarded. intros [= Hp Hv Ht Hu Hn].
  rewrite Hp, Hv, Ht, Hu, Hn. auto.
Qed.

Lemma lock_vault_locks s :
  exists s',
    _lock_vault s = (Ok tt, s') /\
    current_index s' = PAGE_LOGIN /\ _vault_manager s' = None /\
    _auto_lock_timer s' = None /\ _usb_path s' = _usb_path s /\
    loop_time s' = loop_time s.
Proof.
  unfold _lock_vault. run_next.
  destruct (_vault_manager s) as [vm|] eqn:Hvm;
    (run_bind ltac:(unfold with_vault_manager; cbn [_vault_manager set_auto_lock_timer];
                    rewrite Hvm; reflexivity);
     run_next; run_next; run_next;
     eexists; split; [reflexivity|]; simpl; splits; reflexivity).
Qed.

Lemma on_usb_connected_run path s :
  _on_usb_connected path s =
    (Ok tt,
     set_login_usb_status true
       (set_world (logged (LogUsbConnected path) (mw_world s))
          (set_security_log (security_log s ++ [LogUsbConnected path])
             (set_usb_path (Some path) s)))).
Proof. unfold _on_usb_connected. run_next. run_next. reflexivity. Qed.

Lemma end_lockouts_run {A} (due : list A) s :
  exists s',
    for_each due (fun _ => _end_lockout) s = (Ok tt, s') /\
    guard_fields s' = guard_fields s.
Proof.
  revert s. induction due as [|d due IH]; intros s.
  - eexists. split; reflexivity.
  - cbn [for_each].
    destruct (end_lockout_run s) as (s1 & Hend & _ & _ & _ & Hn & Hu & Ht & Hp & Hv & _).
    run_bind ltac:(exact Hend).
    destruct (IH s1) as (s' & Hrun & Hfields).
    exists s'. split; [exact Hrun|]. rewrite Hfields.
    unfold guard_fields. rewrite Hn, Hu, Ht, Hp, Hv. reflexivity.
Qed.

(** What the passing of time does to the guard: the auto-lock timer, when
    due, locks the vault; otherwise nothing the guard looks at changes but
    the time. *)
Lemma elapse_guard ms s :
  exists s',
    elapse ms s = (Ok tt, s') /\
    loop_time s' = (loop_time s + ms)%N /\ _usb_path s' = _usb_path s /\
    ((exists d, _auto_lock_timer s = Some d /\ (d <= loop_time s + ms)%N /\
                current_index s' = PAGE_LOGIN /\ _vault_manager s' = None /\
                _auto_lock_timer s' = None) \/
     ((forall d, _auto_lock_timer s = Some d -> (loop_time s + ms < d)%N) /\
      current_index s' = current_index s /\ _vault_manager s' = _vault_manager s /\
      _auto_lock_timer s' = _auto_lock_timer s)).
Proof.
  unfold elapse.
  run_bind ltac:(idtac; reflexivity). run_bind ltac:(idtac; reflexivity).
  cbn [loop_time lockout_timers set_loop_time _auto_lock_timer].
  run_bind ltac:(idtac; reflexivity).
  match goal with |- context [ mbind _ (for_each ?due _) ?s0 ] =>
    destruct (end_lockouts_run due s0) as (s1 & Hdue & Hfields)
  end.
  run_bind ltac:(exact Hdue).
  injection Hfields as Hp Hv Ht Hu Hn.
  cbn [current_index _vault_manager _auto_lock_timer _usb_path loop_time
       set_lockout_timers set_loop_time] in Hp, Hv, Ht, Hu, Hn.
  destruct (_auto_lock_timer s) as [d|] eqn:Htimer.
  - destruct (decide (d <= loop_time s + ms)%N) as [Hle|Hgt].
    + run_bind ltac:(idtac; reflexivity).
      unfold _auto_lock. run_next.
      match goal with |- context [ _lock_vault ?s0 ] =>
        destruct (lock_vault_locks s0) as (s' & Hrun & Hp' & Hv' & Ht' & Hu' & Hn')
      end.
      exists s'. split; [exact Hrun|].
      cbn [_usb_path loop_time set_security_log set_auto_lock_timer set_world] in Hu', Hn'.
      rewrite Hu', Hn', Hu, Hn. split; [reflexivity|]. split; [reflexivity|].
      left. exists d. auto.
    + exists s1. split; [reflexivity|]. rewrite Hu, Hn, Hp, Hv, Ht.
      split; [reflexivity|]. split; [reflexivity|]. right.
      split; [|auto]. intros d' [= <-]. lia.
  - exists s1. split; [reflexivity|]. rewrite Hu, Hn, Hp, Hv, Ht.
    split; [reflexivity|]. split; [reflexivity|]. right.
    split; [|auto]. intros d' [=].
Qed.

Lemma switch_to_vault_guard s :
  exists s',
    _switch_to_vault s = (Ok tt, s') /\
    current_index s' = PAGE_VAULT /\ _vault_manager s' = _vault_manager s /\
    _auto_lock_timer s' = Some (loop_time s + AUTO_LOCK_MS)%N /\
    _usb_path s' = _usb_path s /\ loop_time s' = loop_time s.
Proof.
  unfold _switch_to_vault, _refresh_file_list.
  destruct (_vault_manager s) as [vm|] eqn:Hvm.
  - run_bind ltac:(
      run_bind ltac:(unfold with_vault_manager; rewrite Hvm, list_files_run; reflexivity);
      reflexivity).
    eexists. split; [reflexivity|]. simpl. rewrite ?Hvm. repeat split.
  - run_bind ltac:(
      run_bind ltac:(unfold with_vault_manager; rewrite Hvm; reflexivity);
      reflexivity).
    eexists. split; [reflexivity|]. simpl. rewrite ?Hvm. repeat split.
Qed.

(** What an unlock request does to the guard: only a success changes what
    the guard looks at, and it opens the vault with the timer armed. *)
Lemma unlock_guard secret is_recovery s o s' :
  _on_unlock_requested secret is_recovery s = (Ok o, s') ->
  _usb_path s' = _usb_path s /\ loop_time s' = loop_time s /\
  match o with
  | Unlocked =>
      current_index s' = PAGE_VAULT /\ is_Some (_vault_manager s') /\
      is_Some (_usb_path s') /\
      _auto_lock_timer s' = Some (loop_time s + AUTO_LOCK_MS)%N
  | _ =>
      current_index s' = current_index s /\ _vault_manager s' = _vault_manager s /\
      _auto_lock_timer s' = _auto_lock_timer s
  end.
Proof.
  intros Hrun. unfold _on_unlock_requested in Hrun.
  inv_bind Hrun as s0 s1 Hget. injection Hget as <- <-.
  destruct (_locked_out s).
  { inv_bind Hrun as [] s1 Hmod. injection Hmod as <-. injection Hrun as <- <-.
    repeat split. }
  destruct (_usb_path s) as [usb|] eqn:Husb.
  2: { inv_bind Hrun as [] s1 Hmod. injection Hmod as <-. injection Hrun as <- <-.
       simpl. rewrite Husb. repeat split. }
  inv_bind Hrun as master_key s1 Hload.
  apply in_mw_world_inv in Hload as (w' & _ & ->).
  destruct (truthy master_key) as [key|].
  - inv_bind Hrun as [] s1 H1. injection H1 as <-.
    inv_bind Hrun as [] s2 H2. injection H2 as <-.
    inv_bind Hrun as [] s3 H3. injection H3 as <-.
    inv_bind Hrun as [] s4 H4. rewrite log_run in H4. injection H4 as <-.
    inv_bind Hrun as crypto s5 H5. injection H5 as _ <-.
    inv_bind Hrun as vm s6 H6. apply in_mw_world_inv in H6 as (w2 & _ & ->).
    inv_bind Hrun as [] s7 H7. injection H7 as <-.
    inv_bind Hrun as [] s8 H8.
    match type of H8 with _switch_to_vault ?s0 = _ =>
      destruct (switch_to_vault_guard s0) as (s9 & Hs & Hp & Hv & Ht & Hu & Hn)
    end.
    rewrite Hs in H8. injection H8 as <-. injection Hrun as <- <-.
    rewrite Hp, Hv, Ht, Hu, Hn. simpl. rewrite Husb. repeat split; eauto.
  - inv_bind Hrun as [] s1 Hmod. injection Hmod as <-.
    inv_bind Hrun as s2 s3 Hget. injection Hget as <- <-.
    inv_bind Hrun as [] s3 Hlog. rewrite log_run in Hlog. injection Hlog as <-.
    cbn [_failed_attempts set_failed_attempts set_world set_security_log] in Hrun.
    destruct (decide (MAX_FAILED_ATTEMPTS <= _failed_attempts s + 1)) as [Hmax|Hmax].
    + inv_bind Hrun as [] s4 Htrig. injection Hrun as <- <-.
      rewrite trigger_lockout_run in Htrig.
      injection Htrig as <-. simpl. rewrite Husb. repeat split.
    + inv_bind Hrun as [] s4 Herr. injection Hrun as <- <-.
      injection Herr as <-. simpl. rewrite Husb. repeat split.
Qed.

Lemma handle_guarded ev s s' :
  vault_guarded s -> handle ev s = (Ok tt, s') -> vault_guarded s'.
Proof.
  intros Hguard Hrun.
  destruct ev as [secret is_recovery | ms | path | | ]; simpl in Hrun.
  - inv_bind Hrun as o s1 Hunlock. injection Hrun as <-.
    destruct (unlock_guard _ _ _ _ _ Hunlock) as (Hu & Hn & Ho).
    assert (Hsame : current_index s1 = current_index s /\
                    _vault_manager s1 = _vault_manager s /\
                    _auto_lock_timer s1 = _auto_lock_timer s -> vault_guarded s1).
    { intros (Hp & Hv & Ht). apply (guard_fields_guarded s); [|exact Hguard].
      unfold guard_fields. rewrite Hp, Hv, Ht, Hu, Hn. reflexivity. }
    destruct o; try (apply Hsame; exact Ho).
    destruct Ho as (Hp & Hv & Husb & Ht). right.
    split; [exact Hp|]. split; [exact Hv|]. split; [exact Husb|].
    exists (loop_time s + AUTO_LOCK_MS)%N. rewrite Hn.
    split; [exact Ht|]. unfold AUTO_LOCK_MS, AUTO_LOCK_SECONDS. lia.
  - destruct (elapse_guard ms s) as (s1 & Hel & Hn & Hu & Hcase).
    rewrite Hel in Hrun. injection Hrun as <-.
    destruct Hcase as [(d & _ & _ & Hp & Hv & Ht) | (Hlater & Hp & Hv & Ht)].
    + left. auto.
    + destruct Hguard as [(Hp0 & Hv0 & Ht0) | (Hp0 & Hv0 & Hu0 & d & Ht0 & Hlt & Hle)].
      * left. rewrite Hp, Hv, Ht. auto.
      * right. rewrite Hp, Hv, Hu, Ht, Hn. repeat split; try assumption.
        exists d. split; [exact Ht0|]. specialize (Hlater d Ht0). lia.
  - rewrite on_usb_connected_run in Hrun. injection Hrun as <-.
    destruct Hguard as [(Hp0 & Hv0 & Ht0) | (Hp0 & Hv0 & Hu0 & d & Ht0 & Hlt & Hle)].
    + left. auto.
    + right. simpl. repeat split; try assumption; eauto.
  - unfold _on_usb_disconnected in Hrun.
    inv_bind Hrun as [] s1 H1. rewrite log_run in H1. injection H1 as <-.
    inv_bind Hrun as [] s2 H2. injection H2 as <-.
    inv_bind Hrun as [] s3 H3. injection H3 as <-.
    inv_bind Hrun as s4 s5 H4. injection H4 as <- <-.
    match type of Hrun with context [ decide ?P ] => destruct (decide P) as [Hvault|Hlogin] end.
    + match type of Hrun with _lock_vault ?s0 = _ =>
        destruct (lock_vault_locks s0) as (s1 & Hlock & Hp & Hv & Ht & _)
      end.
      rewrite Hlock in Hrun. injection Hrun as <-. left. auto.
    + injection Hrun as <-. simpl in Hlogin.
      destruct Hguard as [(Hp0 & Hv0 & Ht0) | (Hp0 & _)]; [|contradiction].
      left. auto.
  - destruct (lock_vault_locks s) as (s1 & Hlock & Hp & Hv & Ht & _).
    rewrite Hlock in Hrun. injection Hrun as <-. left. auto.
Qed.

Lemma run_guarded evs :
  forall s s', vault_guarded s -> run evs s = (Ok tt, s') -> vault_guarded s'.
Proof.
  induction evs as [|ev evs IH]; intros s s' Hguard Hrun.
  - injection Hrun as <-. exact Hguard.
  - unfold run in Hrun. simpl for_each in Hrun. fold (run evs) in Hrun.
    inv_bind Hrun as [] s1 Hstep.
    exact (IH _ _ (handle_guarded _ _ _ Hguard Hstep) Hrun).
Qed.

Lemma reachable_guarded s : reachable s -> vault_guarded s.
Proof.
  intros (w & evs & Hrun). apply (run_guarded evs _ _) in Hrun; [exact Hrun|].
  left. repeat split.
Qed.

End SessionGuard.

Lemma sample_open_window_reachable : reachable sample_open_window.
Proof.
  exists sample_enrolled,
    [EvUsbConnected "/media/usb"; EvUnlockRequested "correcthorsebattery" false].
  vm_compute. reflexivity.
Qed.



(** X21.  Inactivity locks the vault.  From any state the window goes through,
    once 300 seconds or more pass on the event loop with no other event,
    the login page is shown and no vault manager is held. *)
Theorem auto_lock_after_inactivity {L : Platform} (s : MainWindow) (ms : N) :
  reachable s ->
  (AUTO_LOCK_MS <= ms)%N ->
  exists s',
    elapse ms s = (Ok tt, s') /\
    current_index s' = PAGE_LOGIN /\ _vault_manager s' = None /\
    _auto_lock_timer s' = None.
Proof.
  intros Hreach Hms. apply reachable_guarded in Hreach as Hguard.
  destruct (elapse_guard ms s) as (s' & Hel & _ & _ & Hcase).
  exists s'. split; [exact Hel|].
  destruct Hcase as [(d & _ & _ & Hp & Hv & Ht) | (Hlater & Hp & Hv & Ht)]; [auto|].
  destruct Hguard as [(Hp0 & Hv0 & Ht0) | (_ & _ & _ & d & Ht0 & _ & Hle)].
  - rewrite Hp, Hv, Ht. auto.
  - specialize (Hlater d Ht0). lia.
Qed.

Lemma auto_lock_after_inactivity_witness :
  current_index sample_open_window = PAGE_VAULT /\
  exists s',
    elapse 300000 sample_open_window = (Ok tt, s') /\
    current_index s' = PAGE_LOGIN /\ _vault_manager s' = None /\
    _auto_lock_timer s' = None.
Proof.
  split; [vm_compute; reflexivity|].
  apply (auto_lock_after_inactivity sample_open_window 300000).
  - exact sample_open_window_reachable.
  - vm_compute. discriminate.
Defined.



(** ** Polling the monitor *)


(** ** The requests of the vault screen *)

Section FileRequests.
Context {L : Platform}.

Lemma preserves_with_vault_manager {A T} (f : MainWindow -> T) (m : M VMState A) :
  (forall s w vm, _vault_manager s <> None ->
                  f (set_world w (set_vault_manager (Some vm) s)) = f s) ->
  preserves f (with_vault_manager m).
Proof.
  intros Hf s r s'. unfold with_vault_manager.
  destruct (_vault_manager s) as [vm|] eqn:Hvm.
  - destruct (m (mkVMState vm (mw_world s))) as [r0 vs]. intros [= _ <-].
    apply Hf. rewrite Hvm. discriminate.
  - intros [= _ <-]. reflexivity.
Qed.

Lemma never_raises_with_vault_manager {A} (m : M VMState A) :
  never_raises m -> never_raises (with_vault_manager m).
Proof.
  intros Hm s. unfold with_vault_manager.
  destruct (_vault_manager s) as [vm|].
  - destruct (Hm (mkVMState vm (mw_world s))) as (a & vs & Hrun). rewrite Hrun.
    eexists _, _. reflexivity.
  - eexists _, _. reflexivity.
Qed.

Lemma never_raises_list_files : never_raises list_files.
Proof. intros s. rewrite list_files_run. eexists _, _. reflexivity. Qed.

Ltac keep_window :=
  repeat first
    [ apply preserves_with_vault_manager; intros ? ? ? ?; reflexivity
    | keep_base ].

Lemma preserves_refresh_file_list {T} (f : MainWindow -> T) :
  (forall s w vm, _vault_manager s <> None ->
                  f (set_world w (set_vault_manager (Some vm) s)) = f s) ->
  (forall s files, f (set_vault_files files s) = f s) ->
  preserves f _refresh_file_list.
Proof.
  intros Hvm Hfiles. unfold _refresh_file_list.
  apply preserves_bind; [apply preserves_with_vault_manager; exact Hvm|].
  intros [files|]; [|apply preserves_ret].
  apply preserves_modify. intros s. apply Hfiles.
Qed.

Lemma reset_auto_lock_timer_run s :
  _reset_auto_lock_timer s = (Ok tt, snd (_reset_auto_lock_timer s)).
Proof.
  unfold _reset_auto_lock_timer. run_bind ltac:(idtac; reflexivity).
  destruct (decide _); reflexivity.
Qed.

(** What follows the resetting of the timer in the three handlers keeps
    whatever neither the vault manager, nor the world, nor the list of
    the vault screen is part of. *)
Lemma file_request_after_reset {T} (f : MainWindow -> T) (req : file_request) :
  (forall s w vm, _vault_manager s <> None ->
                  f (set_world w (set_vault_manager (Some vm) s)) = f s) ->
  (forall s files, f (set_vault_files files s) = f s) ->
  forall s r s', handle_file_request req s = (r, s') ->
  f s' = f (snd (_reset_auto_lock_timer s)).
Proof.
  intros Hvm Hfiles s r s' Hrun.
  assert (Hrefresh : preserves f _refresh_file_list)
    by (apply preserves_refresh_file_list; assumption).
  assert (Hwith : forall A (m : M VMState A), preserves f (with_vault_manager m))
    by (intros A m; apply preserves_with_vault_manager; exact Hvm).
  destruct req as [path | vault_id dest | vault_id]; cbn [handle_file_request] in Hrun.
  - unfold _on_add_file in Hrun.
    rewrite (bind_run _ _ _ _ _ (reset_auto_lock_timer_run s)) in Hrun.
    revert Hrun. apply preserves_bind; [apply Hwith|].
    intros [[|]|]; first [exact Hrefresh | apply preserves_ret].
  - unfold _on_extract_file in Hrun.
    rewrite (bind_run _ _ _ _ _ (reset_auto_lock_timer_run s)) in Hrun.
    revert Hrun. apply preserves_bind; [apply Hwith|].
    intros _. apply preserves_ret.
  - unfold _on_delete_file in Hrun.
    rewrite (bind_run _ _ _ _ _ (reset_auto_lock_timer_run s)) in Hrun.
    revert Hrun. apply preserves_bind; [apply Hwith|].
    intros [[|]|]; first [exact Hrefresh | apply preserves_ret].
Qed.

Lemma file_request_never_raises (req : file_request) :
  (forall vault_id, req <> DeleteFileRequested vault_id) ->
  never_raises (handle_file_request req).
Proof.
  intros Hreq s.
  destruct req as [path | vault_id dest | vault_id]; cbn [handle_file_request].
  - unfold _on_add_file.
    rewrite (bind_run _ _ _ _ _ (reset_auto_lock_timer_run s)).
    generalize (snd (_reset_auto_lock_timer s)). intros s1.
    destruct (never_raises_with_vault_manager _ (never_raises_add_file path true) s1)
      as (added & s2 & Hadd).
    rewrite (bind_run _ _ _ _ _ Hadd).
    destruct added as [[|]|]; try (eexists _, _; reflexivity).
    unfold _refresh_file_list.
    destruct (never_raises_with_vault_manager _ never_raises_list_files s2)
      as (listing & s3 & Hlist).
    rewrite (bind_run _ _ _ _ _ Hlist).
    destruct listing; eexists _, _; reflexivity.
  - unfold _on_extract_file.
    rewrite (bind_run _ _ _ _ _ (reset_auto_lock_timer_run s)).
    generalize (snd (_reset_auto_lock_timer s)). intros s1.
    destruct (never_raises_with_vault_manager _
                (never_raises_extract_file vault_id dest) s1) as (out & s2 & Hext).
    rewrite (bind_run _ _ _ _ _ Hext). eexists _, _. reflexivity.
  - exfalso. exact (Hreq vault_id eq_refl).
Qed.

End FileRequests.

(** X24.  A request of the vault screen to add, extract or delete a file
    leaves the session alone: the USB path, the count of failures, the
    lockout flag and its timers, the time, the page shown and the error
    label are unchanged, a vault manager is held afterwards exactly when
    one was held before, and on the vault page the auto-lock timer is
    started afresh, due 300 seconds later.  So the vault stays guarded.
    Adding and extracting never raise; only a deletion can. *)
Theorem file_requests_keep_session {L : Platform} (req : file_request) (s : MainWindow) :
  let r := fst (handle_file_request req s) in
  let s' := snd (handle_file_request req s) in
  session_fields s' = session_fields s /\
  (is_Some (_vault_manager s') <-> is_Some (_vault_manager s)) /\
  _auto_lock_timer s' =
    (if decide (current_index s = PAGE_VAULT)
     then Some (loop_time s + AUTO_LOCK_MS)%N else _auto_lock_timer s) /\
  (vault_guarded s -> vault_guarded s') /\
  ((forall vault_id, req <> DeleteFileRequested vault_id) -> r = Ok tt).
Proof.
  cbv zeta.
  destruct (handle_file_request req s) as [r s'] eqn:Hrun. cbn [fst snd].
  assert (Hreset : snd (_reset_auto_lock_timer s) =
                   if decide (current_index s = PAGE_VAULT)
                   then set_auto_lock_timer (Some (loop_time s + AUTO_LOCK_MS)%N) s
                   else s).
  { unfold _reset_auto_lock_timer, mbind, M_bind, m_bind, get_state.
    destruct (decide (current_index s = PAGE_VAULT)); reflexivity. }
  pose proof (file_request_after_reset session_fields req
                ltac:(reflexivity) ltac:(reflexivity) _ _ _ Hrun) as Hfields.
  pose proof (file_request_after_reset _auto_lock_timer req
                ltac:(reflexivity) ltac:(reflexivity) _ _ _ Hrun) as Htimer.
  pose proof (file_request_after_reset
                (fun s => match _vault_manager s with Some _ => true | None => false end) req
                ltac:(intros s0 w vm Hvm; cbn [set_world set_vault_manager _vault_manager];
                      destruct (_vault_manager s0); [reflexivity | congruence])
                ltac:(reflexivity) _ _ _ Hrun) as Hheld.
  rewrite Hreset in Hfields, Htimer, Hheld.
  assert (Hfields' : session_fields s' = session_fields s)
    by (rewrite Hfields; destruct (decide _); reflexivity).
  assert (Htimer' : _auto_lock_timer s' =
                    if decide (current_index s = PAGE_VAULT)
                    then Some (loop_time s + AUTO_LOCK_MS)%N else _auto_lock_timer s)
    by (rewrite Htimer; destruct (decide _); reflexivity).
  assert (Hheld' : is_Some (_vault_manager s') <-> is_Some (_vault_manager s)).
  { assert (Hb : match _vault_manager s' with Some _ => true | None => false end
                 = match _vault_manager s with Some _ => true | None => false end)
      by (rewrite Hheld; destruct (decide _); reflexivity).
    destruct (_vault_manager s'), (_vault_manager s); try discriminate Hb;
      split; intros H; first [eauto | destruct H as [? [=]]]. }
  split; [exact Hfields'|]. split; [exact Hheld'|]. split; [exact Htimer'|]. split.
  - injection Hfields' as Hu _ _ _ Hn Hp _.
    intros [(Hp0 & Hv0 & Ht0) | (Hp0 & Hv0 & Hu0 & d & Ht0 & Hlt & Hle)].
    + left. rewrite Hp. split; [exact Hp0|]. split.
      * destruct (_vault_manager s') as [vm|] eqn:Hvm; [|reflexivity].
        assert (Hsome : is_Some (_vault_manager s)) by (apply Hheld'; eauto).
        rewrite Hv0 in Hsome. destruct Hsome as [? [=]].
      * rewrite Htimer', decide_False by (rewrite Hp0; discriminate). exact Ht0.
    + right. rewrite Hp, Hu, Hn. split; [exact Hp0|].
      split; [apply Hheld'; exact Hv0|]. split; [exact Hu0|].
      exists (loop_time s + AUTO_LOCK_MS)%N.
      rewrite Htimer', decide_True by exact Hp0.
      split; [reflexivity|]. unfold AUTO_LOCK_MS, AUTO_LOCK_SECONDS. lia.
  - intros Hreq. destruct (file_request_never_raises req Hreq s) as ([] & s1 & Hok).
    rewrite Hok in Hrun. injection Hrun as <- _. reflexivity.
Qed.
